(** * contextor: file selection and traversal engine

    A shallow embedding of [contextor/utils.py] (exclusion rules, binary
    detection, git tracking, the single-pass project scan), of
    [codecontextor/main.py] (pattern files, the tree renderer, the merge
    into the context file) and of the parts of
    [contextor/signatures/javascript.py] that do not depend on the regular
    expression engine, followed by the properties proved about them.

    Conventions of the embedding:
    - Python [str] is [string]; characters are bytes, [lower] and [strip]
      are those of ASCII, and [sorted] compares byte-wise (which is
      code-point order on UTF-8 text).  On ASCII text these are Python's own
      functions; a statement that depends on them beyond ASCII says so in a
      hypothesis ([ascii_text], [ascii_names]).
    - Paths are POSIX ([os.sep] is ["/"]), so [replace(os.sep, "/")] is the
      identity.
    - Code that touches the outside world runs in the monad [M]: it yields
      either a value or a raised exception, together with the list of
      file-system and collaborator calls it made, in order.
    - What the file system and git answer is a [world]; what can fail on
      top of that ([stat] for lack of permission, a git that cannot be run,
      a file that is not text) is a [Faults].  A statement that names no
      faults is about the runtime in which none occurs. *)

From Stdlib Require Import ZArith Ascii String List Bool Sorting.Sorted Sorting.Permutation Lia.
From Stdlib Require DecimalString.
From stdpp Require Import base decidable list gmap strings sorting.

Open Scope string_scope.
Open Scope list_scope.

(* ===================================================================== *)
(** ** Python string primitives *)
(* ===================================================================== *)

Module Str.

(** [s.startswith(p)] *)
Fixpoint startswith (s p : string) {struct p} : bool :=
  match p, s with
  | EmptyString, _ => true
  | String _ _, EmptyString => false
  | String c p', String d s' => Ascii.eqb c d && startswith s' p'
  end.

(** [s.endswith(p)]: [s] is [p], or the tail of [s] ends with [p]. *)
Fixpoint endswith (s p : string) : bool :=
  String.eqb s p ||
  match s with
  | EmptyString => false
  | String _ s' => endswith s' p
  end.

(** [s.endswith((p1, ..., pn))] with a tuple of suffixes. *)
Definition endswith_any (s : string) (ps : list string) : bool :=
  existsb (endswith s) ps.

(** [c in s] for a one-character [c]. *)
Fixpoint contains (c : ascii) (s : string) : bool :=
  match s with
  | EmptyString => false
  | String d s' => Ascii.eqb c d || contains c s'
  end.

(** [s.split(sep)] for a one-character separator: never returns [[]]. *)
Fixpoint split (sep : ascii) (s : string) : list string :=
  match s with
  | EmptyString => [EmptyString]
  | String c s' =>
      if Ascii.eqb c sep then EmptyString :: split sep s'
      else match split sep s' with
           | h :: t => String c h :: t
           | [] => [String c EmptyString]
           end
  end.

(** [sep.join(l)] *)
Fixpoint join (sep : string) (l : list string) : string :=
  match l with
  | [] => EmptyString
  | [x] => x
  | x :: l' => x +:+ sep +:+ join sep l'
  end.

Definition lower_ascii (c : ascii) : ascii :=
  let n := nat_of_ascii c in
  if (65 <=? n)%nat && (n <=? 90)%nat then ascii_of_nat (n + 32) else c.

(** [s.lower()] *)
Fixpoint lower (s : string) : string :=
  match s with
  | EmptyString => EmptyString
  | String c s' => String (lower_ascii c) (lower s')
  end.

End Str.

(* ===================================================================== *)
(** ** Exceptions, observable calls and the monad of effectful code *)
(* ===================================================================== *)

(** What the operating system can answer to a failed call. *)
Inductive os_error := ENOENT | EACCES | ENOTDIR | EISDIR | EIO.

(** The Python exceptions the modelled code can meet. *)
Inductive exn :=
| ValueError
| OSError
| FileNotFoundError
| PermissionError
| NotADirectoryError
| IsADirectoryError
| CalledProcessError (returncode : Z)
| UnicodeDecodeError.                 (* a [ValueError] *)

(** The classes named in [except] clauses ([IOError] is an alias of
    [OSError]). *)
Inductive exn_class :=
| ClsValueError | ClsOSError | ClsIOError | ClsPermissionError
| ClsFileNotFoundError | ClsSubprocessError.

Definition isinstance (e : exn) (c : exn_class) : bool :=
  match c, e with
  | ClsValueError, (ValueError | UnicodeDecodeError) => true
  | (ClsOSError | ClsIOError),
    (OSError | FileNotFoundError | PermissionError | NotADirectoryError | IsADirectoryError) => true
  | ClsPermissionError, PermissionError => true
  | ClsFileNotFoundError, FileNotFoundError => true
  | ClsSubprocessError, CalledProcessError _ => true
  | _, _ => false
  end.

Definition exn_of_os_error (e : os_error) : exn :=
  match e with
  | ENOENT => FileNotFoundError
  | EACCES => PermissionError
  | ENOTDIR => NotADirectoryError
  | EISDIR => IsADirectoryError
  | EIO => OSError
  end.

(** A [pathlib] path: whether it is rooted at ["/"], and its components. *)
Record Path := mk_Path { anchored : bool; parts : list string }.

(** Calls that leave the process, in the order they are made. *)
Inductive event :=
| EvIsDir (p : Path)            (* Path.is_dir(), os.path.isdir() *)
| EvExists (p : Path)           (* Path.exists() *)
| EvMatchFile (rel : string)    (* spec.match_file(rel) *)
| EvScandir (top : string)      (* a directory listing *)
| EvOpen (file_path : string)   (* open(file_path, 'rb') *)
| EvRead (file_path : string) (n : nat)  (* f.read(n) *)
| EvStat (file_path : string)   (* Path(file_path).stat() *)
| EvGitLsFiles (cwd : string)   (* subprocess.run(['git', 'ls-files', ...]) *)
| EvPrint (msg : string).       (* print(msg) *)

Inductive outcome (A : Type) :=
| Ok (a : A)
| Raise (e : exn).
Arguments Ok {A} a.
Arguments Raise {A} e.

Definition M (A : Type) : Type := outcome A * list event.

Definition ret {A} (a : A) : M A := (Ok a, []).
Definition raise {A} (e : exn) : M A := (Raise e, []).
Definition tell (ev : event) : M unit := (Ok tt, [ev]).

Definition bind {A B} (m : M A) (k : A -> M B) : M B :=
  match m with
  | (Ok a, t) => let '(r, t') := k a in (r, t ++ t')
  | (Raise e, t) => (Raise e, t)
  end.

(** [try: m  except classes: handler] *)
Definition try_except {A} (m : M A) (classes : list exn_class) (handler : exn -> M A) : M A :=
  match m with
  | (Ok a, t) => (Ok a, t)
  | (Raise e, t) =>
      if existsb (isinstance e) classes
      then let '(r, t') := handler e in (r, t ++ t')
      else (Raise e, t)
  end.

Declare Scope monad_scope.
Delimit Scope monad_scope with monad.
Notation "'do' x <- m ; k" := (bind m (fun x => k))
  (at level 10, x name, m at level 100, k at level 200) : monad_scope.
Notation "'do_' m ; k" := (bind m (fun _ => k))
  (at level 10, m at level 100, k at level 200) : monad_scope.
Open Scope monad_scope.

(** [for x in l: st = body x st] *)
Fixpoint foldM {A S} (body : A -> S -> M S) (l : list A) (st : S) : M S :=
  match l with
  | [] => ret st
  | x :: l' => do st' <- body x st; foldM body l' st'
  end.

Definition result {A} (m : M A) : outcome A := fst m.
Definition trace {A} (m : M A) : list event := snd m.

(* ===================================================================== *)
(** ** [os.path] and [pathlib] on POSIX *)
(* ===================================================================== *)

Definition slash : ascii := "/"%char.

Module OsPath.

(** [os.path.join(a, b)] *)
Definition join (a b : string) : string :=
  if Str.startswith b "/" then b
  else if String.eqb a "" || Str.endswith a "/" then a +:+ b
  else a +:+ "/" +:+ b.

(** The component loop of [posixpath.normpath]. *)
Fixpoint normpath_comps (initial_slashes : bool) (comps new_comps : list string) : list string :=
  match comps with
  | [] => new_comps
  | comp :: comps' =>
      if String.eqb comp "" || String.eqb comp "." then
        normpath_comps initial_slashes comps' new_comps
      else if negb (String.eqb comp "..")
              || (negb initial_slashes && bool_decide (new_comps = []))
              || (match last new_comps with Some l => String.eqb l ".." | None => false end)
      then normpath_comps initial_slashes comps' (new_comps ++ [comp])
      else normpath_comps initial_slashes comps' (removelast new_comps)
  end.

(** [os.path.normpath(path)] *)
Definition normpath (path : string) : string :=
  if String.eqb path "" then "."
  else
    let initial_slashes :=
      if Str.startswith path "//" && negb (Str.startswith path "///") then 2
      else if Str.startswith path "/" then 1 else 0 in
    let comps := normpath_comps (negb (Nat.eqb initial_slashes 0)) (Str.split slash path) [] in
    let path' := Str.join "/" comps in
    let path' := match initial_slashes with
                 | 0 => path' | 1 => "/" +:+ path' | _ => "//" +:+ path' end in
    if String.eqb path' "" then "." else path'.

(** [os.path.abspath(path)], in a process whose working directory is [cwd]. *)
Definition abspath (cwd path : string) : string :=
  normpath (join cwd path).

End OsPath.

Module PathLib.

Definition is_component (c : string) : bool :=
  negb (String.eqb c "") && negb (String.eqb c ".").

(** [Path(s)]: empty and ["."] components are dropped; [".."] is kept.
    (POSIX gives a path that starts with exactly two slashes a root of its
    own; here it is rooted like any other absolute path.) *)
Definition Path_of (s : string) : Path :=
  {| anchored := Str.startswith s "/";
     parts := List.filter is_component (Str.split slash s) |}.

(** [str(p)] *)
Definition str (p : Path) : string :=
  if anchored p then "/" +:+ Str.join "/" (parts p)
  else match parts p with
       | [] => "."
       | _ => Str.join "/" (parts p)
       end.

(** [p.name] *)
Definition name (p : Path) : string :=
  match last (parts p) with Some n => n | None => "" end.

(** [p / child] for a single component. *)
Definition child (p : Path) (c : string) : Path :=
  {| anchored := anchored p; parts := parts p ++ [c] |}.

Fixpoint strip_prefix (pre l : list string) : option (list string) :=
  match pre, l with
  | [], _ => Some l
  | _ :: _, [] => None
  | x :: pre', y :: l' => if String.eqb x y then strip_prefix pre' l' else None
  end.

(** [p.relative_to(base)]: raises [ValueError] unless both have the same
    anchor and [base]'s components lead [p]'s. *)
Definition relative_to (p base : Path) : M Path :=
  if Bool.eqb (anchored p) (anchored base) then
    match strip_prefix (parts base) (parts p) with
    | Some rest => ret {| anchored := false; parts := rest |}
    | None => raise ValueError
    end
  else raise ValueError.

(** [p.is_relative_to(d)]: [p] is [d] or lies below it. *)
Definition is_relative_to (p d : Path) : bool :=
  Bool.eqb (anchored p) (anchored d) &&
  match strip_prefix (parts d) (parts p) with
  | Some _ => true
  | None => false
  end.

(** [p.is_relative_to(d)] and [p != d]: [p] lies strictly below [d]. *)
Definition strictly_below (p d : Path) : bool :=
  Bool.eqb (anchored p) (anchored d) &&
  match strip_prefix (parts d) (parts p) with
  | Some (_ :: _) => true
  | _ => false
  end.

End PathLib.

(* ===================================================================== *)
(** ** The outside world *)
(* ===================================================================== *)

#[local] Set Warnings "-register-all".

(** A directory tree as [os.walk] and [Path.iterdir] see it.  A directory
    whose listing fails carries the error; its entries are then never seen.
    There are no symbolic links in the model. *)
Inductive node :=
| File (name : string)
| Dir (name : string) (listing_error : option os_error) (children : list node).

Definition node_name (n : node) : string :=
  match n with File name => name | Dir name _ _ => name end.

Definition node_is_dir (n : node) : bool :=
  match n with File _ => false | Dir _ _ _ => true end.

(** What running [git ls-files --full-name] does: there is no git to run,
    or it runs and exits with a status (non-zero outside a repository),
    having printed these lines.  The other ways for the query to fail are
    the [git_error] of the runtime's faults. *)
Inductive git_outcome :=
| GitNotInstalled                                   (* no executable found *)
| GitRan (returncode : Z) (stdout_lines : list string).

Record world := {
  w_tree : node;                                    (* the directory handed to the scan *)
  w_is_dir : Path -> bool;                          (* stat says: a directory *)
  w_exists : Path -> bool;
  w_open_rb : string -> os_error + list Byte.byte;  (* the bytes of a file, if it opens *)
  w_stat_size : string -> os_error + Z;             (* st_size, if stat succeeds *)
  w_git : string -> git_outcome;                    (* by working directory *)
  w_cwd : string
}.

(** What can go wrong in the runtime on top of what a [world] answers.
    - [stat_error p]: [os.stat] fails on [p] with this error.  [pathlib]
      (Python 3.8 to 3.12) turns ENOENT and ENOTDIR into the answer [False]
      and raises every other error; [os.path] answers [False] to all.
    - [git_error path]: running git in [path] raises this exception
      instead of giving an outcome: [PermissionError] for a git that is
      not executable, [UnicodeDecodeError] for output that is not text, ...
    - [undecodable content]: the bytes are not text in the encoding the
      file is opened with (bytes that are all ASCII always are).
    A statement that names no faults is about [no_faults], the runtime in
    which none of them occurs. *)
Class Faults := {
  stat_error : Path -> option os_error;
  git_error : string -> option exn;
  undecodable : list Byte.byte -> bool
}.

Definition pathlib_ignores (e : os_error) : bool :=
  match e with
  | ENOENT | ENOTDIR => true
  | _ => false
  end.

Definition is_ascii_byte (b : Byte.byte) : bool := (Byte.to_N b <? 128)%N.

Section Primitives.
Context {F : Faults}.
Variable w : world.

(** [Path.is_dir()] *)
Definition is_dir (p : Path) : M bool :=
  do_ tell (EvIsDir p);
  match stat_error p with
  | None => ret (w_is_dir w p)
  | Some e => if pathlib_ignores e then ret false else raise (exn_of_os_error e)
  end.

(** [os.path.isdir(p)] *)
Definition os_path_isdir (p : Path) : M bool :=
  do_ tell (EvIsDir p);
  match stat_error p with
  | None => ret (w_is_dir w p)
  | Some _ => ret false
  end.

(** [Path.exists()] *)
Definition path_exists (p : Path) : M bool :=
  do_ tell (EvExists p);
  match stat_error p with
  | None => ret (w_exists w p)
  | Some e => if pathlib_ignores e then ret false else raise (exn_of_os_error e)
  end.

(** [os.path.exists(p)] *)
Definition os_path_exists (p : Path) : M bool :=
  do_ tell (EvExists p);
  match stat_error p with
  | None => ret (w_exists w p)
  | Some _ => ret false
  end.

(** Decoding what was read from a file opened in text mode; the characters
    of the text are the bytes that encode it. *)
Definition decode (content : list Byte.byte) : M string :=
  if negb (undecodable content) || forallb is_ascii_byte content
  then ret (string_of_list_byte content)
  else raise UnicodeDecodeError.

(** [with open(file_path, 'rb') as f: f.read(n)] *)
Definition open_read (file_path : string) (n : nat) : M (list Byte.byte) :=
  do_ tell (EvOpen file_path);
  match w_open_rb w file_path with
  | inl e => raise (exn_of_os_error e)
  | inr content => do_ tell (EvRead file_path n); ret (take n content)
  end.

(** [Path(file_path).stat().st_size] *)
Definition stat_size (file_path : string) : M Z :=
  do_ tell (EvStat file_path);
  match w_stat_size w file_path with
  | inl e => raise (exn_of_os_error e)
  | inr sz => ret sz
  end.

(** [subprocess.run(['git', 'ls-files', '--full-name'], cwd=path,
    stdout=PIPE, text=True, check=True).stdout.splitlines()] *)
Definition run_git_ls_files (path : string) : M (list string) :=
  do_ tell (EvGitLsFiles path);
  match git_error path with
  | Some e => raise e
  | None =>
      match w_git w path with
      | GitNotInstalled => raise FileNotFoundError
      | GitRan returncode stdout_lines =>
          if Z.eqb returncode 0 then ret stdout_lines
          else raise (CalledProcessError returncode)
      end
  end.

Definition print (msg : string) : M unit := tell (EvPrint msg).

End Primitives.

(** A compiled [pathspec.PathSpec]: its [match_file]. *)
Definition PathSpec := string -> bool.

Definition match_file (spec : PathSpec) (rel : string) : M bool :=
  do_ tell (EvMatchFile rel); ret (spec rel).

(** [sorted(l)] for a list of strings (also used with a key for [list.sort]):
    a stable insertion sort. *)
Section Sort.
Context {A : Type} (le : A -> A -> bool).

Fixpoint insert_sorted (x : A) (l : list A) : list A :=
  match l with
  | [] => [x]
  | y :: l' => if le x y then x :: y :: l' else y :: insert_sorted x l'
  end.

Definition sort_by (l : list A) : list A := foldr insert_sorted [] l.
End Sort.

Definition sorted (l : list string) : list string := sort_by String.leb l.

(* ===================================================================== *)
(** ** contextor/utils.py *)
(* ===================================================================== *)

Module Utils.

(** A Python set; only the existence of a matching pattern is ever asked,
    so the order of the list plays no role. *)
Definition DEFAULT_EXCLUSIONS : list string :=
  [ ".git/"; ".conda/"; ".venv/"; "venv/"; "node_modules/"; "__pycache__/";
    "*.pyc"; ".idea/"; ".vscode/"; "dist/"; "build/"; "target/"; ".DS_Store";
    ".pytest_cache/"; ".coverage/"; "coverage/"; "tmp/"; "temp/"; ".next/";
    ".nuxt/"; "out/"; ".sass-cache/"; "__tests__/__snapshots__/";
    ".ipynb_checkpoints/"; "*.lock" ].

(** The branch of [should_exclude] for a pattern ending in ["/"]. *)
Definition dir_pattern_matches (pattern rel_path_str : string) : bool :=
  String.eqb rel_path_str pattern || Str.startswith rel_path_str pattern ||
  (Str.contains slash rel_path_str &&
   let parts := Str.split slash rel_path_str in
   existsb (fun i => String.eqb (Str.join "/" (take (i + 1) parts) +:+ "/") pattern)
           (seq 0 (length parts))).

(** The branch for a pattern containing ["*"]. *)
Definition wildcard_pattern_matches (pattern rel_path_str : string) : bool :=
  let pattern_parts := Str.split "*"%char pattern in
  if Nat.eqb (length pattern_parts) 2 then
    Str.startswith rel_path_str (nth 0 pattern_parts "") &&
    Str.endswith rel_path_str (nth 1 pattern_parts "")
  else false.

(** One turn of the loop over [DEFAULT_EXCLUSIONS]. *)
Definition default_pattern_matches (pattern rel_path_str : string) : bool :=
  if Str.endswith pattern "/" then dir_pattern_matches pattern rel_path_str
  else if Str.contains "*"%char pattern then wildcard_pattern_matches pattern rel_path_str
  else String.eqb rel_path_str pattern.

Definition matches_default (rel_path_str : string) : bool :=
  existsb (fun pattern => default_pattern_matches pattern rel_path_str) DEFAULT_EXCLUSIONS.

Section WithWorld.
Context {F : Faults}.
Variable w : world.

Definition should_exclude (path base_path : Path) (spec : option PathSpec) : M bool :=
  try_except
    (do rel_path <- PathLib.relative_to path base_path;
     let rel_path_str := PathLib.str rel_path in
     do d <- is_dir w path;
     let rel_path_str := if d then rel_path_str +:+ "/" else rel_path_str in
     if matches_default rel_path_str then ret true
     else match spec with
          | Some sp => match_file sp rel_path_str
          | None => ret false
          end)
    [ClsValueError]
    (fun _ => ret false).

Definition binary_extensions : list string :=
  [ ".png"; ".jpg"; ".jpeg"; ".gif"; ".bmp"; ".ico"; ".svg";
    ".pdf"; ".doc"; ".docx"; ".ppt"; ".pptx"; ".xls"; ".xlsx";
    ".zip"; ".tar"; ".gz"; ".rar"; ".7z"; ".bin"; ".exe"; ".dll";
    ".so"; ".dylib"; ".class"; ".jar"; ".pyc" ].

Definition has_binary_extension (file_path : string) : bool :=
  existsb (fun ext => Str.endswith (Str.lower file_path) ext) binary_extensions.

Definition is_binary_file (file_path : string) : M bool :=
  if has_binary_extension file_path then ret true
  else
    try_except
      (do chunk <- open_read w file_path 1024;
       ret (existsb (Byte.eqb Byte.x00) chunk))
      [ClsIOError; ClsPermissionError]
      (fun _ => ret true).

Definition is_git_repo (path : string) : M bool :=
  os_path_isdir w (PathLib.Path_of (OsPath.join path ".git")).

Definition get_git_tracked_files (path : string) : M (gset string) :=
  try_except
    (do stdout_lines <- run_git_ls_files w path;
     ret (list_to_set
            (map (fun f => OsPath.normpath (OsPath.abspath (w_cwd w) (OsPath.join path f)))
                 stdout_lines)))
    [ClsSubprocessError; ClsFileNotFoundError]
    (fun _ => ret ∅).

End WithWorld.

Definition is_signature_file (file_path : string) : bool :=
  Str.endswith file_path ".py" ||
  Str.endswith_any (Str.lower file_path) [".md"; ".markdown"] ||
  Str.endswith_any (Str.lower file_path) [".js"; ".jsx"; ".ts"; ".tsx"] ||
  Str.endswith (Str.lower file_path) ".sql".

(** [os.walk(top)], top-down, with the default [onerror=None] (a listing
    that fails ends that branch silently) and [followlinks=False].  [body]
    is the body of the caller's [for root, dirnames, filenames in ...] loop:
    it returns the list it left in [dirnames], and only directories still
    named there are entered. *)
Section OsWalk.
Context {S : Type}.
Variable body : string -> list string -> list string -> S -> M (list string * S).

(** The descent into the sub-directories of [top] that [dirs] still
    names, given how one directory is walked. *)
Definition walk_dirs (walk : string -> node -> S -> M S) (top : string)
           (dirs : list string) : list node -> S -> M S :=
  fix go (cs : list node) (acc : S) : M S :=
    match cs with
    | [] => ret acc
    | c :: cs' =>
        if node_is_dir c && existsb (String.eqb (node_name c)) dirs then
          do acc' <- walk (OsPath.join top (node_name c)) c acc;
          go cs' acc'
        else go cs' acc
    end.

Fixpoint os_walk (top : string) (n : node) (acc : S) : M S :=
  do_ tell (EvScandir top);
  match n with
  | File _ => ret acc
  | Dir _ (Some _) _ => ret acc
  | Dir _ None children =>
      let dirs := map node_name (List.filter node_is_dir children) in
      let nondirs := map node_name (List.filter (fun c => negb (node_is_dir c)) children) in
      do r <- body top dirs nondirs acc;
      walk_dirs os_walk top (fst r) children (snd r)
  end.
End OsWalk.

Record scan_result := {
  all_files : list string;
  signature_candidates : list string;
  git_tracked : gset string
}.

Section Scan.
Context {F : Faults}.
Variable w : world.
Variable directory : string.
Variable spec : option PathSpec.
Variable git_only_signatures : bool.
Variable tracked : gset string.

(** Lines 157-162: the directories kept in [dirnames]. *)
Definition filter_dirs (root : string) (dirnames : list string) : M (list string) :=
  foldM (fun d filtered_dirs =>
           let dir_path := PathLib.Path_of (OsPath.join root d) in
           do excluded <- should_exclude w dir_path (PathLib.Path_of directory) spec;
           ret (if excluded then filtered_dirs else filtered_dirs ++ [d]))
        dirnames [].

Definition size_limit : Z := 10 * 1024 * 1024.

(** Lines 164-191: one turn of the loop over [filenames]; the pair is
    ([all_files], [signature_candidates]). *)
Definition scan_file (root filename : string) (acc : list string * list string)
  : M (list string * list string) :=
  let file_path := OsPath.join root filename in
  let abs_path := OsPath.abspath (w_cwd w) file_path in
  do excluded <- should_exclude w (PathLib.Path_of file_path) (PathLib.Path_of directory) spec;
  if excluded then ret acc else
  do binary <- is_binary_file w file_path;
  if binary then ret acc else
  do skip <- try_except
               (do size <- stat_size w file_path;
                if (size >? size_limit)%Z then
                  do_ print ("Warning: Skipping large file (" +:+ file_path
                             +:+ ") - size exceeds 10MB");
                  ret true
                else ret false)
               [ClsOSError]
               (fun _ => ret true);
  if skip then ret acc else
  let all_files := fst acc ++ [file_path] in
  if is_signature_file file_path
     && (negb git_only_signatures || bool_decide (abs_path ∈ tracked))
  then ret (all_files, snd acc ++ [file_path])
  else ret (all_files, snd acc).

(** The body of the [os.walk] loop. *)
Definition scan_body (root : string) (dirnames filenames : list string)
           (acc : list string * list string)
  : M (list string * (list string * list string)) :=
  do filtered_dirs <- filter_dirs root dirnames;
  do acc' <- foldM (scan_file root) filenames acc;
  ret (filtered_dirs, acc').

End Scan.

Definition scan_project_files {F : Faults} (w : world) (directory : string)
           (spec : option PathSpec) (git_only_signatures : bool) : M scan_result :=
  do repo <- is_git_repo w directory;
  do tracked <- (if repo then get_git_tracked_files w directory else ret ∅);
  do acc <- os_walk (scan_body w directory spec git_only_signatures tracked)
                    directory (w_tree w) ([], []);
  ret {| all_files := sorted (fst acc);
         signature_candidates := sorted (snd acc);
         git_tracked := tracked |}.

End Utils.

(* ===================================================================== *)
(** ** codecontextor/main.py: the tree renderer *)
(* ===================================================================== *)

Module Main.

Section WithWorld.
Context {F : Faults}.
Variable w : world.

Definition should_exclude (path base_path : Path) (spec : option PathSpec) : M bool :=
  match spec with
  | None => ret false
  | Some sp =>
      try_except
        (do rel_path <- PathLib.relative_to path base_path;
         let rel_path_str := PathLib.str rel_path in
         do d <- is_dir w path;
         let rel_path_str := if d then rel_path_str +:+ "/" else rel_path_str in
         match_file sp rel_path_str)
        [ClsValueError]
        (fun _ => ret false)
  end.

Definition format_name (path : Path) (is_last : bool) : M string :=
  let prefix := if is_last then "└── " else "├── " in
  do d <- is_dir w path;
  ret (prefix +:+ PathLib.name path +:+ (if d then "/" else "")).

(** The sort key [(not x.is_dir(), x.name.lower())] and the order of
    Python tuples on it. *)
Definition sort_key : Type := bool * string.

Definition key_le (k1 k2 : sort_key) : bool :=
  if Bool.eqb (fst k1) (fst k2) then String.leb (snd k1) (snd k2)
  else negb (fst k1).

(** An entry returned by [iterdir]: its path, and what rendering it
    recursively will do once a prefix is chosen. *)
Definition entry : Type := Path * (string -> M (list string)).

(** Lines 89-91: the entries that pass [should_exclude]. *)
Definition keep_items (path : Path) (spec : option PathSpec) (listed : list entry)
  : M (list entry) :=
  foldM (fun item items =>
           do excluded <- should_exclude (fst item) path spec;
           ret (if excluded then items else items ++ [item]))
        listed [].

(** Line 96: [list.sort] computes the key of every item once, in order,
    then sorts stably.  ([Str.lower] is [str.lower()] on ASCII names.) *)
Fixpoint with_keys (items : list entry) : M (list (sort_key * entry)) :=
  match items with
  | [] => ret []
  | x :: items' =>
      do d <- is_dir w (fst x);
      do rest <- with_keys items';
      ret ((negb d, Str.lower (PathLib.name (fst x)), x) :: rest)
  end.

Definition sort_items (items : list entry) : M (list entry) :=
  do keyed <- with_keys items;
  ret (map snd (sort_by (fun a b => key_le (fst a) (fst b)) keyed)).

(** Lines 99-110: the loop over [enumerate(items)]; [n_items] is
    [len(items)]. *)
Fixpoint render_items (prefix : string) (n_items index : nat) (items : list entry)
         (entries : list string) : M (list string) :=
  match items with
  | [] => ret entries
  | item :: items' =>
      let is_last := Nat.eqb index (n_items - 1) in
      do line <- format_name (fst item) is_last;
      let entries := entries ++ [prefix +:+ line] in
      do d <- is_dir w (fst item);
      do entries <-
        (if d then
           let extension := if is_last then "    " else "│   " in
           let new_prefix := prefix +:+ extension in
           do sub <- snd item new_prefix;
           ret (entries ++ sub)
         else ret entries);
      render_items prefix n_items (S index) items' entries
  end.

(** [generate_tree(path, spec, prefix)], where [n] is what the file system
    holds at [path].  The model has no symbolic links and is meant for
    paths that are already resolved (absolute, without [".."]), on which
    [resolve()] changes nothing; a statement about the root line assumes
    such a path.  Listing a
    non-directory raises [NotADirectoryError]; only [PermissionError] is
    caught, and the lines gathered so far are then returned (for a listing
    that succeeds the handler is never entered). *)
Fixpoint generate_tree (n : node) (path : Path) (spec : option PathSpec) (prefix : string)
  : M (list string) :=
  do e <- path_exists w path;
  if negb e then ret [] else
  let entries := if String.eqb prefix "" then [PathLib.str path] else [] in
  match n with
  | File _ =>
      try_except
        (do_ tell (EvScandir (PathLib.str path)); raise NotADirectoryError)
        [ClsPermissionError] (fun _ => ret entries)
  | Dir _ (Some err) _ =>
      try_except
        (do_ tell (EvScandir (PathLib.str path)); raise (exn_of_os_error err))
        [ClsPermissionError] (fun _ => ret entries)
  | Dir _ None children =>
      let listed : list entry :=
        map (fun c => let item := PathLib.child path (node_name c) in
                      (item, generate_tree c item spec)) children in
      do items <- try_except
                    (do_ tell (EvScandir (PathLib.str path)); keep_items path spec listed)
                    [ClsPermissionError] (fun _ => ret []);
      do items <- sort_items items;
      render_items prefix (length items) 0 items entries
  end.

End WithWorld.

End Main.

(* ===================================================================== *)
(** ** codecontextor/main.py: pattern files and file lists *)
(* ===================================================================== *)

Module Text.

(** [c.isspace()] on ASCII: tab, line feed, vertical tab, form feed,
    carriage return, the four separators 28-31, and space.  (Python also
    strips the white space beyond ASCII, such as U+00A0; on ASCII text
    [strip] below is [str.strip()].) *)
Definition is_space (c : ascii) : bool :=
  let n := nat_of_ascii c in
  ((9 <=? n)%nat && (n <=? 13)%nat) || ((28 <=? n)%nat && (n <=? 32)%nat).

(** [s.lstrip()] *)
Fixpoint lstrip (s : string) : string :=
  match s with
  | EmptyString => EmptyString
  | String c s' => if is_space c then lstrip s' else s
  end.

(** [s.rstrip()] *)
Fixpoint rstrip (s : string) : string :=
  match s with
  | EmptyString => EmptyString
  | String c s' =>
      match rstrip s' with
      | EmptyString => if is_space c then EmptyString else String c EmptyString
      | r => String c r
      end
  end.

(** [s.strip()] *)
Definition strip (s : string) : string := lstrip (rstrip s).

Definition LF : ascii := ascii_of_nat 10.
Definition CR : ascii := ascii_of_nat 13.

(** The lines that iterating over a file opened in text mode yields: with
    universal newlines, ["\r\n"] and a lone ["\r"] end a line as ["\n"]
    does; every line keeps its ["\n"], except a last line that has none. *)
Fixpoint lines (s : string) : list string :=
  match s with
  | EmptyString => []
  | String c s' =>
      if Ascii.eqb c LF then String LF EmptyString :: lines s'
      else if Ascii.eqb c CR then
        match s' with
        | String d s'' =>
            if Ascii.eqb d LF then String LF EmptyString :: lines s''
            else String LF EmptyString :: lines s'
        | EmptyString => [String LF EmptyString]
        end
      else match lines s' with
           | l :: ls => String c l :: ls
           | [] => [String c EmptyString]
           end
  end.

(** What [read()] returns for a file opened in text mode: with universal
    newlines, ["\r\n"] and a lone ["\r"] are read as ["\n"]. *)
Fixpoint universal_newlines (s : string) : string :=
  match s with
  | EmptyString => EmptyString
  | String c s' =>
      if Ascii.eqb c CR then
        match s' with
        | String d s'' =>
            if Ascii.eqb d LF then String LF (universal_newlines s'')
            else String LF (universal_newlines s')
        | EmptyString => String LF EmptyString
        end
      else String c (universal_newlines s')
  end.

(** One pattern or path per line, each line ended by ["\n"]. *)
Fixpoint unlines (ls : list string) : string :=
  match ls with
  | [] => EmptyString
  | l :: ls' => l +:+ String LF (unlines ls')
  end.

End Text.

(** [try: m  except Exception as e: handler e]: every exception of the
    model is an [Exception]. *)
Definition try_except_Exception {A} (m : M A) (handler : exn -> M A) : M A :=
  match m with
  | (Ok a, t) => (Ok a, t)
  | (Raise e, t) => let '(r, t') := handler e in (r, t ++ t')
  end.

Module MainFiles.

Section WithWorld.
Context {F : Faults}.
Variable w : world.
Variable str_of_exn : exn -> string.   (* [str(e)] *)

(** [with open(path, 'r') as f: list(f)]: the file is read as text. *)
Definition open_text_lines (path : string) : M (list string) :=
  do_ tell (EvOpen path);
  match w_open_rb w path with
  | inl e => raise (exn_of_os_error e)
  | inr content => do text <- decode content; ret (Text.lines text)
  end.

Definition parse_patterns_file (patterns_file_path : string) : M (list string) :=
  do e <- os_path_exists w (PathLib.Path_of patterns_file_path);
  if negb e then ret [] else
  do lines <- open_text_lines patterns_file_path;
  ret (map Text.strip
           (List.filter (fun line => negb (String.eqb (Text.strip line) "")
                                     && negb (Str.startswith (Text.strip line) "#"))
                        lines)).

Definition read_files_from_txt (file_path : string) : M (list string) :=
  try_except_Exception
    (do lines <- open_text_lines file_path;
     ret (map Text.strip
              (List.filter (fun line => negb (String.eqb (Text.strip line) "")) lines)))
    (fun e => do_ print ("Error reading file list: " +:+ str_of_exn e); ret []).

End WithWorld.

End MainFiles.

(* ===================================================================== *)
(** ** codecontextor/main.py: merging into the context file *)
(* ===================================================================== *)

(** Code that also writes the output file: its calls are those of [M],
    plus opening the output file and writing text to it.  What the output
    file holds in the end is every text written, in order, also when an
    exception ends the writing early. *)
Inductive io_event :=
| Sys (ev : event)
| OpenForWriting (path : string)    (* open(path, 'w', encoding='utf-8') *)
| Write (text : string).            (* outfile.write(text) *)

Definition MO (A : Type) : Type := outcome A * list io_event.

Definition retO {A} (a : A) : MO A := (Ok a, []).
Definition raiseO {A} (e : exn) : MO A := (Raise e, []).
Definition tellO (ev : io_event) : MO unit := (Ok tt, [ev]).
Definition liftO {A} (m : M A) : MO A := (fst m, map Sys (snd m)).

Definition bindO {A B} (m : MO A) (k : A -> MO B) : MO B :=
  match m with
  | (Ok a, t) => let '(r, t') := k a in (r, t ++ t')
  | (Raise e, t) => (Raise e, t)
  end.

(** [try: m  except Exception as e: handler e] *)
Definition try_except_ExceptionO {A} (m : MO A) (handler : exn -> MO A) : MO A :=
  match m with
  | (Ok a, t) => (Ok a, t)
  | (Raise e, t) => let '(r, t') := handler e in (r, t ++ t')
  end.

Notation "'doo' x <- m ; k" := (bindO m (fun x => k))
  (at level 10, x name, m at level 100, k at level 200) : monad_scope.
Notation "'doo_' m ; k" := (bindO m (fun _ => k))
  (at level 10, m at level 100, k at level 200) : monad_scope.

(** [for x in l: body x] *)
Fixpoint forO {A} (body : A -> MO unit) (l : list A) : MO unit :=
  match l with
  | [] => retO tt
  | x :: l' => doo_ body x; forO body l'
  end.

(** The text the output file holds after a run. *)
Fixpoint written (t : list io_event) : string :=
  match t with
  | [] => EmptyString
  | Write text :: t' => text +:+ written t'
  | _ :: t' => written t'
  end.

(** What [merge_files] needs beyond the world of the scan. *)
Record host := {
  h_world : world;
  h_now : string;                            (* datetime.now().strftime('%Y-%m-%d %H:%M:%S') *)
  h_open_w : string -> option os_error;      (* why the output file cannot be opened, if so *)
  h_getsize : string -> os_error + Z;        (* os.path.getsize *)
  h_mtime : string -> os_error + string;     (* the formatted os.path.getmtime *)
  h_compile : list string -> exn + PathSpec; (* pathspec.PathSpec.from_lines('gitwildmatch', .) *)
  h_str : exn -> string                      (* str(e) *)
}.

Module MainMerge.

Definition nl : string := String Text.LF EmptyString.

(** [str(n)] for a non-negative integer. *)
Definition str_of_Z (n : Z) : string :=
  DecimalString.NilZero.string_of_uint (N.to_uint (Z.to_N n)).

(** ['=' * n] *)
Fixpoint rule (n : nat) : string :=
  match n with
  | O => EmptyString
  | S n' => String "="%char (rule n')
  end.

Section WithHost.
Context {F : Faults}.
Variable h : host.
Let w := h_world h.

Definition write_conversation_header (project_path : string) : MO unit :=
  tellO (Write
    ("# Project Context File" +:+ nl +:+
     "Generated on: " +:+ h_now h +:+ nl +:+
     "Project Path: " +:+ project_path +:+ nl +:+
     nl +:+
     "## How to Use This File" +:+ nl +:+
     "1. The tree structure below shows ALL available files in the project" +:+ nl +:+
     "2. Some key files are included in full after the tree" +:+ nl +:+
     "3. During conversation, you can request the contents of any file shown in the tree"
       +:+ nl +:+
     nl +:+
     "## Available Files" +:+ nl)).

Definition add_file_header (file_path : string) : MO string :=
  doo_ tellO (Sys (EvStat file_path));
  match h_getsize h file_path with
  | inl e => raiseO (exn_of_os_error e)
  | inr size =>
      doo_ tellO (Sys (EvStat file_path));
      match h_mtime h file_path with
      | inl e => raiseO (exn_of_os_error e)
      | inr modified =>
          retO (nl +:+ rule 80 +:+ nl +:+
                "File: " +:+ file_path +:+ nl +:+
                "Size: " +:+ str_of_Z size +:+ " bytes" +:+ nl +:+
                "Last modified: " +:+ modified +:+ nl +:+
                rule 80 +:+ nl +:+ nl)
      end
  end.

(** [with open(file_path, 'r', encoding='utf-8') as infile: infile.read()] *)
Definition read_text (file_path : string) : MO string :=
  doo_ tellO (Sys (EvOpen file_path));
  match w_open_rb w file_path with
  | inl e => raiseO (exn_of_os_error e)
  | inr content =>
      doo text <- liftO (decode content);
      retO (Text.universal_newlines text)
  end.

(** Lines 158-173: one turn of the loop over [file_paths]. *)
Definition merge_one (file_path : string) : MO unit :=
  if Str.startswith (Text.strip file_path) "#" then retO tt else
  doo e <- liftO (os_path_exists w (PathLib.Path_of file_path));
  if negb e then
    liftO (print ("Warning: File not found - " +:+ file_path))
  else
    doo header <- add_file_header file_path;
    doo_ tellO (Write header);
    try_except_ExceptionO
      (doo text <- read_text file_path;
       doo_ tellO (Write text);
       tellO (Write (nl +:+ nl)))
      (fun e => liftO (print ("Error reading file " +:+ file_path +:+ ": " +:+ h_str h e))).

Definition separator : string :=
  nl +:+ "## Included File Contents" +:+ nl +:+
  "The following files are included in full:" +:+ nl +:+ nl.

(** [merge_files(file_paths, output_file, directory, use_gitignore,
    exclude_file)]; [None] and the empty string both count as absent.  The
    tree is rendered for the absolute path of the directory, and [w_tree] is
    what the file system holds there. *)
Definition merge_files (file_paths : list string) (output_file : string)
           (directory : option string) (use_gitignore : bool)
           (exclude_file : option string) : MO unit :=
  try_except_ExceptionO
    (let directory := match directory with
                      | Some d => if String.eqb d "" then w_cwd w else d
                      | None => w_cwd w
                      end in
     doo gitignore_patterns <-
       (if use_gitignore
        then liftO (MainFiles.parse_patterns_file w (OsPath.join directory ".gitignore"))
        else retO []);
     doo exclude_patterns <-
       (match exclude_file with
        | Some f => if String.eqb f "" then retO []
                    else liftO (MainFiles.parse_patterns_file w f)
        | None => retO []
        end);
     let patterns := gitignore_patterns ++ exclude_patterns in
     doo spec <-
       (match patterns with
        | [] => retO None
        | _ => match h_compile h patterns with
               | inl e => raiseO e
               | inr sp => retO (Some sp)
               end
        end);
     doo_ tellO (OpenForWriting output_file);
     doo_ (match h_open_w h output_file with
           | Some e => raiseO (exn_of_os_error e)
           | None => retO tt
           end);
     doo_ write_conversation_header directory;
     doo tree <- liftO (Main.generate_tree w (w_tree w)
                          (PathLib.Path_of (OsPath.abspath (w_cwd w) directory)) spec "");
     doo_ tellO (Write (nl +:+ Str.join nl tree +:+ nl +:+ nl));
     doo_ tellO (Write separator);
     doo_ forO merge_one file_paths;
     liftO (print ("Successfully created context file: " +:+ output_file)))
    (fun e => liftO (print ("Error creating context file: " +:+ h_str h e))).

End WithHost.

End MainMerge.

(* ===================================================================== *)
(** ** contextor/signatures/javascript.py *)
(* ===================================================================== *)

Module JavaScript.

(** *** The class body of [extract_classes] *)

(** Lines 119-129: the search for the brace that closes a class, over the
    characters [content[i]] for [i] in
    [range(start_pos, min(start_pos + 10000, len(content)))]; [None] when
    the loop ends without [break]. *)
Fixpoint find_closing_brace (window : list ascii) (i : Z) (brace_count : Z) : option Z :=
  match window with
  | [] => None
  | c :: window' =>
      if Ascii.eqb c "{"%char then find_closing_brace window' (i + 1)%Z (brace_count + 1)%Z
      else if Ascii.eqb c "}"%char then
        let brace_count := (brace_count - 1)%Z in
        if (brace_count =? 0)%Z then Some i
        else find_closing_brace window' (i + 1)%Z brace_count
      else find_closing_brace window' (i + 1)%Z brace_count
  end.

Definition search_limit : Z := 10000.

(** [content[a:b]] for [0 <= a] and [0 <= b] *)
Definition slice (content : string) (a b : Z) : string :=
  string_of_list_ascii
    (take (Z.to_nat (b - a)) (drop (Z.to_nat a) (list_ascii_of_string content))).

Definition class_end_pos (content : string) (start_pos : Z) : Z :=
  let window := take (Z.to_nat search_limit)
                     (drop (Z.to_nat start_pos) (list_ascii_of_string content)) in
  match find_closing_brace window start_pos 1 with
  | Some i => i
  | None => start_pos
  end.

(** Line 132: [content[start_pos:end_pos]] *)
Definition class_body (content : string) (start_pos : Z) : string :=
  slice content start_pos (class_end_pos content start_pos).

(** Line 133: [len(class_body) > 50000], on which the class is skipped. *)
Definition class_is_skipped (content : string) (start_pos : Z) : bool :=
  (Z.of_nat (String.length (class_body content start_pos)) >? 50000)%Z.

(** *** The signatures of a file *)

(** The dictionaries that the extractors build, with the keys they give
    them. *)
Record named_sig := { ns_name : string; ns_signature : string }.

Record function_sig := { fn_name : string; fn_signature : string; fn_type : string }.

Record class_sig := {
  cls_name : string;
  cls_signature : string;
  cls_extends : option string;
  cls_methods : list named_sig;
  cls_is_react_component : bool
}.

(** The dictionary that [get_js_signatures] returns: each key is present
    with a value, or absent. *)
Record signatures := {
  sg_imports : option (list string);
  sg_exports : option (list string);
  sg_functions : option (list function_sig);
  sg_classes : option (list class_sig);
  sg_react_components : option (list named_sig);
  sg_file_type : option string;
  sg_has_jsx : option bool;
  sg_interfaces : option (list named_sig);
  sg_note : option string;
  sg_error : option string
}.

(** [result["imports"] = imports; result["exports"] = exports] *)
Definition set_imports_exports (r : signatures) (imports exports : list string) : signatures :=
  {| sg_imports := Some imports; sg_exports := Some exports;
     sg_functions := sg_functions r; sg_classes := sg_classes r;
     sg_react_components := sg_react_components r; sg_file_type := sg_file_type r;
     sg_has_jsx := sg_has_jsx r; sg_interfaces := sg_interfaces r;
     sg_note := sg_note r; sg_error := sg_error r |}.

Definition set_functions (r : signatures) (functions : list function_sig) : signatures :=
  {| sg_imports := sg_imports r; sg_exports := sg_exports r;
     sg_functions := Some functions; sg_classes := sg_classes r;
     sg_react_components := sg_react_components r; sg_file_type := sg_file_type r;
     sg_has_jsx := sg_has_jsx r; sg_interfaces := sg_interfaces r;
     sg_note := sg_note r; sg_error := sg_error r |}.

Definition set_classes (r : signatures) (classes : list class_sig) : signatures :=
  {| sg_imports := sg_imports r; sg_exports := sg_exports r;
     sg_functions := sg_functions r; sg_classes := Some classes;
     sg_react_components := sg_react_components r; sg_file_type := sg_file_type r;
     sg_has_jsx := sg_has_jsx r; sg_interfaces := sg_interfaces r;
     sg_note := sg_note r; sg_error := sg_error r |}.

Definition set_react_components (r : signatures) (components : list named_sig) : signatures :=
  {| sg_imports := sg_imports r; sg_exports := sg_exports r;
     sg_functions := sg_functions r; sg_classes := sg_classes r;
     sg_react_components := Some components; sg_file_type := sg_file_type r;
     sg_has_jsx := sg_has_jsx r; sg_interfaces := sg_interfaces r;
     sg_note := sg_note r; sg_error := sg_error r |}.

Definition set_interfaces (r : signatures) (interfaces : list named_sig) : signatures :=
  {| sg_imports := sg_imports r; sg_exports := sg_exports r;
     sg_functions := sg_functions r; sg_classes := sg_classes r;
     sg_react_components := sg_react_components r; sg_file_type := sg_file_type r;
     sg_has_jsx := sg_has_jsx r; sg_interfaces := Some interfaces;
     sg_note := sg_note r; sg_error := sg_error r |}.

Definition set_error (r : signatures) (message : string) : signatures :=
  {| sg_imports := sg_imports r; sg_exports := sg_exports r;
     sg_functions := sg_functions r; sg_classes := sg_classes r;
     sg_react_components := sg_react_components r; sg_file_type := sg_file_type r;
     sg_has_jsx := sg_has_jsx r; sg_interfaces := sg_interfaces r;
     sg_note := sg_note r; sg_error := Some message |}.

(** [{"error": message}] *)
Definition only_error (message : string) : signatures :=
  {| sg_imports := None; sg_exports := None; sg_functions := None; sg_classes := None;
     sg_react_components := None; sg_file_type := None; sg_has_jsx := None;
     sg_interfaces := None; sg_note := None; sg_error := Some message |}.

(** The dictionary that extraction starts from. *)
Definition initial_result (file_type : string) (has_jsx : bool) : signatures :=
  {| sg_imports := Some []; sg_exports := Some []; sg_functions := Some [];
     sg_classes := Some []; sg_react_components := Some [];
     sg_file_type := Some file_type; sg_has_jsx := Some has_jsx;
     sg_interfaces := None; sg_note := None; sg_error := None |}.

(** The dictionary returned for a file of more than 200000 characters. *)
Definition large_file_result : signatures :=
  {| sg_imports := Some []; sg_exports := Some []; sg_functions := Some [];
     sg_classes := Some []; sg_react_components := Some [];
     sg_file_type := Some "Large File"; sg_has_jsx := Some false;
     sg_interfaces := None;
     sg_note := Some "File too large for detailed signature extraction";
     sg_error := None |}.

(** [signatures[key]] raises [KeyError(key)] when the key is absent. *)
Inductive key_error := KeyError (key : string).

Definition nl : string := String Text.LF EmptyString.

Definition class_lines (cls : class_sig) : list string :=
  [ "// " +:+ cls_name cls +:+
      (if cls_is_react_component cls then " React Component" else "");
    cls_signature cls ] ++
  map (fun method => "  " +:+ ns_signature method) (cls_methods cls) ++
  [ "}"; "" ].

(** [format_js_signatures(signatures)]; the keys are looked up in the
    order of the source, so that the first absent one is the one
    reported. *)
Definition format_js_signatures (s : signatures) : key_error + string :=
  match sg_file_type s with None => inl (KeyError "file_type") | Some file_type =>
  match sg_has_jsx s with None => inl (KeyError "has_jsx") | Some has_jsx =>
  match sg_imports s with None => inl (KeyError "imports") | Some imports =>
  match sg_exports s with None => inl (KeyError "exports") | Some exports =>
  match sg_functions s with None => inl (KeyError "functions") | Some functions =>
  match sg_classes s with None => inl (KeyError "classes") | Some classes =>
    inr (Str.join nl
      ([ "# " +:+ file_type +:+ (if has_jsx then " with JSX" else "") +:+ " File"; "" ] ++
       match imports with
       | [] => []
       | _ => ["## Imports"] ++ imports ++ [""]
       end ++
       match exports with
       | [] => []
       | _ => ["## Exports"] ++ exports ++ [""]
       end ++
       match functions with
       | [] => []
       | _ => ["## Functions"] ++ map fn_signature functions ++ [""]
       end ++
       match sg_react_components s with
       | None | Some [] => []
       | Some components =>
           ["## React Components"] ++
           concat (map (fun comp => [ "// " +:+ ns_name comp +:+ " Component";
                                      ns_signature comp; "" ]) components)
       end ++
       match classes with
       | [] => []
       | _ => ["## Classes"] ++ concat (map class_lines classes)
       end ++
       match sg_interfaces s with
       | None | Some [] => []
       | Some interfaces =>
           ["## TypeScript Interfaces"] ++
           concat (map (fun interface => [ ns_signature interface; "" ]) interfaces)
       end))
  end end end end end end.

(** What the regular expressions of the module find in a text.  Each search
    runs under [safe_regex_finditer], which can print a warning and, where
    signals cannot be set, raise. *)
Record regex_matches := {
  extract_imports_exports : string -> M (list string * list string);
  extract_functions : string -> M (list function_sig);
  extract_classes : string -> M (list class_sig);
  match_react_components : string -> M (list named_sig);
  match_typescript_interfaces : string -> M (list named_sig)
}.

Section WithWorld.
Context {F : Faults}.
Variable w : world.
Variable rx : regex_matches.
Variable str_of_exn : exn -> string.   (* [str(e)] *)

Definition len (content : string) : Z := Z.of_nat (String.length content).

Definition extract_react_functional_components (content : string) : M (list named_sig) :=
  if (len content >? 100000)%Z then ret []
  else match_react_components rx content.

Definition extract_typescript_interfaces (content : string) : M (list named_sig) :=
  if (len content >? 100000)%Z then
    do_ print "Warning: File too large for interface extraction, skipping";
    ret []
  else match_typescript_interfaces rx content.

(** [with open(file_path, 'r', encoding='utf-8') as f: f.read()] *)
Definition read_text (file_path : string) : M string :=
  do_ tell (EvOpen file_path);
  match w_open_rb w file_path with
  | inl e => raise (exn_of_os_error e)
  | inr content => do text <- decode content; ret (Text.universal_newlines text)
  end.

(** Lines 322-334: the statements of the [try] block, each taking the
    dictionary as the statements before it left it. *)
Definition extraction_steps (content : string) (is_typescript has_jsx : bool)
  : list (signatures -> M signatures) :=
  [ (fun r => do imports_exports <- extract_imports_exports rx content;
              ret (set_imports_exports r (fst imports_exports) (snd imports_exports)));
    (fun r => do functions <- extract_functions rx content;
              ret (set_functions r functions));
    (fun r => do classes <- extract_classes rx content;
              ret (set_classes r classes));
    (fun r => if has_jsx then
                do components <- extract_react_functional_components content;
                ret (set_react_components r components)
              else ret r);
    (fun r => if is_typescript then
                do interfaces <- extract_typescript_interfaces content;
                ret (set_interfaces r interfaces)
              else ret r) ].

(** [try: steps  except Exception as e: handler]: when a statement
    raises, the dictionary holds what the statements before it stored. *)
Fixpoint run_steps (steps : list (signatures -> M signatures)) (r : signatures)
         (handler : exn -> signatures -> M signatures) : M signatures :=
  match steps with
  | [] => ret r
  | step :: steps' =>
      match step r with
      | (Ok r', t) => let '(res, t') := run_steps steps' r' handler in (res, t ++ t')
      | (Raise e, t) => let '(res, t') := handler e r in (res, t ++ t')
      end
  end.

Definition get_js_signatures (file_path : string) : M signatures :=
  do read <- try_except_Exception
               (do content <- read_text file_path; ret (inr content))
               (fun e => ret (inl e));
  match read with
  | inl e => ret (only_error ("Could not read file: " +:+ str_of_exn e))
  | inr content =>
      if (len content >? 200000)%Z then ret large_file_result
      else
        let is_typescript := Str.endswith_any (Str.lower file_path) [".ts"; ".tsx"] in
        let has_jsx :=
          Str.endswith_any (Str.lower file_path) [".jsx"; ".tsx"]
          || (Str.contains "<"%char content && Str.contains ">"%char content) in
        run_steps (extraction_steps content is_typescript has_jsx)
          (initial_result (if is_typescript then "TypeScript" else "JavaScript") has_jsx)
          (fun e r =>
             do_ print ("Warning: Error extracting signatures from " +:+ file_path +:+
                        ": " +:+ str_of_exn e);
             ret (set_error r (str_of_exn e)))
  end.

(** [process_js_file(file_path)]: a [KeyError] of the formatting is caught
    like any other exception, and [str(KeyError(key))] is the key in
    quotes. *)
Definition process_js_file (file_path : string) : M string :=
  try_except_Exception
    (do signatures <- get_js_signatures file_path;
     match format_js_signatures signatures with
     | inr text => ret text
     | inl (KeyError key) =>
         ret ("Error processing JavaScript/TypeScript file: " +:+ "'" +:+ key +:+ "'")
     end)
    (fun e => ret ("Error processing JavaScript/TypeScript file: " +:+ str_of_exn e)).

End WithWorld.

End JavaScript.

(** The runtime in which nothing of this goes wrong: [stat] answers for
    every path, git gives an outcome, every file is text. *)
#[global] Instance no_faults : Faults := {|
  stat_error := fun _ => None;
  git_error := fun _ => None;
  undecodable := fun _ => false
|}.

(* ===================================================================== *)
(** ** Vocabulary of the statements, and a sample world *)
(* ===================================================================== *)

(** The extensions that [is_signature_file] compares after lower-casing. *)
Definition caseless_signature_extensions : list string :=
  [".md"; ".markdown"; ".js"; ".jsx"; ".ts"; ".tsx"; ".sql"].

(** A small project: two sources, a picture, an oversized log, a file that
    cannot be opened, a nested and a top-level [build] directory, and a
    directory that cannot be listed.  Git is installed and tracks two files. *)
Definition sample_children : list node :=
  [ File "README.md"; File "main.py"; File "logo.png"; File "big.log"; File "A.PY";
    Dir "src" None [ File "app.py"; Dir "build" None [ File "x.js" ] ];
    Dir "build" None [ Dir "dist" None [ File "output.js" ] ];
    Dir "locked" (Some EACCES) [ File "secret.py" ] ].

Definition sample_tree : node := Dir "proj" None sample_children.

Definition sample_world : world := {|
  w_tree := sample_tree;
  w_is_dir := fun p =>
    existsb (String.eqb (PathLib.name p)) ["proj"; "src"; "build"; "dist"; "locked"; ".git"];
  w_exists := fun _ => true;
  w_open_rb := fun file_path =>
    if Str.endswith file_path "main.py" then inl EACCES
    else inr [Byte.x23; Byte.x20; Byte.x68; Byte.x69];
  w_stat_size := fun file_path =>
    if Str.endswith file_path "big.log" then inr 99999999%Z else inr 4%Z;
  w_git := fun _ => GitRan 0 ["README.md"; "src/app.py"];
  w_cwd := "/home/dev"
|}.

(** The relative path string that [should_exclude] matches patterns
    against: a directory gets a trailing ["/"]. *)
Definition rel_path_str (w : world) (path rel_path : Path) : string :=
  if w_is_dir w path then PathLib.str rel_path +:+ "/" else PathLib.str rel_path.

(** The user-pattern matcher was consulted during a run. *)
Definition consults_spec (t : list event) : Prop :=
  exists rel, In (EvMatchFile rel) t.

(** The segments of a relative path that name directories on the way to
    it: every segment that is followed by a ["/"]. *)
Definition directory_segments (rel : string) : list string :=
  removelast (Str.split slash rel).

(** The directory-pattern rule in the words of the specification: the path
    equals the pattern, starts with it, or one of its directory segments is
    the directory the pattern names. *)
Definition spec_dir_pattern_matches (pattern rel : string) : Prop :=
  rel = pattern \/ Str.startswith rel pattern = true \/
  exists seg, In seg (directory_segments rel) /\ seg +:+ "/" = pattern.

(** A name that a directory listing can return: not empty, not ["."], and
    without ["/"]. *)
Definition valid_name (name : string) : bool :=
  negb (String.eqb name "") && negb (String.eqb name ".") &&
  negb (Str.contains slash name).

(** Every entry below [n] has a name that satisfies [ok]. *)
Fixpoint names_ok (ok : string -> bool) (n : node) : bool :=
  match n with
  | File _ => true
  | Dir _ _ children => forallb (fun c => ok (node_name c) && names_ok ok c) children
  end.

Definition well_named (n : node) : bool := names_ok valid_name n.

(** The path that a call reaches in the file system, if it reaches one. *)
Definition touches (ev : event) : option Path :=
  match ev with
  | EvIsDir p | EvExists p => Some p
  | EvScandir top => Some (PathLib.Path_of top)
  | EvOpen file_path | EvRead file_path _ | EvStat file_path =>
      Some (PathLib.Path_of file_path)
  | EvMatchFile _ | EvGitLsFiles _ | EvPrint _ => None
  end.

(** The signature-candidate condition of the scan, on an admitted file. *)
Definition candidate_condition (w : world) (git_only_signatures : bool)
           (tracked : gset string) (file_path : string) : bool :=
  Utils.is_signature_file file_path &&
  (negb git_only_signatures || bool_decide (OsPath.abspath (w_cwd w) file_path ∈ tracked)).


(** The git query fails: no executable, or a non-zero exit status (which is
    also what git answers outside a repository). *)
Definition git_query_fails (w : world) (path : string) : Prop :=
  match w_git w path with
  | GitNotInstalled => True
  | GitRan returncode _ => returncode <> 0%Z
  end.

(** A world in which the project directory does not exist. *)
Definition missing_root_world : world := {|
  w_tree := Dir "proj" (Some ENOENT) [];
  w_is_dir := fun _ => false;
  w_exists := fun _ => false;
  w_open_rb := fun _ => inl ENOENT;
  w_stat_size := fun _ => inl ENOENT;
  w_git := fun _ => GitRan 128 [];
  w_cwd := "/home/dev"
|}.

(** The sample project on a machine without git. *)
Definition sample_world_without_git : world := {|
  w_tree := w_tree sample_world;
  w_is_dir := w_is_dir sample_world;
  w_exists := w_exists sample_world;
  w_open_rb := w_open_rb sample_world;
  w_stat_size := w_stat_size sample_world;
  w_git := fun _ => GitNotInstalled;
  w_cwd := w_cwd sample_world
|}.


(** The verdict of the renderer's [should_exclude] on a child of [path]. *)
Definition tree_excluded (w : world) (path : Path) (spec : option PathSpec)
           (item : Path) : bool :=
  match result (Main.should_exclude w item path spec) with
  | Ok b => b
  | Raise _ => false
  end.

(** The key the renderer sorts by: directories first, then the lower-cased
    name. *)
Definition tree_sort_key (w : world) (item : Path) : Main.sort_key :=
  (negb (w_is_dir w item), Str.lower (PathLib.name item)).






(** A computation that returns: no exception escapes it. *)
Definition returns {A} (m : M A) : Prop := exists a, result m = Ok a.

(** [sat EvP Q m]: every call [m] makes satisfies [EvP], and if [m] returns
    a value, the value satisfies [Q]. *)
Definition sat {A} (EvP : event -> Prop) (Q : A -> Prop) (m : M A) : Prop :=
  Forall EvP (trace m) /\ forall a, result m = Ok a -> Q a.

(** The accumulator of the scan: admitted files satisfy [FileP], and the
    candidates are the admitted files that meet the candidate condition, in
    order. *)
Definition scan_acc_ok (w : world) (git_only_signatures : bool) (tracked : gset string)
           (FileP : string -> Prop) (acc : list string * list string) : Prop :=
  Forall FileP (fst acc) /\
  snd acc = List.filter (candidate_condition w git_only_signatures tracked) (fst acc).


(** The default patterns that name a directory. *)
Definition default_directories : list string :=
  List.filter (fun pattern => Str.endswith pattern "/") Utils.DEFAULT_EXCLUSIONS.

(** [s[:-1]] *)
Fixpoint drop_last (s : string) : string :=
  match s with
  | EmptyString => EmptyString
  | String c EmptyString => EmptyString
  | String c s' => String c (drop_last s')
  end.

(** [s.count(c)] for a one-character [c]. *)
Fixpoint count_char (c : ascii) (s : string) : nat :=
  match s with
  | EmptyString => 0
  | String d s' => (if Ascii.eqb d c then 1 else 0) + count_char c s'
  end.

(** The verdict of [should_exclude] on an entry of the scan. *)
Definition scan_excluded (w : world) (directory : string) (spec : option PathSpec)
           (entry_path : string) : bool :=
  match result (Utils.should_exclude w (PathLib.Path_of entry_path)
                                     (PathLib.Path_of directory) spec) with
  | Ok b => b
  | Raise _ => false
  end.

(** The three tests a file passes to become visible: it is not excluded,
    it is not binary, and its size is known and within the limit. *)
Definition admits (w : world) (directory : string) (spec : option PathSpec)
           (file_path : string) : bool :=
  negb (scan_excluded w directory spec file_path) &&
  match result (Utils.is_binary_file w file_path) with
  | Ok binary => negb binary
  | Raise _ => false
  end &&
  match w_stat_size w file_path with
  | inr size => negb (size >? Utils.size_limit)%Z
  | inl _ => false
  end.

(** What one turn of the loop over [filenames] leaves in the accumulator. *)
Definition admit_file (w : world) (directory : string) (spec : option PathSpec)
           (git_only_signatures : bool) (tracked : gset string) (root : string)
           (acc : list string * list string) (filename : string)
  : list string * list string :=
  let file_path := OsPath.join root filename in
  if admits w directory spec file_path then
    (fst acc ++ [file_path],
     if candidate_condition w git_only_signatures tracked file_path
     then snd acc ++ [file_path] else snd acc)
  else acc.

(** [walk_reaches w directory spec top n top' n']: a walk that lists the
    directory [n] under the name [top] goes on to list [n'] under the name
    [top'], through listable directories that are not excluded. *)
Inductive walk_reaches (w : world) (directory : string) (spec : option PathSpec)
  : string -> node -> string -> node -> Prop :=
| reaches_here (top : string) (n : node) :
    walk_reaches w directory spec top n top n
| reaches_below (top name : string) (children : list node) (c : node)
                (top' : string) (n' : node) :
    In c children ->
    node_is_dir c = true ->
    scan_excluded w directory spec (OsPath.join top (node_name c)) = false ->
    walk_reaches w directory spec (OsPath.join top (node_name c)) c top' n' ->
    walk_reaches w directory spec top (Dir name None children) top' n'.

(** A call that runs git. *)
Definition is_git_event (ev : event) : bool :=
  match ev with
  | EvGitLsFiles _ => true
  | _ => false
  end.

(** A pattern as [parse_patterns_file] would return it, on a line of its
    own: not empty, without surrounding white space, not a comment, and
    without a line break inside. *)
Definition clean_pattern (p : string) : bool :=
  negb (String.eqb p "") && String.eqb (Text.strip p) p &&
  negb (Str.startswith p "#") &&
  negb (Str.contains Text.LF p) && negb (Str.contains Text.CR p).

(** A world where every path exists and every file reads as a small
    ignore file: a comment, a pattern with white space around it and a
    Windows line end, and a last pattern without line end. *)
Definition ignore_file_text : string :=
  "# build output" +:+ String Text.LF
    ("  dist/  " +:+ String Text.CR (String Text.LF "*.log")).

Definition ignore_file_world : world := {|
  w_tree := sample_tree;
  w_is_dir := fun _ => false;
  w_exists := fun _ => true;
  w_open_rb := fun _ => inr (list_byte_of_string ignore_file_text);
  w_stat_size := fun _ => inl ENOENT;
  w_git := fun _ => GitNotInstalled;
  w_cwd := "/"
|}.

(** A world where the file holds exactly two clean patterns, one per line. *)
Definition two_patterns_world : world := {|
  w_tree := sample_tree;
  w_is_dir := fun _ => false;
  w_exists := fun _ => true;
  w_open_rb := fun _ => inr (list_byte_of_string (Text.unlines ["dist/"; "*.log"]));
  w_stat_size := fun _ => inl ENOENT;
  w_git := fun _ => GitNotInstalled;
  w_cwd := "/"
|}.

(** A path all of whose components could be names of directory entries. *)
Definition well_formed_path (p : Path) : bool := forallb valid_name (parts p).

(** A call that stays at [p] or below it. *)
Definition within (p : Path) (ev : event) : Prop :=
  forall q, touches ev = Some q -> PathLib.is_relative_to q p = true.

Definition resultO {A} (m : MO A) : outcome A := fst m.
Definition traceO {A} (m : MO A) : list io_event := snd m.

(** An entry of the file list that is commented out. *)
Definition is_comment_entry (file_path : string) : bool :=
  Str.startswith (Text.strip file_path) "#".

(** The directory [merge_files] works on: the one it is given, else the
    working directory. *)
Definition effective_directory (h : host) (directory : option string) : string :=
  match directory with
  | Some d => if String.eqb d "" then w_cwd (h_world h) else d
  | None => w_cwd (h_world h)
  end.

(** The two messages [merge_files] ends with. *)
Definition success_message (output_file : string) : string :=
  "Successfully created context file: " +:+ output_file.

Definition failure_message (h : host) (e : exn) : string :=
  "Error creating context file: " +:+ h_str h e.

(** A call that asks for names and kinds only: it opens nothing, reads
    nothing, runs nothing and prints nothing. *)
Definition is_lookup (ev : event) : bool :=
  match ev with
  | EvIsDir _ | EvExists _ | EvMatchFile _ | EvScandir _ => true
  | _ => false
  end.

(** Every call of [m] satisfies [P]. *)
Definition allO {A} (P : io_event -> Prop) (m : MO A) : Prop := Forall P (traceO m).

(** The files [merge_files] may take in hand: only the output file is
    opened for writing, and only the pattern files and the listed files that
    exist and are not commented out are opened for reading. *)
Definition merge_may_open (h : host) (file_paths : list string) (output_file : string)
           (directory : option string) (use_gitignore : bool)
           (exclude_file : option string) (ev : io_event) : Prop :=
  match ev with
  | OpenForWriting p => p = output_file
  | Sys (EvOpen f) =>
      (use_gitignore = true /\
       f = OsPath.join (effective_directory h directory) ".gitignore") \/
      (exclude_file = Some f /\ f <> "") \/
      (In f file_paths /\ is_comment_entry f = false /\
       w_exists (h_world h) (PathLib.Path_of f) = true)
  | Sys (EvRead _ _) | Sys (EvGitLsFiles _) => False
  | _ => True
  end.

(** The sample project on a host where [/readonly] cannot be written to. *)
Definition sample_host : host := {|
  h_world := sample_world;
  h_now := "2024-05-01 12:00:00";
  h_open_w := fun p => if Str.startswith p "/readonly/" then Some EACCES else None;
  h_getsize := fun _ => inr 4%Z;
  h_mtime := fun _ => inr "2024-04-30 09:30:00";
  h_compile := fun patterns => inr (fun rel => existsb (String.eqb rel) patterns);
  h_str := fun _ => "[Errno 13] Permission denied"
|}.

(** How many more braces a text opens than it closes. *)
Definition brace_depth (s : string) : Z :=
  (Z.of_nat (count_char "{"%char s) - Z.of_nat (count_char "}"%char s))%Z.

(** The first line of what [process_js_file] answers for a file it could
    read, up to the words that follow the file type. *)
Definition js_header (file_path content : string) : string :=
  "# " +:+
  (if (JavaScript.len content >? 200000)%Z then "Large File"
   else if Str.endswith_any (Str.lower file_path) [".ts"; ".tsx"] then "TypeScript"
   else "JavaScript").

(** Regular expressions that find nothing, and ones whose search fails. *)
Definition no_matches : JavaScript.regex_matches := {|
  JavaScript.extract_imports_exports := fun _ => ret ([], []);
  JavaScript.extract_functions := fun _ => ret [];
  JavaScript.extract_classes := fun _ => ret [];
  JavaScript.match_react_components := fun _ => ret [];
  JavaScript.match_typescript_interfaces := fun _ => ret []
|}.

Definition failing_matches : JavaScript.regex_matches := {|
  JavaScript.extract_imports_exports := fun _ => ret (["import a from 'a';"], []);
  JavaScript.extract_functions := fun _ => raise ValueError;
  JavaScript.extract_classes := fun _ => ret [];
  JavaScript.match_react_components := fun _ => ret [];
  JavaScript.match_typescript_interfaces := fun _ => ret []
|}.

(** A world in which every file holds 200001 characters. *)
Definition large_file_world : world := {|
  w_tree := sample_tree;
  w_is_dir := fun _ => false;
  w_exists := fun _ => true;
  w_open_rb := fun _ => inr (repeat Byte.x61 (Z.to_nat 200001));
  w_stat_size := fun _ => inr 200001%Z;
  w_git := fun _ => GitNotInstalled;
  w_cwd := "/"
|}.


(** The bytes are text for the runtime. *)
Definition decodable {F : Faults} (content : list Byte.byte) : bool :=
  negb (undecodable content) || forallb is_ascii_byte content.

(** The text that [read()] gives for bytes that decode. *)
Definition text_of (content : list Byte.byte) : string :=
  Text.universal_newlines (string_of_list_byte content).

(** A text of ASCII characters only: on such a text the byte-wise string
    functions of this file are those of Python ([len], [strip], [lower]). *)
Definition ascii_text (s : string) : bool :=
  forallb is_ascii_byte (list_byte_of_string s).


(** The user patterns of the witnesses: everything called [build]. *)
Definition no_build : option PathSpec := Some (fun rel => Str.startswith rel "build").

(** [stat] never fails in a way that [pathlib] raises. *)
Definition stat_never_raises {F : Faults} : Prop :=
  forall p e, stat_error p = Some e -> pathlib_ignores e = true.

(** If git cannot be run in [path], it is for one of the reasons that
    [get_git_tracked_files] catches. *)
Definition git_errors_are_caught {F : Faults} (path : string) : Prop :=
  forall e, git_error path = Some e ->
            existsb (isinstance e) [ClsSubprocessError; ClsFileNotFoundError] = true.


(** A runtime in which git is found but may not be executed. *)
Definition git_not_executable : Faults := {|
  stat_error := fun _ => None;
  git_error := fun _ => Some PermissionError;
  undecodable := fun _ => false
|}.

(** A runtime in which no file with a byte outside ASCII is text. *)
Definition strict_decoding : Faults := {|
  stat_error := fun _ => None;
  git_error := fun _ => None;
  undecodable := fun _ => true
|}.

(* ===================================================================== *)
(** * Properties *)
(* ===================================================================== *)

(** ** Strings *)

Module StrFacts.
Import Str.

Lemma append_cons (c : ascii) (s t : string) : String c s +:+ t = String c (s +:+ t).
Proof. reflexivity. Qed.

Lemma append_nil_l (t : string) : "" +:+ t = t.
Proof. reflexivity. Qed.

Lemma append_nil_r (s : string) : s +:+ "" = s.
Proof.
  induction s as [|c s IH]; [reflexivity|]. now rewrite append_cons, IH.
Qed.

Lemma append_assoc (a b c : string) : (a +:+ b) +:+ c = a +:+ (b +:+ c).
Proof.
  induction a as [|x a IH]; [reflexivity|]. now rewrite !append_cons, IH.
Qed.

Lemma startswith_app (p t : string) : startswith (p +:+ t) p = true.
Proof.
  induction p as [|c p IH]; [reflexivity|].
  rewrite append_cons; simpl. now rewrite Ascii.eqb_refl, IH.
Qed.

Lemma startswith_inv (s p : string) :
  startswith s p = true -> exists t, s = p +:+ t.
Proof.
  revert s; induction p as [|c p IH]; intros s H.
  - exists s; reflexivity.
  - destruct s as [|d s]; simpl in H; [discriminate|].
    apply andb_prop in H as [Hc Hs].
    apply Ascii.eqb_eq in Hc; subst d.
    destruct (IH _ Hs) as [t ->]. exists t; reflexivity.
Qed.

Lemma startswith_iff (s p : string) :
  startswith s p = true <-> exists t, s = p +:+ t.
Proof.
  split; [apply startswith_inv | intros [t ->]; apply startswith_app].
Qed.

Lemma startswith_refl (s : string) : startswith s s = true.
Proof. rewrite <- (append_nil_r s) at 1. apply startswith_app. Qed.

Lemma endswith_refl (s : string) : endswith s s = true.
Proof. destruct s; simpl; [reflexivity|]. now rewrite Ascii.eqb_refl, String.eqb_refl. Qed.

Lemma endswith_app (t p : string) : endswith (t +:+ p) p = true.
Proof.
  induction t as [|c t IH].
  - apply endswith_refl.
  - rewrite append_cons; simpl. rewrite IH. apply orb_true_r.
Qed.

Lemma endswith_inv (s p : string) :
  endswith s p = true -> exists t, s = t +:+ p.
Proof.
  induction s as [|c s IH]; intros H.
  - destruct p; [|discriminate]. exists ""; reflexivity.
  - change (endswith (String c s) p)
      with (String.eqb (String c s) p || endswith s p) in H.
    apply orb_prop in H as [H|H].
    + apply String.eqb_eq in H. exists "". exact H.
    + destruct (IH H) as [t ->]. exists (String c t); reflexivity.
Qed.

Lemma endswith_iff (s p : string) :
  endswith s p = true <-> exists t, s = t +:+ p.
Proof.
  split; [apply endswith_inv | intros [t ->]; apply endswith_app].
Qed.

(** A suffix of [s +:+ a] is a suffix of [a], or has [a] as a suffix. *)
Lemma endswith_app_inv (s a b : string) :
  endswith (s +:+ a) b = true -> endswith a b = true \/ endswith b a = true.
Proof.
  induction s as [|c s IH]; intros H.
  - now left.
  - rewrite append_cons in H.
    change (endswith (String c (s +:+ a)) b)
      with (String.eqb (String c (s +:+ a)) b || endswith (s +:+ a) b) in H.
    apply orb_prop in H as [H|H]; [|now apply IH].
    right. apply String.eqb_eq in H. rewrite <- H.
    apply (endswith_app (String c s) a).
Qed.

Lemma lower_app (a b : string) : lower (a +:+ b) = lower a +:+ lower b.
Proof.
  induction a as [|c a IH]; [reflexivity|].
  rewrite !append_cons; simpl. now rewrite append_cons, IH.
Qed.

Lemma contains_app (c : ascii) (a b : string) :
  contains c (a +:+ b) = contains c a || contains c b.
Proof.
  induction a as [|d a IH]; [reflexivity|].
  rewrite append_cons; simpl. now rewrite IH, orb_assoc.
Qed.

Lemma existsb_endswith_inv (s : string) (exts : list string) :
  endswith_any s exts = true -> exists ext t, In ext exts /\ s = t +:+ ext.
Proof.
  unfold endswith_any. intros H. apply existsb_exists in H as (ext & Hin & He).
  apply endswith_inv in He as [t ->]. now exists ext, t.
Qed.

End StrFacts.

(** ** The monad *)

Section MonadFacts.
Context {A B : Type}.

Lemma result_bind (m : M A) (k : A -> M B) :
  result (bind m k) = match result m with Ok a => result (k a) | Raise e => Raise e end.
Proof.
  destruct m as [[a|e] t]; simpl; [|reflexivity].
  destruct (k a); reflexivity.
Qed.

Lemma trace_bind (m : M A) (k : A -> M B) :
  trace (bind m k) =
  match result m with Ok a => trace m ++ trace (k a) | Raise _ => trace m end.
Proof.
  destruct m as [[a|e] t]; simpl; [|reflexivity].
  destruct (k a); reflexivity.
Qed.

Lemma result_try_except (m : M A) cls (h : exn -> M A) :
  result (try_except m cls h) =
  match result m with
  | Ok a => Ok a
  | Raise e => if existsb (isinstance e) cls then result (h e) else Raise e
  end.
Proof.
  destruct m as [[a|e] t]; simpl; [reflexivity|].
  destruct (existsb _ _); [|reflexivity]. destruct (h e); reflexivity.
Qed.

Lemma trace_try_except (m : M A) cls (h : exn -> M A) :
  trace (try_except m cls h) =
  match result m with
  | Ok a => trace m
  | Raise e => if existsb (isinstance e) cls then trace m ++ trace (h e) else trace m
  end.
Proof.
  destruct m as [[a|e] t]; simpl; [reflexivity|].
  destruct (existsb _ _); [|reflexivity]. destruct (h e); reflexivity.
Qed.

End MonadFacts.

Lemma returns_bind {A B} (m : M A) (k : A -> M B) :
  returns m -> (forall a, result m = Ok a -> returns (k a)) -> returns (bind m k).
Proof.
  intros [a Ha] Hk. unfold returns. rewrite result_bind, Ha. now apply Hk.
Qed.

Lemma returns_ret {A} (a : A) : returns (ret a).
Proof. now exists a. Qed.

Lemma returns_foldM {A S} (body : A -> S -> M S) (l : list A) (st : S) :
  (forall x s, returns (body x s)) -> returns (foldM body l st).
Proof.
  intros Hb. revert st. induction l as [|x l IH]; intros st; simpl.
  - apply returns_ret.
  - apply returns_bind; [apply Hb | intros; apply IH].
Qed.

(* ===================================================================== *)
(** ** Signature files (is_signature_file) *)
(* ===================================================================== *)

Section SignatureFiles.
Import Str StrFacts Utils.

Local Ltac no_suffix :=
  match goal with
  | |- endswith (?x +:+ ?a) ?b = false =>
      let E := fresh "E" in
      destruct (endswith (x +:+ a) b) eqn:E; [|reflexivity];
      apply endswith_app_inv in E as [E|E]; vm_compute in E; discriminate
  end.

Lemma is_signature_file_lower_suffix (stem ext : string) :
  In (lower ext) caseless_signature_extensions ->
  is_signature_file (stem +:+ ext) = true.
Proof.
  intros Hin. unfold is_signature_file, endswith_any.
  rewrite lower_app.
  assert (Hs : endswith (lower stem +:+ lower ext) (lower ext) = true)
    by apply endswith_app.
  simpl in Hin.
  cbn [existsb].
  destruct Hin as [H|[H|[H|[H|[H|[H|[H|[]]]]]]]]; rewrite <- H in Hs |- *;
    rewrite Hs; rewrite ?orb_true_r; reflexivity.
Qed.

(** C10.  [is_signature_file] compares the Python extension as written and
    every other extension after lower-casing the path: a path ending in
    [".py"] is accepted, a path ending in upper-case [".PY"] is refused,
    and a path ending in any case variant of the markdown, JS/TS/JSX/TSX
    or SQL extensions (such as [".MD"]) is accepted. *)
Theorem is_signature_file_case_sensitivity :
  (forall stem, is_signature_file (stem +:+ ".py") = true) /\
  (forall stem, is_signature_file (stem +:+ ".PY") = false) /\
  (forall stem ext,
      In (lower ext) caseless_signature_extensions ->
      is_signature_file (stem +:+ ext) = true).
Proof.
  split; [|split].
  - intros stem. unfold is_signature_file.
    now rewrite endswith_app.
  - intros stem. unfold is_signature_file, endswith_any.
    rewrite lower_app. change (lower ".PY") with ".py". cbn [existsb].
    repeat match goal with
           | |- context [endswith (?x +:+ ?a) ?b] =>
               replace (endswith (x +:+ a) b) with false by (symmetry; no_suffix)
           end.
    reflexivity.
  - apply is_signature_file_lower_suffix.
Qed.

Lemma is_signature_file_case_sensitivity_witness :
  In (lower ".MD") caseless_signature_extensions /\
  is_signature_file ("docs/README" +:+ ".MD") = true.
Proof.
  split.
  - vm_compute. left. reflexivity.
  - apply (proj2 (proj2 is_signature_file_case_sensitivity) "docs/README" ".MD").
    vm_compute. left. reflexivity.
Defined.

End SignatureFiles.

(* ===================================================================== *)
(** ** Binary detection (is_binary_file) *)
(* ===================================================================== *)

Section BinaryDetection.
Import Str StrFacts Utils.
Variable w : world.

Lemma has_binary_extension_iff (file_path : string) :
  has_binary_extension file_path = true <->
  exists ext stem, In ext binary_extensions /\ lower file_path = stem +:+ ext.
Proof.
  unfold has_binary_extension. rewrite existsb_exists. split.
  - intros (ext & Hin & He). apply endswith_inv in He as [t Ht]. now exists ext, t.
  - intros (ext & t & Hin & He). exists ext. split; [exact Hin|].
    rewrite He. apply endswith_app.
Qed.

Lemma null_byte_in (chunk : list Byte.byte) :
  existsb (Byte.eqb Byte.x00) chunk = true <-> In Byte.x00 chunk.
Proof.
  rewrite existsb_exists. split.
  - intros (b & Hin & Hb). apply Byte.byte_dec_bl in Hb. now subst b.
  - intros Hin. exists Byte.x00. split; [exact Hin | now apply Byte.byte_dec_lb].
Qed.

(** C6.  [is_binary_file] answers [True] without touching the file system
    when the lower-cased path ends with a known binary extension;
    otherwise it answers exactly whether a null byte occurs among the
    first 1024 bytes of the file; and it answers [True] when the file
    cannot be opened. *)
Theorem is_binary_file_spec (file_path : string) :
  (has_binary_extension file_path = true ->
   is_binary_file w file_path = (Ok true, [])) /\
  (has_binary_extension file_path = false ->
   forall content, w_open_rb w file_path = inr content ->
     exists b, result (is_binary_file w file_path) = Ok b /\
               (b = true <-> In Byte.x00 (take 1024 content))) /\
  (has_binary_extension file_path = false ->
   forall e, w_open_rb w file_path = inl e ->
     result (is_binary_file w file_path) = Ok true).
Proof.
  unfold is_binary_file, open_read.
  split; [|split]; intros Hext.
  - now rewrite Hext.
  - intros content Hopen. rewrite Hext, Hopen.
    exists (existsb (Byte.eqb Byte.x00) (take 1024 content)).
    split; [reflexivity | apply null_byte_in].
  - intros e Hopen. rewrite Hext, Hopen. now destruct e.
Qed.

End BinaryDetection.

Lemma is_binary_file_spec_witness :
  (Utils.has_binary_extension "proj/logo.PNG" = true /\
   Utils.is_binary_file sample_world "proj/logo.PNG" = (Ok true, [])) /\
  (Utils.has_binary_extension "proj/README.md" = false /\
   w_open_rb sample_world "proj/README.md" = inr [Byte.x23; Byte.x20; Byte.x68; Byte.x69] /\
   exists b, result (Utils.is_binary_file sample_world "proj/README.md") = Ok b /\
             (b = true <-> In Byte.x00 (take 1024 [Byte.x23; Byte.x20; Byte.x68; Byte.x69]))) /\
  (Utils.has_binary_extension "proj/main.py" = false /\
   w_open_rb sample_world "proj/main.py" = inl EACCES /\
   result (Utils.is_binary_file sample_world "proj/main.py") = Ok true).
Proof.
  split; [|split].
  - split; [reflexivity|].
    apply (proj1 (is_binary_file_spec sample_world "proj/logo.PNG")). reflexivity.
  - split; [reflexivity|]. split; [reflexivity|].
    apply (proj1 (proj2 (is_binary_file_spec sample_world "proj/README.md")));
      reflexivity.
  - split; [reflexivity|]. split; [reflexivity|].
    apply (proj2 (proj2 (is_binary_file_spec sample_world "proj/main.py")) eq_refl EACCES).
    reflexivity.
Defined.

(* ===================================================================== *)
(** ** Exclusion: precedence of the defaults, and paths outside the base *)
(* ===================================================================== *)

Section ShouldExclude.
Import Str StrFacts PathLib.
Variable w : world.

Lemma relative_to_cases (path base : Path) :
  (exists rel_path, relative_to path base = (Ok rel_path, [])) \/
  relative_to path base = (Raise ValueError, []).
Proof.
  unfold relative_to.
  destruct (Bool.eqb _ _); [|now right].
  destruct (strip_prefix _ _); [left; eauto | now right].
Qed.

Lemma relative_to_Ok (path base rel_path : Path) :
  result (relative_to path base) = Ok rel_path ->
  relative_to path base = (Ok rel_path, []).
Proof.
  destruct (relative_to_cases path base) as [[r ->] | ->]; simpl; congruence.
Qed.

Lemma matches_default_iff (s : string) :
  Utils.matches_default s = true <->
  exists pattern, In pattern Utils.DEFAULT_EXCLUSIONS /\
                  Utils.default_pattern_matches pattern s = true.
Proof. unfold Utils.matches_default. apply existsb_exists. Qed.

(** What [Utils.should_exclude] does on a path that lies under the base. *)
Lemma should_exclude_relative (path base rel_path : Path) (spec : option PathSpec) :
  result (relative_to path base) = Ok rel_path ->
  Utils.should_exclude w path base spec =
  let s := rel_path_str w path rel_path in
  if Utils.matches_default s then (Ok true, [EvIsDir path])
  else match spec with
       | Some sp => (Ok (sp s), [EvIsDir path; EvMatchFile s])
       | None => (Ok false, [EvIsDir path])
       end.
Proof.
  intros Hrel. apply relative_to_Ok in Hrel.
  unfold Utils.should_exclude, rel_path_str. rewrite Hrel. cbn [bind is_dir tell ret stat_error no_faults].
  destruct (w_is_dir w path); cbn [app];
    (destruct (Utils.matches_default _); [reflexivity|]);
    destruct spec; reflexivity.
Qed.

(** C3.  For a path under the base: if some hardcoded default pattern
    matches it, [should_exclude] returns [True] and the user patterns are
    never consulted, whatever they are; the user-pattern matcher is
    consulted only when no default matches, and then its verdict is the
    answer. *)
Theorem default_exclusions_take_precedence
        (path base rel_path : Path) (spec : option PathSpec) :
  result (relative_to path base) = Ok rel_path ->
  let s := rel_path_str w path rel_path in
  let run := Utils.should_exclude w path base spec in
  ((exists pattern, In pattern Utils.DEFAULT_EXCLUSIONS /\
                    Utils.default_pattern_matches pattern s = true) ->
   result run = Ok true /\ ~ consults_spec (trace run)) /\
  (consults_spec (trace run) ->
   forall pattern, In pattern Utils.DEFAULT_EXCLUSIONS ->
                   Utils.default_pattern_matches pattern s = false) /\
  (forall sp, spec = Some sp -> Utils.matches_default s = false ->
              result run = Ok (sp s) /\ trace run = [EvIsDir path; EvMatchFile s]).
Proof.
  intros Hrel s run. subst run.
  rewrite (should_exclude_relative _ _ _ _ Hrel). fold s. cbv zeta.
  split; [|split].
  - intros Hex. apply matches_default_iff in Hex. rewrite Hex. split; [reflexivity|].
    intros [rel [H|[]]]. discriminate.
  - intros Hc pattern Hin.
    destruct (Utils.matches_default s) eqn:Hm.
    + destruct Hc as [rel [H|[]]]. discriminate.
    + destruct (Utils.default_pattern_matches pattern s) eqn:Hp; [|reflexivity].
      assert (Utils.matches_default s = true) by (apply matches_default_iff; eauto).
      congruence.
  - intros sp -> Hm. rewrite Hm. split; reflexivity.
Qed.

(** C8.  A path that cannot be made relative to the base is not excluded,
    by either [should_exclude], whatever the patterns are. *)
Theorem should_exclude_fails_open (path base : Path) (spec : option PathSpec) :
  (forall rel_path, result (relative_to path base) <> Ok rel_path) ->
  result (Utils.should_exclude w path base spec) = Ok false /\
  result (Main.should_exclude w path base spec) = Ok false.
Proof.
  intros Hno.
  destruct (relative_to_cases path base) as [[r Hr] | Hr].
  { exfalso. apply (Hno r). now rewrite Hr. }
  unfold Utils.should_exclude, Main.should_exclude. rewrite Hr.
  split; [reflexivity | destruct spec; reflexivity].
Qed.

End ShouldExclude.

Lemma default_exclusions_take_precedence_witness :
  let path := PathLib.Path_of "proj/build" in
  let base := PathLib.Path_of "proj" in
  let rel_path := mk_Path false ["build"] in
  let negating : PathSpec := fun rel => negb (Str.startswith rel "build/") in
  result (PathLib.relative_to path base) = Ok rel_path /\
  (exists pattern, In pattern Utils.DEFAULT_EXCLUSIONS /\
     Utils.default_pattern_matches pattern (rel_path_str sample_world path rel_path) = true) /\
  result (Utils.should_exclude sample_world path base (Some negating)) = Ok true /\
  ~ consults_spec (trace (Utils.should_exclude sample_world path base (Some negating))).
Proof.
  intros path base rel_path negating.
  assert (Hrel : result (PathLib.relative_to path base) = Ok rel_path) by reflexivity.
  assert (Hex : exists pattern, In pattern Utils.DEFAULT_EXCLUSIONS /\
     Utils.default_pattern_matches pattern (rel_path_str sample_world path rel_path) = true).
  { exists "build/". split; [vm_compute; tauto | reflexivity]. }
  split; [exact Hrel|]. split; [exact Hex|].
  exact (proj1 (default_exclusions_take_precedence sample_world path base rel_path
                  (Some negating) Hrel) Hex).
Defined.

Lemma should_exclude_fails_open_witness :
  let path := PathLib.Path_of "/mnt/other/node_modules/x.js" in
  let base := PathLib.Path_of "/home/dev/proj" in
  (forall rel_path, result (PathLib.relative_to path base) <> Ok rel_path) /\
  result (Utils.should_exclude sample_world path base (Some (fun _ => true))) = Ok false /\
  result (Main.should_exclude sample_world path base (Some (fun _ => true))) = Ok false.
Proof.
  intros path base.
  assert (Hno : forall rel_path, result (PathLib.relative_to path base) <> Ok rel_path).
  { intros rel_path. vm_compute. discriminate. }
  split; [exact Hno|].
  exact (should_exclude_fails_open sample_world path base (Some (fun _ => true)) Hno).
Defined.

(* ===================================================================== *)
(** ** Directory patterns among the defaults *)
(* ===================================================================== *)

Section DirectoryPatterns.
Import Str StrFacts.

Lemma split_not_nil (sep : ascii) (s : string) : split sep s <> [].
Proof.
  destruct s as [|c s]; simpl; [discriminate|].
  destruct (Ascii.eqb c sep); [discriminate|].
  destruct (split sep s); discriminate.
Qed.

Lemma join_cons (sep x : string) (l : list string) :
  l <> [] -> join sep (x :: l) = x +:+ sep +:+ join sep l.
Proof. destruct l; [congruence | reflexivity]. Qed.

Lemma join_split (sep : ascii) (s : string) :
  join (String sep "") (split sep s) = s.
Proof.
  induction s as [|c s IH]; [reflexivity|].
  simpl. destruct (Ascii.eqb c sep) eqn:Hc.
  - apply Ascii.eqb_eq in Hc; subst c.
    rewrite join_cons by apply split_not_nil. now rewrite IH.
  - pose proof (split_not_nil sep s) as Hne.
    destruct (split sep s) as [|h t]; [congruence|].
    destruct t as [|h' t].
    + simpl in *. now rewrite IH.
    + rewrite join_cons by discriminate.
      rewrite join_cons in IH by discriminate.
      rewrite append_cons. now rewrite IH.
Qed.

Lemma join_split_slash (s : string) : join "/" (split slash s) = s.
Proof. exact (join_split slash s). Qed.

Lemma join_app (sep : string) (l1 l2 : list string) :
  l1 <> [] -> l2 <> [] ->
  join sep (l1 ++ l2) = join sep l1 +:+ sep +:+ join sep l2.
Proof.
  induction l1 as [|x l1 IH]; intros H1 H2; [congruence|].
  destruct l1 as [|y l1].
  - simpl app. now rewrite join_cons.
  - change ((x :: y :: l1) ++ l2) with (x :: ((y :: l1) ++ l2)).
    rewrite join_cons by (simpl; discriminate).
    rewrite IH by (assumption || discriminate).
    rewrite (join_cons sep x (y :: l1)) by discriminate.
    now rewrite !append_assoc.
Qed.

(** A proper leading run of the segments of [rel], followed by ["/"], is
    a prefix of [rel]. *)
Lemma leading_segments_prefix (rel : string) (k : nat) :
  0 < k < length (split slash rel) ->
  startswith rel (join "/" (take k (split slash rel)) +:+ "/") = true.
Proof.
  intros [Hk0 Hk].
  rewrite <- (join_split_slash rel) at 1.
  rewrite <- (take_drop k (split slash rel)) at 1.
  rewrite join_app.
  - rewrite <- append_assoc. apply startswith_app.
  - intros H. apply (f_equal (@length _)) in H.
    rewrite length_take in H. simpl in H. lia.
  - intros H. apply (f_equal (@length _)) in H.
    rewrite length_drop in H. simpl in H. lia.
Qed.

Lemma existsb_seq (f : nat -> bool) (n : nat) :
  existsb f (seq 0 n) = true <-> exists i, i < n /\ f i = true.
Proof.
  rewrite existsb_exists. split.
  - intros (i & Hin & Hf). apply in_seq in Hin. exists i. split; [lia | exact Hf].
  - intros (i & Hlt & Hf). exists i. split; [apply in_seq; lia | exact Hf].
Qed.

(** What the branch for a pattern ending in ["/"] computes. *)
Lemma dir_pattern_matches_iff (pattern rel : string) :
  Utils.dir_pattern_matches pattern rel = true <->
  rel = pattern \/ startswith rel pattern = true \/
  (contains slash rel = true /\ rel +:+ "/" = pattern).
Proof.
  unfold Utils.dir_pattern_matches.
  rewrite !orb_true_iff, andb_true_iff, String.eqb_eq. cbv zeta.
  rewrite existsb_seq.
  split.
  - intros [[H|H]|[Hc (i & Hi & He)]]; [now left | now right; left |].
    apply String.eqb_eq in He.
    destruct (Nat.eq_dec (i + 1) (length (split slash rel))) as [Hlast|Hmid].
    + right; right. split; [exact Hc|].
      rewrite Hlast, firstn_all, join_split_slash in He. exact He.
    + right; left. rewrite <- He. apply leading_segments_prefix. lia.
  - intros [H|[H|[Hc He]]]; [now left; left | now left; right |].
    right. split; [exact Hc|].
    pose proof (split_not_nil slash rel) as Hne.
    exists (length (split slash rel) - 1). split.
    + destruct (split slash rel); [congruence | simpl; lia].
    + apply String.eqb_eq.
      replace (length (split slash rel) - 1 + 1) with (length (split slash rel))
        by (destruct (split slash rel); [congruence | simpl; lia]).
      now rewrite firstn_all, join_split_slash.
Qed.

(** C2, as the code has it.  For every pattern ending in ["/"] (so for
    every such default pattern), the check matches a relative path exactly
    when the path equals the pattern, starts with the pattern, or contains
    a ["/"] and, followed by ["/"], equals the pattern.  For ["build/"]:
    ["build/"], ["build/dist/output.js"] and ["build/temp/cache.tmp"] are
    excluded and ["buildtools/file.txt"] is not. *)
Theorem dir_pattern_matches_leading_directory (pattern rel : string) :
  endswith pattern "/" = true ->
  (Utils.default_pattern_matches pattern rel = true <->
   rel = pattern \/ startswith rel pattern = true \/
   (contains slash rel = true /\ rel +:+ "/" = pattern)) /\
  In "build/" Utils.DEFAULT_EXCLUSIONS /\
  Utils.default_pattern_matches "build/" "build/" = true /\
  Utils.default_pattern_matches "build/" "build/dist/output.js" = true /\
  Utils.default_pattern_matches "build/" "build/temp/cache.tmp" = true /\
  Utils.matches_default "buildtools/file.txt" = false.
Proof.
  intros Hp. split.
  - unfold Utils.default_pattern_matches. rewrite Hp. apply dir_pattern_matches_iff.
  - split; [vm_compute; tauto|]. repeat split; reflexivity.
Qed.

Lemma dir_pattern_matches_leading_directory_witness :
  endswith "__tests__/__snapshots__/" "/" = true /\
  (Utils.default_pattern_matches "__tests__/__snapshots__/" "__tests__/__snapshots__" = true <->
   "__tests__/__snapshots__" = "__tests__/__snapshots__/" \/
   startswith "__tests__/__snapshots__" "__tests__/__snapshots__/" = true \/
   (contains slash "__tests__/__snapshots__" = true /\
    "__tests__/__snapshots__" +:+ "/" = "__tests__/__snapshots__/")).
Proof.
  split; [reflexivity|].
  apply (proj1 (dir_pattern_matches_leading_directory
                  "__tests__/__snapshots__/" "__tests__/__snapshots__" eq_refl)).
Defined.

(** C2 as stated fails: ["build"] is a directory segment of
    ["src/build/x.js"], yet the default pattern ["build/"] does not match
    that path, and no other default does. *)
Lemma dir_pattern_nested_segment_counterexample :
  In "build/" Utils.DEFAULT_EXCLUSIONS /\
  endswith "build/" "/" = true /\
  ~ (Utils.default_pattern_matches "build/" "src/build/x.js" = true <->
     spec_dir_pattern_matches "build/" "src/build/x.js") /\
  Utils.matches_default "src/build/x.js" = false.
Proof.
  split; [vm_compute; tauto|]. split; [reflexivity|]. split; [|reflexivity].
  intros [_ H].
  assert (Hs : spec_dir_pattern_matches "build/" "src/build/x.js").
  { right; right. exists "build". split; [vm_compute; tauto | reflexivity]. }
  apply H in Hs. vm_compute in Hs. discriminate.
Qed.

End DirectoryPatterns.

(* ===================================================================== *)
(** ** Sorting *)
(* ===================================================================== *)

Section SortFacts.
Context {A : Type} (le : A -> A -> bool).
Hypothesis le_total : forall a b, le a b = true \/ le b a = true.
Hypothesis le_trans : forall a b c, le a b = true -> le b c = true -> le a c = true.

Let R (a b : A) : Prop := le a b = true.

Lemma insert_sorted_Permutation (x : A) (l : list A) :
  Permutation (insert_sorted le x l) (x :: l).
Proof.
  induction l as [|y l IH]; simpl; [reflexivity|].
  destruct (le x y); [reflexivity|].
  rewrite IH. apply perm_swap.
Qed.

Lemma sort_by_Permutation (l : list A) : Permutation (sort_by le l) l.
Proof.
  induction l as [|x l IH]; simpl; [reflexivity|].
  rewrite insert_sorted_Permutation. now constructor.
Qed.

Lemma sort_by_In (l : list A) (x : A) : In x (sort_by le l) <-> In x l.
Proof.
  split; apply Permutation_in;
    [apply sort_by_Permutation | symmetry; apply sort_by_Permutation].
Qed.

Lemma insert_sorted_StronglySorted (x : A) (l : list A) :
  StronglySorted R l -> StronglySorted R (insert_sorted le x l).
Proof.
  induction 1 as [|y l Hs IH Hy]; simpl.
  - repeat constructor.
  - destruct (le x y) eqn:Hxy.
    + constructor; [now constructor|].
      constructor; [exact Hxy|].
      eapply Forall_impl; [exact Hy|]. intros z Hz. exact (le_trans _ _ _ Hxy Hz).
    + constructor; [exact IH|].
      assert (Hyx : le y x = true) by (destruct (le_total x y); congruence).
      eapply Permutation_Forall; [symmetry; apply insert_sorted_Permutation|].
      now constructor.
Qed.

Lemma sort_by_StronglySorted (l : list A) : StronglySorted R (sort_by le l).
Proof.
  induction l as [|x l IH]; simpl; [constructor|].
  now apply insert_sorted_StronglySorted.
Qed.

End SortFacts.

Lemma string_leb_trans (a b c : string) :
  String.leb a b = true -> String.leb b c = true -> String.leb a c = true.
Proof.
  intros H1 H2. apply Is_true_true.
  apply Is_true_true in H1, H2.
  exact (transitivity (R := String.le) H1 H2).
Qed.

(** [sorted] returns its argument rearranged in ascending order. *)
Lemma sorted_StronglySorted (l : list string) :
  StronglySorted (fun a b => String.leb a b = true) (sorted l).
Proof. apply sort_by_StronglySorted; [apply String.leb_total | apply string_leb_trans]. Qed.

Lemma sorted_In (l : list string) (x : string) : In x (sorted l) <-> In x l.
Proof. apply sort_by_In. Qed.

(* ===================================================================== *)
(** ** Reasoning about effectful code *)
(* ===================================================================== *)

Section SatRules.
Context {A B : Type} (EvP : event -> Prop).

Lemma sat_ret (Q : A -> Prop) (a : A) : Q a -> sat EvP Q (ret a).
Proof. intros HQ. split; [constructor | intros a' [= <-]; exact HQ]. Qed.

Lemma sat_raise (Q : A -> Prop) (e : exn) : sat EvP Q (raise e).
Proof. split; [constructor | discriminate]. Qed.

Lemma sat_tell (ev : event) : EvP ev -> sat EvP (fun _ => True) (tell ev).
Proof. intros H. split; [repeat constructor; exact H | trivial]. Qed.

Lemma sat_bind (QA : A -> Prop) (Q : B -> Prop) (m : M A) (k : A -> M B) :
  sat EvP QA m -> (forall a, QA a -> sat EvP Q (k a)) -> sat EvP Q (bind m k).
Proof.
  intros [Ht Hr] Hk. unfold sat. rewrite trace_bind, result_bind.
  destruct (result m) as [a|e] eqn:Hm.
  - destruct (Hk a (Hr a eq_refl)) as [Hkt Hkr].
    split; [apply Forall_app; split; assumption | exact Hkr].
  - split; [exact Ht | discriminate].
Qed.

Lemma sat_try_except (Q : A -> Prop) (m : M A) cls (h : exn -> M A) :
  sat EvP Q m -> (forall e, sat EvP Q (h e)) -> sat EvP Q (try_except m cls h).
Proof.
  intros [Ht Hr] Hh. unfold sat. rewrite trace_try_except, result_try_except.
  destruct (result m) as [a|e] eqn:Hm.
  - split; [exact Ht | intros a' [= <-]; now apply Hr].
  - destruct (existsb (isinstance e) cls).
    + destruct (Hh e) as [Hht Hhr].
      split; [apply Forall_app; split; assumption | exact Hhr].
    + split; [exact Ht | discriminate].
Qed.

Lemma sat_weaken (Q Q' : A -> Prop) (m : M A) :
  sat EvP Q m -> (forall a, Q a -> Q' a) -> sat EvP Q' m.
Proof. intros [Ht Hr] HQ. split; [exact Ht | intros a Ha; apply HQ, Hr, Ha]. Qed.

End SatRules.

Lemma sat_foldM {A S} (EvP : event -> Prop) (I : S -> Prop) (P : A -> Prop)
      (body : A -> S -> M S) (l : list A) (st : S) :
  (forall x s, P x -> I s -> sat EvP I (body x s)) ->
  Forall P l -> I st -> sat EvP I (foldM body l st).
Proof.
  intros Hb Hl. revert st. induction Hl as [|x l Hx Hl IH]; intros st Hst; simpl.
  - now apply sat_ret.
  - eapply sat_bind; [apply Hb; assumption | intros s Hs; now apply IH].
Qed.

Lemma returns_try_except {A} (m : M A) cls (h : exn -> M A) :
  (forall e, result m = Raise e -> existsb (isinstance e) cls = true /\ returns (h e)) ->
  returns (try_except m cls h).
Proof.
  intros H. unfold returns. rewrite result_try_except.
  destruct (result m) as [a|e] eqn:Hm; [eauto|].
  destruct (H e eq_refl) as [-> Hh]. exact Hh.
Qed.

(** ** Induction on directory trees *)

Lemma node_nested_ind (P : node -> Prop) :
  (forall name, P (File name)) ->
  (forall name err cs, Forall P cs -> P (Dir name err cs)) ->
  forall n, P n.
Proof.
  intros HF HD. fix IH 1. intros [name | name err cs].
  - apply HF.
  - apply HD. induction cs as [|c cs IHcs]; constructor; [apply IH | exact IHcs].
Qed.

(* ===================================================================== *)
(** ** The directory walk *)
(* ===================================================================== *)

Section OsWalkFacts.
Context {S : Type}.
Variable body : string -> list string -> list string -> S -> M (list string * S).

Lemma os_walk_unfold (top : string) (n : node) (acc : S) :
  Utils.os_walk body top n acc =
  do_ tell (EvScandir top);
  match n with
  | File _ => ret acc
  | Dir _ (Some _) _ => ret acc
  | Dir _ None children =>
      do r <- body top (map node_name (List.filter node_is_dir children))
                   (map node_name (List.filter (fun c => negb (node_is_dir c)) children))
                   acc;
      Utils.walk_dirs (Utils.os_walk body) top (fst r) children (snd r)
  end.
Proof. destruct n; reflexivity. Qed.

(** The walk returns as soon as the loop body always does: a listing that
    fails is skipped, never raised. *)
Lemma os_walk_returns :
  (forall top ds fs acc, returns (body top ds fs acc)) ->
  forall n top acc, returns (Utils.os_walk body top n acc).
Proof.
  intros Hbody. induction n as [name | name err cs IH] using node_nested_ind;
    intros top acc; rewrite os_walk_unfold.
  - apply returns_bind; [now exists tt | intros; apply returns_ret].
  - apply returns_bind; [now exists tt | intros _ _].
    destruct err; [apply returns_ret|].
    apply returns_bind; [apply Hbody | intros r _].
    generalize (snd r). clear acc.
    induction IH as [|c cs Hc _ IHcs]; intros acc; simpl.
    + apply returns_ret.
    + destruct (_ && _); [|apply IHcs].
      apply returns_bind; [apply Hc | intros; apply IHcs].
Qed.

Section Invariant.
Variable name_ok : string -> bool.
Variable Good : string -> Prop.
Variable EvP : event -> Prop.
Variable AccP : S -> Prop.

Hypothesis scandir_ok : forall top, Good top -> EvP (EvScandir top).
Hypothesis body_ok :
  forall top ds fs acc,
    Good top -> AccP acc ->
    Forall (fun d => name_ok d = true) ds ->
    Forall (fun f => name_ok f = true) fs ->
    sat EvP (fun r => AccP (snd r) /\
                      forall d, In d (fst r) -> In d ds /\ Good (OsPath.join top d))
        (body top ds fs acc).

Lemma names_ok_children (cs : list node) (keep : node -> bool) :
  forallb (fun c => name_ok (node_name c) && names_ok name_ok c) cs = true ->
  Forall (fun d => name_ok d = true) (map node_name (List.filter keep cs)).
Proof.
  intros H. rewrite forallb_forall in H.
  apply List.Forall_forall. intros d Hd.
  apply in_map_iff in Hd as (c & <- & Hc). apply filter_In in Hc as [Hc _].
  specialize (H c Hc). now apply andb_prop in H as [H _].
Qed.

(** Only directories reached through names that the body kept are
    walked; everywhere the walk goes, its calls satisfy [EvP] and the
    accumulator keeps [AccP]. *)
Lemma os_walk_invariant (n : node) :
  forall top acc,
    names_ok name_ok n = true -> Good top -> AccP acc ->
    sat EvP AccP (Utils.os_walk body top n acc).
Proof.
  induction n as [name | name err cs IH] using node_nested_ind;
    intros top acc Hn Hg Ha; rewrite os_walk_unfold.
  - eapply sat_bind; [apply sat_tell, scandir_ok, Hg | intros _ _].
    now apply sat_ret.
  - eapply sat_bind; [apply sat_tell, scandir_ok, Hg | intros _ _].
    destruct err; [now apply sat_ret|].
    simpl in Hn.
    eapply sat_bind.
    { apply body_ok; [exact Hg | exact Ha | |]; now apply names_ok_children. }
    intros r [Hacc Hdirs].
    assert (Hgood : forall d, In d (fst r) -> Good (OsPath.join top d))
      by (intros d Hd; apply Hdirs, Hd).
    clear Hdirs.
    revert Hacc. generalize (snd r). clear acc Ha.
    induction IH as [|c cs Hc _ IHcs]; intros acc Ha; simpl.
    + now apply sat_ret.
    + simpl in Hn. apply andb_prop in Hn as [Hcn Hn].
      apply andb_prop in Hcn as [_ Hcn].
      destruct (node_is_dir c && _) eqn:Hkeep; [|now apply IHcs].
      apply andb_prop in Hkeep as [_ Hkeep].
      apply existsb_exists in Hkeep as (d & Hd & Heq).
      apply String.eqb_eq in Heq. subst d.
      eapply sat_bind.
      * apply Hc; [exact Hcn | apply Hgood, Hd | exact Ha].
      * intros acc' Ha'. now apply IHcs.
Qed.

End Invariant.

End OsWalkFacts.

(* ===================================================================== *)
(** ** The scan: it always returns *)
(* ===================================================================== *)

Lemma no_faults_stat : stat_never_raises (F := no_faults).
Proof. intros p e [=]. Qed.

Lemma no_faults_git (path : string) : git_errors_are_caught (F := no_faults) path.
Proof. intros e [=]. Qed.

Section ScanReturns.
Context {F : Faults}.
Variable w : world.
Hypothesis stat_ok : stat_never_raises.

Lemma is_dir_returns (p : Path) : returns (is_dir w p).
Proof.
  unfold is_dir. destruct (stat_error p) as [e|] eqn:He; [|now eexists].
  rewrite (stat_ok p e He). now eexists.
Qed.

Lemma should_exclude_returns (path base : Path) (spec : option PathSpec) :
  returns (Utils.should_exclude w path base spec).
Proof.
  unfold Utils.should_exclude.
  destruct (relative_to_cases path base) as [[r ->] | ->]; [|now eexists].
  destruct (is_dir_returns path) as [d Hd].
  destruct (is_dir w path) as [o t]. cbn [result fst] in Hd. subst o.
  cbn [bind ret].
  destruct (Utils.matches_default _); [now eexists|].
  destruct spec; now eexists.
Qed.

Lemma is_binary_file_returns (file_path : string) :
  returns (Utils.is_binary_file w file_path).
Proof.
  unfold Utils.is_binary_file, open_read.
  destruct (Utils.has_binary_extension file_path); [now eexists|].
  destruct (w_open_rb w file_path) as [[]|content]; now eexists.
Qed.

Lemma get_git_tracked_files_returns (path : string) :
  git_errors_are_caught path ->
  returns (Utils.get_git_tracked_files w path).
Proof.
  intros Hgit. unfold Utils.get_git_tracked_files, run_git_ls_files.
  destruct (git_error path) as [e|] eqn:He.
  - specialize (Hgit e He). cbn [bind tell raise try_except].
    rewrite Hgit. now eexists.
  - destruct (w_git w path) as [|rc out]; [now eexists|].
    destruct (Z.eqb rc 0); now eexists.
Qed.

Variable directory : string.
Variable spec : option PathSpec.
Variable git_only_signatures : bool.
Variable tracked : gset string.

Lemma filter_dirs_returns (root : string) (dirnames : list string) :
  returns (Utils.filter_dirs w directory spec root dirnames).
Proof.
  apply returns_foldM. intros d fd.
  apply returns_bind; [apply should_exclude_returns | intros; apply returns_ret].
Qed.

Lemma scan_file_returns (root filename : string) (acc : list string * list string) :
  returns (Utils.scan_file w directory spec git_only_signatures tracked root filename acc).
Proof.
  unfold Utils.scan_file.
  apply returns_bind; [apply should_exclude_returns | intros excluded _].
  destruct excluded; [apply returns_ret|].
  apply returns_bind; [apply is_binary_file_returns | intros binary _].
  destruct binary; [apply returns_ret|].
  apply returns_bind.
  - unfold stat_size, print.
    destruct (w_stat_size w _) as [[]|size]; try now eexists.
    cbn [bind tell ret]. destruct (Z.gtb size Utils.size_limit); now eexists.
  - intros skip _. destruct skip; [apply returns_ret|].
    destruct (_ && _); apply returns_ret.
Qed.

Lemma scan_body_returns (root : string) (dirnames filenames : list string)
      (acc : list string * list string) :
  returns (Utils.scan_body w directory spec git_only_signatures tracked
                           root dirnames filenames acc).
Proof.
  unfold Utils.scan_body.
  apply returns_bind; [apply filter_dirs_returns | intros fd _].
  apply returns_bind; [|intros; apply returns_ret].
  apply returns_foldM. intros; apply scan_file_returns.
Qed.

End ScanReturns.

(** The scan returns a result whenever [stat] answers for the entries it
    examines and git, if it cannot be run, fails in a way that is caught;
    whatever else the file system and git do. *)
Lemma scan_project_files_returns {F : Faults} (w : world) (directory : string)
      (spec : option PathSpec) (git_only_signatures : bool) :
  stat_never_raises -> git_errors_are_caught directory ->
  returns (Utils.scan_project_files w directory spec git_only_signatures).
Proof.
  intros Hstat Hgit. unfold Utils.scan_project_files.
  apply returns_bind.
  { unfold Utils.is_git_repo, os_path_isdir. destruct (stat_error _); now eexists. }
  intros repo _.
  apply returns_bind.
  { destruct repo; [now apply get_git_tracked_files_returns | apply returns_ret]. }
  intros tracked _.
  apply returns_bind; [|intros; apply returns_ret].
  apply os_walk_returns. intros; now apply scan_body_returns.
Qed.

(* ===================================================================== *)
(** ** The scan: what it touches and what it collects *)
(* ===================================================================== *)

Lemma sat_result {A} (EvP : event -> Prop) (Q : A -> Prop) (m : M A) :
  sat EvP Q m -> sat EvP (fun a => Q a /\ result m = Ok a) m.
Proof. intros [Ht Hr]. split; [exact Ht | intros a Ha; split; [apply Hr, Ha | exact Ha]]. Qed.

Section ScanInvariant.
Context {F : Faults}.
Variable w : world.
Variable directory : string.
Variable spec : option PathSpec.
Variable git_only_signatures : bool.
Variable tracked : gset string.

Variable name_ok : string -> bool.
Variable Good : string -> Prop.      (* on the directories the walk lists *)
Variable EvP : event -> Prop.        (* on the calls it makes *)
Variable FileP : string -> Prop.     (* on the files it admits *)

Hypothesis scandir_ok : forall top, Good top -> EvP (EvScandir top).
Hypothesis entry_ok :
  forall top x, Good top -> name_ok x = true ->
    let f := OsPath.join top x in
    EvP (EvIsDir (PathLib.Path_of f)) /\ EvP (EvOpen f) /\
    (forall n, EvP (EvRead f n)) /\ EvP (EvStat f) /\ FileP f.
Hypothesis match_ok : forall rel, EvP (EvMatchFile rel).
Hypothesis print_ok : forall msg, EvP (EvPrint msg).
Hypothesis descend_ok :
  forall top d, Good top -> name_ok d = true ->
    result (Utils.should_exclude w (PathLib.Path_of (OsPath.join top d))
                                 (PathLib.Path_of directory) spec) = Ok false ->
    Good (OsPath.join top d).

Let acc_ok := scan_acc_ok w git_only_signatures tracked FileP.

Lemma should_exclude_sat (path base : Path) :
  EvP (EvIsDir path) ->
  sat EvP (fun _ => True) (Utils.should_exclude w path base spec).
Proof.
  intros Hp. unfold Utils.should_exclude.
  apply sat_try_except; [|intros; now apply sat_ret].
  eapply sat_bind with (QA := fun _ => True).
  { destruct (relative_to_cases path base) as [[r ->] | ->];
      [now apply sat_ret | apply sat_raise]. }
  intros rel _.
  eapply sat_bind with (QA := fun _ => True).
  { unfold is_dir. eapply sat_bind; [apply sat_tell, Hp | intros _ _].
    destruct (stat_error path) as [e|]; [|now apply sat_ret].
    destruct (pathlib_ignores e); [now apply sat_ret | apply sat_raise]. }
  intros d _.
  destruct (Utils.matches_default _); [now apply sat_ret|].
  destruct spec as [sp|]; [|now apply sat_ret].
  unfold match_file.
  eapply sat_bind; [apply sat_tell, match_ok | intros; now apply sat_ret].
Qed.

Lemma is_binary_file_sat (file_path : string) :
  EvP (EvOpen file_path) -> (forall n, EvP (EvRead file_path n)) ->
  sat EvP (fun _ => True) (Utils.is_binary_file w file_path).
Proof.
  intros Ho Hr. unfold Utils.is_binary_file.
  destruct (Utils.has_binary_extension file_path); [now apply sat_ret|].
  apply sat_try_except; [|intros; now apply sat_ret].
  eapply sat_bind with (QA := fun _ => True); [|intros; now apply sat_ret].
  unfold open_read.
  eapply sat_bind; [apply sat_tell, Ho | intros _ _].
  destruct (w_open_rb w file_path); [apply sat_raise|].
  eapply sat_bind; [apply sat_tell, Hr | intros; now apply sat_ret].
Qed.

Lemma scan_file_sat (root filename : string) (acc : list string * list string) :
  Good root -> name_ok filename = true -> acc_ok acc ->
  sat EvP acc_ok
      (Utils.scan_file w directory spec git_only_signatures tracked root filename acc).
Proof.
  intros Hg Hn Hacc.
  destruct (entry_ok root filename Hg Hn) as (Hd & Ho & Hr & Hs & Hf).
  unfold Utils.scan_file.
  eapply sat_bind; [apply should_exclude_sat, Hd | intros excluded _].
  destruct excluded; [now apply sat_ret|].
  eapply sat_bind; [apply is_binary_file_sat; assumption | intros binary _].
  destruct binary; [now apply sat_ret|].
  eapply sat_bind with (QA := fun _ => True).
  { apply sat_try_except; [|intros; now apply sat_ret].
    eapply sat_bind with (QA := fun _ => True).
    - unfold stat_size.
      eapply sat_bind; [apply sat_tell, Hs | intros _ _].
      destruct (w_stat_size w _); [apply sat_raise | now apply sat_ret].
    - intros size _. destruct (Z.gtb size Utils.size_limit); [|now apply sat_ret].
      eapply sat_bind; [apply sat_tell, print_ok | intros; now apply sat_ret]. }
  intros skip _. destruct skip; [now apply sat_ret|].
  unfold acc_ok, scan_acc_ok in Hacc |- *.
  destruct Hacc as [Hall Hsig].
  fold (candidate_condition w git_only_signatures tracked (OsPath.join root filename)).
  assert (Hall' : Forall FileP (fst acc ++ [OsPath.join root filename])).
  { apply Forall_app. split; [exact Hall | now repeat constructor]. }
  destruct (candidate_condition w git_only_signatures tracked
                                (OsPath.join root filename)) eqn:Hc;
    apply sat_ret; split;
    try exact Hall'; cbn [fst snd]; rewrite List.filter_app, Hsig; simpl; rewrite Hc;
    [reflexivity | now rewrite app_nil_r].
Qed.

Lemma filter_dirs_sat (root : string) (dirnames : list string) :
  Good root -> Forall (fun d => name_ok d = true) dirnames ->
  sat EvP (fun filtered_dirs =>
             forall d, In d filtered_dirs -> In d dirnames /\ Good (OsPath.join root d))
      (Utils.filter_dirs w directory spec root dirnames).
Proof.
  intros Hg Hds. unfold Utils.filter_dirs.
  apply sat_foldM with (P := fun d => In d dirnames /\ name_ok d = true).
  - intros d fd [Hin Hn] Hfd.
    destruct (entry_ok root d Hg Hn) as (Hd & _).
    eapply sat_bind; [apply sat_result, should_exclude_sat, Hd | intros excluded [_ He]].
    apply sat_ret. destruct excluded; [exact Hfd|].
    intros d' Hd'. apply in_app_or in Hd' as [Hd'|[<-|[]]]; [now apply Hfd|].
    split; [exact Hin | now apply descend_ok].
  - apply List.Forall_forall. intros d Hd. split; [exact Hd|].
    rewrite List.Forall_forall in Hds. now apply Hds.
  - intros d [].
Qed.

Lemma scan_body_sat (root : string) (dirnames filenames : list string)
      (acc : list string * list string) :
  Good root -> acc_ok acc ->
  Forall (fun d => name_ok d = true) dirnames ->
  Forall (fun f => name_ok f = true) filenames ->
  sat EvP (fun r => acc_ok (snd r) /\
                    forall d, In d (fst r) -> In d dirnames /\ Good (OsPath.join root d))
      (Utils.scan_body w directory spec git_only_signatures tracked
                       root dirnames filenames acc).
Proof.
  intros Hg Hacc Hds Hfs. unfold Utils.scan_body.
  eapply sat_bind; [now apply filter_dirs_sat | intros fd Hfd].
  eapply sat_bind.
  - apply sat_foldM with (P := fun f => name_ok f = true) (I := acc_ok);
      [|exact Hfs | exact Hacc].
    intros f s Hf Hs. now apply scan_file_sat.
  - intros acc' Hacc'. apply sat_ret. now split.
Qed.

Lemma scan_walk_sat (n : node) :
  names_ok name_ok n = true -> Good directory ->
  sat EvP acc_ok
      (Utils.os_walk (Utils.scan_body w directory spec git_only_signatures tracked)
                     directory n ([], [])).
Proof.
  intros Hn Hg.
  apply os_walk_invariant with (name_ok := name_ok) (Good := Good);
    try assumption.
  - intros. now apply scan_body_sat.
  - split; [constructor | reflexivity].
Qed.

End ScanInvariant.

(** The three stages of [scan_project_files]: the repository test, the
    git query when it is a repository, and the walk. *)
Lemma scan_project_files_run (w : world) (directory : string)
      (spec : option PathSpec) (git_only_signatures : bool) :
  let git_dir := PathLib.Path_of (OsPath.join directory ".git") in
  exists tracked acc t_git t_walk,
    (if w_is_dir w git_dir then Utils.get_git_tracked_files w directory else ret ∅)
    = (Ok tracked, t_git) /\
    Utils.os_walk (Utils.scan_body w directory spec git_only_signatures tracked)
                  directory (w_tree w) ([], []) = (Ok acc, t_walk) /\
    Utils.scan_project_files w directory spec git_only_signatures =
    (Ok {| Utils.all_files := sorted (fst acc);
           Utils.signature_candidates := sorted (snd acc);
           Utils.git_tracked := tracked |},
     EvIsDir git_dir :: t_git ++ t_walk).
Proof.
  intros git_dir.
  assert (Hgit : returns (if w_is_dir w git_dir
                          then Utils.get_git_tracked_files w directory else ret ∅)).
  { destruct (w_is_dir w git_dir);
      [apply get_git_tracked_files_returns, no_faults_git | apply returns_ret]. }
  destruct Hgit as [tracked Htracked].
  destruct (if w_is_dir w git_dir then _ else _) as [r_git t_git] eqn:Egit.
  simpl in Htracked. subst r_git.
  destruct (os_walk_returns
              (Utils.scan_body w directory spec git_only_signatures tracked)
              (fun top ds fs acc =>
                 scan_body_returns w no_faults_stat directory spec git_only_signatures
                                   tracked top ds fs acc)
              (w_tree w) directory ([], [])) as [acc Hacc].
  destruct (Utils.os_walk _ directory (w_tree w) ([], [])) as [r_walk t_walk] eqn:Ewalk.
  simpl in Hacc. subst r_walk.
  exists tracked, acc, t_git, t_walk.
  split; [reflexivity|]. split; [exact Ewalk|].
  unfold Utils.scan_project_files, Utils.is_git_repo, os_path_isdir.
  fold git_dir. cbn [bind tell ret stat_error no_faults]. rewrite Egit. cbn [bind]. rewrite Ewalk.
  cbn [bind ret app]. now rewrite app_nil_r.
Qed.

(* ===================================================================== *)
(** ** Signature candidates, visible files and their order *)
(* ===================================================================== *)

Lemma names_ok_any (n : node) : names_ok (fun _ => true) n = true.
Proof.
  induction n as [name | name err cs IH] using node_nested_ind; [reflexivity|].
  simpl. apply forallb_forall. intros c Hc.
  rewrite List.Forall_forall in IH. now rewrite (IH c Hc).
Qed.

(** C5.  The scan returns, and in its result a file is a signature
    candidate exactly when it is among the visible files, its extension is
    one that [is_signature_file] recognises, and either git tracking is not
    required or its absolute path is in the tracked set.  So the candidates
    are among the visible files, and both lists are in ascending order. *)
Theorem signature_candidates_characterised
        (w : world) (directory : string) (spec : option PathSpec)
        (git_only_signatures : bool) :
  exists r,
    result (Utils.scan_project_files w directory spec git_only_signatures) = Ok r /\
    (forall f,
        In f (Utils.signature_candidates r) <->
        In f (Utils.all_files r) /\
        Utils.is_signature_file f = true /\
        (git_only_signatures = false \/
         OsPath.abspath (w_cwd w) f ∈ Utils.git_tracked r)) /\
    incl (Utils.signature_candidates r) (Utils.all_files r) /\
    StronglySorted (fun a b => String.leb a b = true) (Utils.all_files r) /\
    StronglySorted (fun a b => String.leb a b = true) (Utils.signature_candidates r).
Proof.
  destruct (scan_project_files_run w directory spec git_only_signatures)
    as (tracked & acc & t_git & t_walk & _ & Hwalk & Hrun).
  rewrite Hrun. eexists. split; [reflexivity|]. cbn [Utils.all_files
    Utils.signature_candidates Utils.git_tracked].
  assert (Hacc : scan_acc_ok w git_only_signatures tracked (fun _ => True) acc).
  { eapply (scan_walk_sat w directory spec git_only_signatures tracked
              (fun _ => true) (fun _ => True) (fun _ => True) (fun _ => True));
      try (intros; exact I); try apply names_ok_any.
    - intros. repeat split.
    - now rewrite Hwalk. }
  destruct Hacc as [_ Hsig].
  assert (Hiff : forall f,
    In f (sorted (snd acc)) <->
    In f (sorted (fst acc)) /\ Utils.is_signature_file f = true /\
    (git_only_signatures = false \/ OsPath.abspath (w_cwd w) f ∈ tracked)).
  { intros f. rewrite !sorted_In, Hsig, filter_In.
    unfold candidate_condition.
    rewrite andb_true_iff, orb_true_iff, negb_true_iff, bool_decide_eq_true.
    tauto. }
  split; [exact Hiff|]. split.
  - intros f Hf. now apply Hiff in Hf.
  - split; apply sorted_StronglySorted.
Qed.

(* ===================================================================== *)
(** ** Failures: the root directory, per-entry problems, git *)
(* ===================================================================== *)

(** What a scan that returns went through: the repository test, the git
    query when it is a repository, and the walk. *)
Lemma scan_project_files_stages {F : Faults} (w : world) (directory : string)
      (spec : option PathSpec) (git_only_signatures : bool) (r : Utils.scan_result) :
  result (Utils.scan_project_files w directory spec git_only_signatures) = Ok r ->
  exists repo tracked acc,
    result (Utils.is_git_repo w directory) = Ok repo /\
    result (if repo then Utils.get_git_tracked_files w directory else ret ∅) = Ok tracked /\
    result (Utils.os_walk (Utils.scan_body w directory spec git_only_signatures tracked)
                          directory (w_tree w) ([], [])) = Ok acc /\
    r = {| Utils.all_files := sorted (fst acc);
           Utils.signature_candidates := sorted (snd acc);
           Utils.git_tracked := tracked |}.
Proof.
  unfold Utils.scan_project_files. rewrite result_bind.
  destruct (result (Utils.is_git_repo w directory)) as [repo|e] eqn:Hrepo; [|discriminate].
  rewrite result_bind.
  destruct (result (if repo then _ else _)) as [tracked|e] eqn:Htracked; [|discriminate].
  rewrite result_bind.
  destruct (result (Utils.os_walk _ directory (w_tree w) ([], []))) as [acc|e] eqn:Hwalk;
    [|discriminate].
  intros [= <-]. now exists repo, tracked, acc.
Qed.





(** C7, as the code has it.  When git is not installed or exits with a
    non-zero status (as it does outside a repository),
    [get_git_tracked_files] returns the empty set instead of raising, and a
    scan that meets no [stat] failure returns a result whose tracked set is
    empty.  (A git that cannot be run for another reason is not covered:
    see the counterexample.) *)
Theorem git_failure_gives_empty_set
        {F : Faults} (w : world) (directory : string) (spec : option PathSpec)
        (git_only_signatures : bool) :
  git_error directory = None ->
  git_query_fails w directory ->
  Utils.get_git_tracked_files w directory = (Ok ∅, [EvGitLsFiles directory]) /\
  (stat_never_raises ->
   exists r,
     result (Utils.scan_project_files w directory spec git_only_signatures) = Ok r /\
     Utils.git_tracked r = ∅).
Proof.
  intros Hrun Hfail.
  assert (Hgit : Utils.get_git_tracked_files w directory = (Ok ∅, [EvGitLsFiles directory])).
  { unfold git_query_fails in Hfail.
    unfold Utils.get_git_tracked_files, run_git_ls_files. rewrite Hrun.
    destruct (w_git w directory) as [|rc out]; [reflexivity|].
    destruct (Z.eqb_spec rc 0); [contradiction | reflexivity]. }
  split; [exact Hgit|].
  intros Hstat.
  assert (Hcaught : git_errors_are_caught directory)
    by (intros e He; rewrite Hrun in He; discriminate He).
  destruct (scan_project_files_returns w directory spec git_only_signatures Hstat Hcaught)
    as [r Hr].
  exists r. split; [exact Hr|].
  destruct (scan_project_files_stages w directory spec git_only_signatures r Hr)
    as (repo & tracked & acc & _ & Htracked & _ & ->).
  cbn [Utils.git_tracked]. destruct repo.
  - rewrite Hgit in Htracked. now injection Htracked.
  - now injection Htracked.
Qed.

Lemma git_failure_gives_empty_set_witness :
  git_error (Faults := no_faults) "proj" = None /\
  git_query_fails sample_world_without_git "proj" /\
  Utils.get_git_tracked_files sample_world_without_git "proj" =
  (Ok ∅, [EvGitLsFiles "proj"]) /\
  exists r,
    result (Utils.scan_project_files sample_world_without_git "proj" None true) = Ok r /\
    Utils.git_tracked r = ∅.
Proof.
  assert (Hstat : stat_never_raises (F := no_faults)) by (intros p e H; discriminate H).
  split; [reflexivity|]. split; [exact I|].
  pose proof (git_failure_gives_empty_set sample_world_without_git "proj" None true
                eq_refl I) as [Hgit Hscan].
  split; [exact Hgit | exact (Hscan Hstat)].
Defined.

(** C7 as stated fails: not every failure of the query is caught.  A git
    that is found but may not be executed makes [subprocess.run] raise
    [PermissionError], which is neither a [SubprocessError] nor a
    [FileNotFoundError]: it leaves [get_git_tracked_files] and then the
    scan. *)
Lemma git_that_may_not_run_raises :
  w_is_dir sample_world (PathLib.Path_of "proj/.git") = true /\
  Utils.get_git_tracked_files (F := git_not_executable) sample_world "proj" =
  (Raise PermissionError, [EvGitLsFiles "proj"]) /\
  Utils.scan_project_files (F := git_not_executable) sample_world "proj" None true =
  (Raise PermissionError, [EvIsDir (PathLib.Path_of "proj/.git"); EvGitLsFiles "proj"]).
Proof. split; [reflexivity|]. split; reflexivity. Qed.

(* ===================================================================== *)
(** ** Paths built by the walk *)
(* ===================================================================== *)

Section PathFacts.
Import Str StrFacts PathLib.

Lemma split_app_sep (sep : ascii) (a b : string) :
  split sep (a +:+ String sep b) = split sep a ++ split sep b.
Proof.
  induction a as [|c a IH].
  - rewrite append_nil_l. simpl. now rewrite Ascii.eqb_refl.
  - rewrite append_cons. simpl. rewrite IH.
    destruct (Ascii.eqb c sep); [reflexivity|].
    pose proof (split_not_nil sep a) as Hne.
    destruct (split sep a); [congruence | reflexivity].
Qed.

Lemma split_no_sep (sep : ascii) (s : string) :
  contains sep s = false -> split sep s = [s].
Proof.
  induction s as [|c s IH]; [reflexivity|].
  simpl. intros H. apply orb_false_elim in H as [Hc Hs].
  rewrite Ascii.eqb_sym, Hc. now rewrite (IH Hs).
Qed.

Lemma valid_name_inv (x : string) :
  valid_name x = true ->
  is_component x = true /\ contains slash x = false /\ startswith x "/" = false.
Proof.
  unfold valid_name, is_component. intros H.
  apply andb_prop in H as [H Hs]. apply negb_true_iff in Hs.
  split; [exact H|]. split; [exact Hs|].
  destruct x as [|c x]; [reflexivity|].
  cbn [contains] in Hs. apply orb_false_elim in Hs as [Hc _].
  cbn [startswith]. unfold slash in Hc. now rewrite Hc.
Qed.

Lemma Path_of_parts_snoc (t x : string) :
  valid_name x = true ->
  List.filter is_component (split slash (t +:+ "/" +:+ x)) =
  List.filter is_component (split slash t) ++ [x].
Proof.
  intros Hx. apply valid_name_inv in Hx as (Hc & Hs & _).
  change ("/" +:+ x) with (String slash x).
  rewrite split_app_sep, List.filter_app, (split_no_sep _ _ Hs).
  simpl. now rewrite Hc.
Qed.

(** Joining a listed name to a directory adds one component to its path. *)
Lemma Path_of_join (top x : string) :
  valid_name x = true ->
  Path_of (OsPath.join top x) = child (Path_of top) x.
Proof.
  intros Hx. pose proof (valid_name_inv x Hx) as (Hc & Hs & Hstart).
  unfold OsPath.join. rewrite Hstart.
  destruct top as [|c top].
  - cbn [String.eqb orb]. rewrite append_nil_l.
    unfold Path_of, child. cbn [anchored parts].
    rewrite Hstart, (split_no_sep _ _ Hs). cbn [List.filter split startswith app].
    now rewrite Hc.
  - cbn [String.eqb orb].
    destruct (endswith (String c top) "/") eqn:He.
    + apply endswith_inv in He as [t Ht]. rewrite Ht.
      unfold Path_of, child. cbn [anchored parts]. f_equal.
      * rewrite <- Ht. reflexivity.
      * rewrite append_assoc, (Path_of_parts_snoc t x Hx).
        change "/" with (String slash "").
        rewrite split_app_sep, List.filter_app. simpl. now rewrite app_nil_r.
    + unfold Path_of, child. cbn [anchored parts]. f_equal.
      apply (Path_of_parts_snoc (String c top) x Hx).
Qed.

Lemma strip_prefix_Some (pre l r : list string) :
  strip_prefix pre l = Some r <-> l = pre ++ r.
Proof.
  revert l. induction pre as [|x pre IH]; intros l; simpl.
  - split; congruence.
  - destruct l as [|y l]; [split; discriminate|].
    destruct (String.eqb_spec x y) as [->|Hne].
    + rewrite IH. split; congruence.
    + split; [discriminate | congruence].
Qed.

Lemma is_relative_to_iff (p d : Path) :
  is_relative_to p d = true <->
  anchored p = anchored d /\ exists r, parts p = parts d ++ r.
Proof.
  unfold is_relative_to. rewrite andb_true_iff, Bool.eqb_true_iff.
  destruct (strip_prefix (parts d) (parts p)) as [r|] eqn:Hs.
  - apply strip_prefix_Some in Hs. split; [intros [Ha _]; eauto | tauto].
  - split; [intros [_ H]; discriminate|].
    intros [_ [r Hr]]. apply strip_prefix_Some in Hr. congruence.
Qed.

Lemma strictly_below_iff (p d : Path) :
  strictly_below p d = true <->
  anchored p = anchored d /\ exists r, r <> [] /\ parts p = parts d ++ r.
Proof.
  unfold strictly_below. rewrite andb_true_iff, Bool.eqb_true_iff.
  destruct (strip_prefix (parts d) (parts p)) as [r|] eqn:Hs.
  - apply strip_prefix_Some in Hs. split.
    + intros [Ha Hr]. split; [exact Ha|]. exists r.
      split; [destruct r; [discriminate | discriminate] | exact Hs].
    + intros [Ha (r' & Hne & Hr')]. split; [exact Ha|].
      rewrite Hs in Hr'. apply app_inv_head in Hr'. subst r'.
      destruct r; [congruence | reflexivity].
  - split; [intros [_ H]; discriminate|].
    intros [_ (r & _ & Hr)]. apply strip_prefix_Some in Hr. congruence.
Qed.

Lemma strictly_below_relative (p d : Path) :
  strictly_below p d = true -> is_relative_to p d = true.
Proof.
  rewrite strictly_below_iff, is_relative_to_iff.
  intros [Ha (r & _ & Hr)]. eauto.
Qed.

(** What lies strictly below [d] has its parent at [d] or below. *)
Lemma strictly_below_child (p d : Path) (x : string) :
  strictly_below (child p x) d = true -> is_relative_to p d = true.
Proof.
  rewrite strictly_below_iff, is_relative_to_iff. cbn [child anchored parts].
  intros [Ha (r & Hne & Hr)]. split; [exact Ha|].
  destruct (exists_last Hne) as (r' & y & ->).
  rewrite app_assoc in Hr. apply app_inj_tail in Hr as [Hr _]. eauto.
Qed.

Lemma is_relative_to_child (p d : Path) (x : string) :
  is_relative_to (child p x) d = true ->
  is_relative_to p d = true \/ child p x = d.
Proof.
  rewrite !is_relative_to_iff. cbn [child anchored parts].
  intros [Ha (r & Hr)].
  destruct r as [|y r0].
  - right. rewrite app_nil_r in Hr. destruct d as [a ps]. simpl in *.
    unfold child. now subst.
  - left. split; [exact Ha|].
    assert (Hne : y :: r0 <> []) by discriminate.
    destruct (exists_last Hne) as (r' & z & Hz). rewrite Hz in Hr.
    rewrite app_assoc in Hr. apply app_inj_tail in Hr as [Hr _]. eauto.
Qed.

Lemma not_relative_to_descendant (base d : Path) :
  strictly_below d base = true -> is_relative_to base d = false.
Proof.
  intros Hd. destruct (is_relative_to base d) eqn:Hb; [|reflexivity].
  apply strictly_below_iff in Hd as [_ (r & Hne & Hr)].
  apply is_relative_to_iff in Hb as [_ (r' & Hr')].
  rewrite Hr, <- app_assoc in Hr'.
  apply (f_equal (@length _)) in Hr'. rewrite !length_app in Hr'.
  destruct r; [congruence | simpl in Hr'; lia].
Qed.

End PathFacts.

(* ===================================================================== *)
(** ** Pruning of excluded directories *)
(* ===================================================================== *)

(** The directories that stay in [dirnames] are among those that
    [should_exclude] does not exclude. *)
Lemma filter_dirs_kept (w : world) (directory : string) (spec : option PathSpec)
      (root : string) (dirnames : list string) :
  forall kept d,
    result (Utils.filter_dirs w directory spec root dirnames) = Ok kept ->
    In d kept ->
    In d dirnames /\
    result (Utils.should_exclude w (PathLib.Path_of (OsPath.join root d))
                                 (PathLib.Path_of directory) spec) = Ok false.
Proof.
  unfold Utils.filter_dirs.
  assert (H : forall ds fd0 kept d,
    result (foldM (fun d filtered_dirs =>
                     do excluded <- Utils.should_exclude w
                          (PathLib.Path_of (OsPath.join root d))
                          (PathLib.Path_of directory) spec;
                     ret (if excluded then filtered_dirs else filtered_dirs ++ [d]))
                  ds fd0) = Ok kept ->
    In d kept ->
    In d fd0 \/
    (In d ds /\
     result (Utils.should_exclude w (PathLib.Path_of (OsPath.join root d))
                                  (PathLib.Path_of directory) spec) = Ok false)).
  { induction ds as [|x ds IH]; intros fd0 kept d Hk Hd.
    - simpl in Hk. injection Hk as <-. now left.
    - cbn [foldM] in Hk. rewrite !result_bind in Hk.
      destruct (result (Utils.should_exclude w _ _ spec)) as [excluded|e] eqn:Hx;
        [|discriminate].
      cbn [result ret fst] in Hk.
      destruct (IH _ _ _ Hk Hd) as [Hin | [Hin Hr]].
      + destruct excluded; [now left|].
        apply in_app_or in Hin as [Hin | [<- | []]]; [now left|].
        right. split; [now left | exact Hx].
      + right. split; [now right | exact Hr]. }
  intros kept d Hk Hd. destruct (H _ _ _ _ Hk Hd) as [[] | Hr]. exact Hr.
Qed.

Section Pruning.
Import PathLib.
Variable w : world.
Variable directory : string.
Variable spec : option PathSpec.
Variable git_only_signatures : bool.
Variable D : Path.

Hypothesis D_below_root : strictly_below D (Path_of directory) = true.
Hypothesis D_excluded :
  result (Utils.should_exclude w D (Path_of directory) spec) = Ok true.

Let clear_of_D (ev : event) : Prop :=
  (forall p, touches ev = Some p -> strictly_below p D = false) /\
  (forall top, ev = EvScandir top -> Path_of top <> D).

Let outside_D (top : string) : Prop := is_relative_to (Path_of top) D = false.

Lemma entry_clear_of_D (top x : string) :
  outside_D top -> valid_name x = true ->
  strictly_below (Path_of (OsPath.join top x)) D = false.
Proof.
  intros Hout Hx. rewrite (Path_of_join top x Hx).
  destruct (strictly_below (child (Path_of top) x) D) eqn:Hb; [|reflexivity].
  apply strictly_below_child in Hb. unfold outside_D in Hout. congruence.
Qed.

Lemma pruned_walk (tracked : gset string) :
  well_named (w_tree w) = true ->
  sat clear_of_D
      (scan_acc_ok w git_only_signatures tracked
                   (fun f => strictly_below (Path_of f) D = false))
      (Utils.os_walk (Utils.scan_body w directory spec git_only_signatures tracked)
                     directory (w_tree w) ([], [])).
Proof.
  intros Hwf.
  apply scan_walk_sat with (name_ok := valid_name) (Good := outside_D).
  - intros top Hout. split.
    + intros p [= <-].
      destruct (strictly_below (Path_of top) D) eqn:Hb; [|reflexivity].
      apply strictly_below_relative in Hb. unfold outside_D in Hout. congruence.
    + intros top' [= <-] Heq. unfold outside_D in Hout.
      assert (Hself : is_relative_to D D = true).
      { apply is_relative_to_iff. split; [reflexivity|]. exists []. now rewrite app_nil_r. }
      rewrite Heq, Hself in Hout. discriminate.
  - intros top x Hout Hx f. subst f.
    pose proof (entry_clear_of_D top x Hout Hx) as Hclear.
    assert (Hev : forall ev, touches ev = Some (Path_of (OsPath.join top x)) ->
                    (forall top', ev <> EvScandir top') -> clear_of_D ev).
    { intros ev Hev Hns. split.
      - intros p Hp. rewrite Hev in Hp. injection Hp as <-. exact Hclear.
      - intros top' ->. now destruct (Hns top'). }
    split; [|split; [|split; [|split]]]; try intros n;
      try (apply Hev; [reflexivity | intros; discriminate]).
    exact Hclear.
  - intros rel. split; [intros p [=] | intros top [=]].
  - intros msg. split; [intros p [=] | intros top [=]].
  - intros top d Hout Hd Hkeep. unfold outside_D.
    rewrite (Path_of_join top d Hd) in Hkeep |- *.
    destruct (is_relative_to (child (Path_of top) d) D) eqn:Hrel; [|reflexivity].
    apply is_relative_to_child in Hrel as [Hrel | Heq].
    + unfold outside_D in Hout. congruence.
    + rewrite Heq in Hkeep. congruence.
  - exact Hwf.
  - now apply not_relative_to_descendant.
Qed.

Lemma git_query_clear_of_D (t_git : list event) (tracked : gset string) :
  (if w_is_dir w (Path_of (OsPath.join directory ".git"))
   then Utils.get_git_tracked_files w directory else ret ∅) = (Ok tracked, t_git) ->
  Forall clear_of_D t_git.
Proof.
  destruct (w_is_dir w _).
  - unfold Utils.get_git_tracked_files, run_git_ls_files.
    destruct (w_git w directory) as [|rc out];
      [|destruct (Z.eqb rc 0)]; cbn; intros [= _ <-];
      repeat constructor; try (intros p [=]); intros top [=].
  - intros [= _ <-]. constructor.
Qed.

(** C1.  Let [D] be a path strictly below the scanned directory that
    [should_exclude] classifies as excluded.  Then [D] never stays in the
    list of directories to descend into; the scan returns; no file below
    [D] is among the visible files or the signature candidates; [D] itself
    is never listed (the walk does not descend into it); and no call made
    during the scan (listing, open, read, stat, is_dir) reaches a path
    below [D]. *)
Theorem excluded_directories_are_pruned :
  well_named (w_tree w) = true ->
  let run := Utils.scan_project_files w directory spec git_only_signatures in
  (forall root dirnames d kept,
      Path_of (OsPath.join root d) = D ->
      result (Utils.filter_dirs w directory spec root dirnames) = Ok kept ->
      ~ In d kept) /\
  exists r,
    result run = Ok r /\
    (forall f, In f (Utils.all_files r) -> strictly_below (Path_of f) D = false) /\
    (forall f, In f (Utils.signature_candidates r) ->
               strictly_below (Path_of f) D = false) /\
    (forall top, In (EvScandir top) (trace run) -> Path_of top <> D) /\
    (forall ev p, In ev (trace run) -> touches ev = Some p ->
                  strictly_below p D = false).
Proof.
  intros Hwf run. split.
  { intros root dirnames d kept HD Hk Hin.
    destruct (filter_dirs_kept w directory spec root dirnames kept d Hk Hin) as [_ Hr].
    rewrite HD in Hr. congruence. }
  subst run.
  destruct (scan_project_files_run w directory spec git_only_signatures)
    as (tracked & acc & t_git & t_walk & Hgit & Hwalk & Hrun).
  rewrite Hrun. eexists. split; [reflexivity|].
  cbn [Utils.all_files Utils.signature_candidates trace snd].
  destruct (pruned_walk tracked Hwf) as [Htrace Hacc].
  rewrite Hwalk in Htrace, Hacc. cbn [trace result fst snd] in Htrace, Hacc.
  destruct (Hacc acc eq_refl) as [Hall Hsig].
  rewrite List.Forall_forall in Hall.
  assert (Hclear : forall ev,
            In ev (EvIsDir (Path_of (OsPath.join directory ".git")) :: t_git ++ t_walk) ->
            clear_of_D ev).
  { intros ev [<- | Hin].
    - split; [|intros top [=]]. intros p [= <-].
      apply entry_clear_of_D; [|reflexivity].
      now apply not_relative_to_descendant.
    - apply in_app_or in Hin as [Hin | Hin].
      + pose proof (git_query_clear_of_D t_git tracked Hgit) as Hg.
        rewrite List.Forall_forall in Hg. exact (Hg ev Hin).
      + rewrite List.Forall_forall in Htrace. exact (Htrace ev Hin). }
  split; [|split; [|split]].
  - intros f Hf. apply (proj1 (sorted_In _ _)) in Hf. now apply Hall.
  - intros f Hf. apply (proj1 (sorted_In _ _)) in Hf. rewrite Hsig in Hf.
    apply filter_In in Hf as [Hf _]. now apply Hall.
  - intros top Hin. exact (proj2 (Hclear _ Hin) top eq_refl).
  - intros ev p Hin Hp. exact (proj1 (Hclear _ Hin) p Hp).
Qed.

End Pruning.

Lemma excluded_directories_are_pruned_witness :
  let D := PathLib.Path_of "proj/build" in
  let run := Utils.scan_project_files sample_world "proj" None true in
  PathLib.strictly_below D (PathLib.Path_of "proj") = true /\
  result (Utils.should_exclude sample_world D (PathLib.Path_of "proj") None) = Ok true /\
  well_named (w_tree sample_world) = true /\
  exists r,
    result run = Ok r /\
    (forall f, In f (Utils.all_files r) ->
               PathLib.strictly_below (PathLib.Path_of f) D = false) /\
    (forall f, In f (Utils.signature_candidates r) ->
               PathLib.strictly_below (PathLib.Path_of f) D = false) /\
    (forall top, In (EvScandir top) (trace run) -> PathLib.Path_of top <> D) /\
    (forall ev p, In ev (trace run) -> touches ev = Some p ->
                  PathLib.strictly_below p D = false).
Proof.
  intros D run.
  split; [reflexivity|]. split; [reflexivity|]. split; [reflexivity|].
  exact (proj2 (excluded_directories_are_pruned sample_world "proj" None true D
                  eq_refl eq_refl eq_refl)).
Defined.

(* ===================================================================== *)
(** ** The tree renderer *)
(* ===================================================================== *)

Section SortByKey.
Context {A K : Type} (le : K -> K -> bool) (key : A -> K).

Lemma insert_sorted_keyed (x : A) (l : list A) :
  insert_sorted (fun a b => le (fst a) (fst b)) (key x, x) (map (fun y => (key y, y)) l) =
  map (fun y => (key y, y)) (insert_sorted (fun a b => le (key a) (key b)) x l).
Proof.
  induction l as [|y l IH]; [reflexivity|].
  simpl. destruct (le (key x) (key y)); [reflexivity|]. now rewrite IH.
Qed.

(** Sorting the (key, item) pairs by key and dropping the keys sorts the
    items by their key. *)
Lemma sort_by_keyed (l : list A) :
  map snd (sort_by (fun a b => le (fst a) (fst b)) (map (fun y => (key y, y)) l)) =
  sort_by (fun a b => le (key a) (key b)) l.
Proof.
  assert (H : sort_by (fun a b => le (fst a) (fst b)) (map (fun y => (key y, y)) l) =
              map (fun y => (key y, y)) (sort_by (fun a b => le (key a) (key b)) l)).
  { induction l as [|x l IH]; [reflexivity|].
    simpl. rewrite IH. apply insert_sorted_keyed. }
  rewrite H, map_map. simpl. apply map_id.
Qed.

End SortByKey.



Section TreeRenderer.
Import Str StrFacts PathLib.
Variable w : world.
Variable spec : option PathSpec.

Lemma main_should_exclude_result (item path : Path) :
  result (Main.should_exclude w item path spec) = Ok (tree_excluded w path spec item).
Proof.
  unfold tree_excluded.
  assert (H : returns (Main.should_exclude w item path spec)).
  { unfold Main.should_exclude. destruct spec as [sp|]; [|now eexists].
    destruct (relative_to_cases item path) as [[r ->] | ->]; now eexists. }
  destruct H as [b Hb]. now rewrite Hb.
Qed.

Lemma keep_items_result (path : Path) (listed : list Main.entry) :
  result (Main.keep_items w path spec listed) =
  Ok (List.filter (fun it => negb (tree_excluded w path spec (fst it))) listed).
Proof.
  unfold Main.keep_items.
  enough (H : forall acc,
    result (foldM (fun item items =>
                     do excluded <- Main.should_exclude w (fst item) path spec;
                     ret (if excluded then items else items ++ [item])) listed acc) =
    Ok (acc ++ List.filter (fun it => negb (tree_excluded w path spec (fst it))) listed))
    by exact (H []).
  induction listed as [|x l IH]; intros acc.
  - simpl. now rewrite app_nil_r.
  - cbn [foldM List.filter]. rewrite !result_bind, main_should_exclude_result.
    cbn [result ret fst]. rewrite IH.
    destruct (tree_excluded w path spec (fst x)); simpl; [reflexivity|].
    now rewrite <- app_assoc.
Qed.

Lemma sort_items_result (items : list Main.entry) :
  result (Main.sort_items w items) =
  Ok (sort_by (fun a b => Main.key_le (tree_sort_key w (fst a)) (tree_sort_key w (fst b)))
              items).
Proof.
  unfold Main.sort_items.
  assert (H : result (Main.with_keys w items) =
              Ok (map (fun x => (tree_sort_key w (fst x), x)) items)).
  { induction items as [|x l IH]; [reflexivity|].
    cbn [Main.with_keys]. rewrite result_bind.
    change (result (is_dir w (fst x))) with (Ok (A := bool) (w_is_dir w (fst x))).
    cbv beta iota. rewrite result_bind, IH. reflexivity. }
  rewrite result_bind, H. cbn [result ret fst].
  f_equal.
  exact (sort_by_keyed (A := Main.entry) Main.key_le
                       (fun x => tree_sort_key w (fst x)) items).
Qed.





End TreeRenderer.

Section TreeListing.
Import Str StrFacts PathLib.
Variable w : world.
Variable spec : option PathSpec.

Lemma generate_tree_dir (name : string) (children : list node) (path : Path)
      (prefix : string) :
  Main.generate_tree w (Dir name None children) path spec prefix =
  do e <- path_exists w path;
  if negb e then ret [] else
  do items <- try_except
                (do_ tell (EvScandir (str path));
                 Main.keep_items w path spec
                   (map (fun c => (child path (node_name c),
                                   Main.generate_tree w c (child path (node_name c)) spec))
                        children))
                [ClsPermissionError] (fun _ => ret []);
  do items <- Main.sort_items w items;
  Main.render_items w prefix (length items) 0 items
                    (if String.eqb prefix "" then [str path] else []).
Proof. reflexivity. Qed.







End TreeListing.




(* ===================================================================== *)
(** ** The sample project, run *)
(* ===================================================================== *)

Example scan_sample_project :
  result (Utils.scan_project_files sample_world "proj" None true) =
  Ok {| Utils.all_files :=
          ["proj/A.PY"; "proj/README.md"; "proj/src/app.py"; "proj/src/build/x.js"];
        Utils.signature_candidates := ["proj/README.md"; "proj/src/app.py"];
        Utils.git_tracked :=
          list_to_set ["/home/dev/proj/README.md"; "/home/dev/proj/src/app.py"] |}.
Proof. vm_compute. reflexivity. Qed.

Example render_sample_project :
  result (Main.generate_tree sample_world sample_tree
                             (PathLib.Path_of "/home/dev/proj") None "") =
  Ok [ "/home/dev/proj";
       "├── build/";
       "│   └── dist/";
       "│       └── output.js";
       "├── locked/";
       "├── src/";
       "│   ├── build/";
       "│   │   └── x.js";
       "│   └── app.py";
       "├── A.PY";
       "├── big.log";
       "├── logo.png";
       "├── main.py";
       "└── README.md" ].
Proof. vm_compute. reflexivity. Qed.

(* ===================================================================== *)
(** ** What the default patterns exclude *)
(* ===================================================================== *)

Section DefaultPatterns.
Import Str StrFacts.

Lemma drop_last_snoc (s : string) (c : ascii) : drop_last (s +:+ String c "") = s.
Proof.
  induction s as [|d s IH]; [reflexivity|].
  rewrite append_cons. cbn [drop_last]. rewrite IH.
  destruct s; reflexivity.
Qed.

Lemma default_directory_matches (pattern rel : string) :
  endswith pattern "/" = true ->
  Utils.default_pattern_matches pattern rel = true ->
  startswith rel pattern = true \/
  (contains slash rel = true /\ rel = drop_last pattern).
Proof.
  intros Hp Hm. unfold Utils.default_pattern_matches in Hm. rewrite Hp in Hm.
  apply dir_pattern_matches_iff in Hm as [-> | [H | [Hc He]]].
  - left. apply startswith_refl.
  - now left.
  - right. split; [exact Hc|]. rewrite <- He. symmetry. apply drop_last_snoc.
Qed.

(** The whole default list at once: a relative path is excluded by the
    defaults exactly when it starts with one of the directory patterns, is
    the path ["__tests__/__snapshots__"] itself, ends in [".pyc"] or
    [".lock"], or is [".DS_Store"]. *)
Theorem default_exclusions_characterised (rel : string) :
  Utils.matches_default rel = true <->
  (exists d, In d default_directories /\ startswith rel d = true) \/
  rel = "__tests__/__snapshots__" \/
  endswith rel ".pyc" = true \/ endswith rel ".lock" = true \/
  rel = ".DS_Store".
Proof.
  rewrite matches_default_iff. split.
  - intros (pattern & Hin & Hm).
    unfold Utils.DEFAULT_EXCLUSIONS in Hin. cbn [In] in Hin.
    repeat (destruct Hin as [<- | Hin]);
      try contradiction;
      try (apply default_directory_matches in Hm; [|reflexivity];
           destruct Hm as [Hs | [Hc He]];
           [ left; eexists; split; [|exact Hs]; vm_compute; tauto
           | vm_compute in He; subst rel; first [discriminate Hc | now right; left] ]).
    + right; right; left.
      unfold Utils.default_pattern_matches, Utils.wildcard_pattern_matches in Hm.
      cbn in Hm. exact Hm.
    + right; right; right; right. cbn in Hm. now apply String.eqb_eq in Hm.
    + right; right; right; left.
      unfold Utils.default_pattern_matches, Utils.wildcard_pattern_matches in Hm.
      cbn in Hm. exact Hm.
  - intros [(d & Hd & Hs) | [-> | [H | [H | ->]]]].
    + exists d. unfold default_directories in Hd.
      apply filter_In in Hd as [Hin Hsl]. split; [exact Hin|].
      unfold Utils.default_pattern_matches. rewrite Hsl.
      apply dir_pattern_matches_iff. now right; left.
    + exists "__tests__/__snapshots__/". split; [vm_compute; tauto | reflexivity].
    + exists "*.pyc". split; [vm_compute; tauto|].
      unfold Utils.default_pattern_matches, Utils.wildcard_pattern_matches. cbn. exact H.
    + exists "*.lock". split; [vm_compute; tauto|].
      unfold Utils.default_pattern_matches, Utils.wildcard_pattern_matches. cbn. exact H.
    + exists ".DS_Store". split; [vm_compute; tauto | reflexivity].
Qed.

End DefaultPatterns.

Section FileAndWildcardPatterns.
Import Str StrFacts.

(** A relative path without ["/"] (an entry of the scanned directory that
    is not itself a directory) is excluded by the defaults only through the
    file patterns: a plain file called [build] or [node_modules] is kept. *)
Theorem top_level_file_exclusions (rel : string) :
  contains slash rel = false ->
  (Utils.matches_default rel = true <->
   endswith rel ".pyc" = true \/ endswith rel ".lock" = true \/ rel = ".DS_Store").
Proof.
  intros Hns. rewrite matches_default_iff. split.
  - intros (pattern & Hin & Hm).
    unfold Utils.DEFAULT_EXCLUSIONS in Hin. cbn [In] in Hin.
    repeat (destruct Hin as [<- | Hin]);
      try contradiction;
      try (exfalso;
           apply default_directory_matches in Hm; [|reflexivity];
           destruct Hm as [Hs | [Hc _]]; [|congruence];
           apply startswith_inv in Hs as [t ->];
           rewrite contains_app in Hns;
           apply orb_false_elim in Hns as [Hns _]; discriminate Hns).
    + left.
      unfold Utils.default_pattern_matches, Utils.wildcard_pattern_matches in Hm.
      cbn in Hm. exact Hm.
    + right; right. cbn in Hm. now apply String.eqb_eq in Hm.
    + right; left.
      unfold Utils.default_pattern_matches, Utils.wildcard_pattern_matches in Hm.
      cbn in Hm. exact Hm.
  - intros [H | [H | ->]].
    + exists "*.pyc". split; [vm_compute; tauto|].
      unfold Utils.default_pattern_matches, Utils.wildcard_pattern_matches. cbn. exact H.
    + exists "*.lock". split; [vm_compute; tauto|].
      unfold Utils.default_pattern_matches, Utils.wildcard_pattern_matches. cbn. exact H.
    + exists ".DS_Store". split; [vm_compute; tauto | reflexivity].
Qed.

Lemma top_level_file_exclusions_witness :
  contains slash "build" = false /\
  (Utils.matches_default "build" = true <->
   endswith "build" ".pyc" = true \/ endswith "build" ".lock" = true \/
   "build" = ".DS_Store").
Proof.
  split; [reflexivity|]. exact (top_level_file_exclusions "build" eq_refl).
Defined.

Lemma length_split (c : ascii) (s : string) :
  length (split c s) = S (count_char c s).
Proof.
  induction s as [|d s IH]; [reflexivity|].
  simpl. destruct (Ascii.eqb d c); simpl; [now rewrite IH|].
  pose proof (split_not_nil c s) as Hne.
  destruct (split c s); [congruence | exact IH].
Qed.

(** A default-style pattern with exactly one ["*"] is a prefix test and a
    suffix test, made independently of each other (so the two may overlap
    in the path). *)
Theorem single_wildcard_is_prefix_and_suffix (p0 p1 rel : string) :
  contains "*"%char p0 = false ->
  contains "*"%char p1 = false ->
  endswith (p0 +:+ "*" +:+ p1) "/" = false ->
  Utils.default_pattern_matches (p0 +:+ "*" +:+ p1) rel =
  startswith rel p0 && endswith rel p1.
Proof.
  intros H0 H1 Hsl. unfold Utils.default_pattern_matches. rewrite Hsl.
  change ("*" +:+ p1) with (String "*"%char p1).
  rewrite contains_app. cbn [contains]. rewrite Ascii.eqb_refl.
  cbn [orb]. rewrite orb_true_r.
  unfold Utils.wildcard_pattern_matches.
  rewrite split_app_sep, (split_no_sep _ _ H0), (split_no_sep _ _ H1).
  reflexivity.
Qed.

Lemma single_wildcard_is_prefix_and_suffix_witness :
  contains "*"%char "ab" = false /\ contains "*"%char "bc" = false /\
  endswith ("ab" +:+ "*" +:+ "bc") "/" = false /\
  Utils.default_pattern_matches ("ab" +:+ "*" +:+ "bc") "abc" =
  startswith "abc" "ab" && endswith "abc" "bc".
Proof.
  split; [reflexivity|]. split; [reflexivity|]. split; [reflexivity|].
  exact (single_wildcard_is_prefix_and_suffix "ab" "bc" "abc" eq_refl eq_refl eq_refl).
Defined.

(** A pattern with two or more ["*"] (and no trailing ["/"]) matches no
    path at all: only a split into exactly two parts is ever compared. *)
Theorem multiple_wildcards_never_match (pattern rel : string) :
  endswith pattern "/" = false ->
  2 <= count_char "*"%char pattern ->
  Utils.default_pattern_matches pattern rel = false.
Proof.
  intros Hsl Hc. unfold Utils.default_pattern_matches. rewrite Hsl.
  destruct (contains "*"%char pattern) eqn:Hstar.
  - unfold Utils.wildcard_pattern_matches. rewrite length_split.
    destruct (Nat.eqb_spec (S (count_char "*"%char pattern)) 2); [lia | reflexivity].
  - exfalso. clear Hsl.
    assert (H0 : count_char "*"%char pattern = 0); [|lia].
    clear Hc. induction pattern as [|d s IH]; [reflexivity|].
    cbn [contains count_char] in *.
    apply orb_false_elim in Hstar as [Hd Hs].
    rewrite Ascii.eqb_sym in Hd. rewrite Hd. now rewrite (IH Hs).
Qed.

Lemma multiple_wildcards_never_match_witness :
  endswith "*.min.*" "/" = false /\ 2 <= count_char "*"%char "*.min.*" /\
  Utils.default_pattern_matches "*.min.*" "app.min.js" = false.
Proof.
  split; [reflexivity|]. split; [vm_compute; lia|].
  apply multiple_wildcards_never_match; [reflexivity | vm_compute; lia].
Defined.

End FileAndWildcardPatterns.

(* ===================================================================== *)
(** ** The visible files are exactly the files that pass the filters *)
(* ===================================================================== *)

Section ScanResults.
Variable w : world.
Variable directory : string.
Variable spec : option PathSpec.
Variable git_only_signatures : bool.
Variable tracked : gset string.

Lemma should_exclude_scan_result (entry_path : string) :
  result (Utils.should_exclude w (PathLib.Path_of entry_path)
                               (PathLib.Path_of directory) spec) =
  Ok (scan_excluded w directory spec entry_path).
Proof.
  unfold scan_excluded.
  destruct (should_exclude_returns w no_faults_stat (PathLib.Path_of entry_path)
              (PathLib.Path_of directory) spec) as [b Hb].
  now rewrite Hb.
Qed.

Lemma filter_dirs_result (root : string) (dirnames : list string) :
  result (Utils.filter_dirs w directory spec root dirnames) =
  Ok (List.filter (fun d => negb (scan_excluded w directory spec (OsPath.join root d)))
                  dirnames).
Proof.
  unfold Utils.filter_dirs.
  enough (H : forall fd0,
    result (foldM (fun d filtered_dirs =>
                     do excluded <- Utils.should_exclude w
                          (PathLib.Path_of (OsPath.join root d))
                          (PathLib.Path_of directory) spec;
                     ret (if excluded then filtered_dirs else filtered_dirs ++ [d]))
                  dirnames fd0) =
    Ok (fd0 ++ List.filter
                 (fun d => negb (scan_excluded w directory spec (OsPath.join root d)))
                 dirnames)) by exact (H []).
  induction dirnames as [|d ds IH]; intros fd0.
  - simpl. now rewrite app_nil_r.
  - cbn [foldM List.filter]. rewrite !result_bind, should_exclude_scan_result.
    cbn [result ret fst]. rewrite IH.
    destruct (scan_excluded w directory spec (OsPath.join root d)); simpl;
      [reflexivity | now rewrite <- app_assoc].
Qed.

Lemma scan_file_result (root filename : string) (acc : list string * list string) :
  result (Utils.scan_file w directory spec git_only_signatures tracked root filename acc) =
  Ok (admit_file w directory spec git_only_signatures tracked root acc filename).
Proof.
  unfold Utils.scan_file, admit_file, admits.
  rewrite result_bind, should_exclude_scan_result.
  destruct (scan_excluded w directory spec (OsPath.join root filename)); [reflexivity|].
  cbn [negb andb]. rewrite result_bind.
  destruct (is_binary_file_returns w (OsPath.join root filename)) as [binary Hb].
  rewrite Hb. destruct binary; [reflexivity|]. cbn [negb].
  rewrite result_bind, result_try_except, result_bind.
  unfold stat_size at 1. rewrite result_bind. cbn [result tell fst].
  fold (candidate_condition w git_only_signatures tracked (OsPath.join root filename)).
  destruct (w_stat_size w (OsPath.join root filename)) as [e|size].
  - destruct e; reflexivity.
  - cbn [result ret fst]. unfold print.
    destruct (Z.gtb size Utils.size_limit); [reflexivity|].
    cbn [result ret fst negb].
    destruct (candidate_condition _ _ _ _); reflexivity.
Qed.

Lemma scan_files_result (root : string) (filenames : list string)
      (acc : list string * list string) :
  result (foldM (Utils.scan_file w directory spec git_only_signatures tracked root)
                filenames acc) =
  Ok (fold_left (admit_file w directory spec git_only_signatures tracked root)
                filenames acc).
Proof.
  revert acc. induction filenames as [|f fs IH]; intros acc; [reflexivity|].
  cbn [foldM fold_left]. rewrite result_bind, scan_file_result. apply IH.
Qed.

Lemma scan_body_result (root : string) (dirnames filenames : list string)
      (acc : list string * list string) :
  result (Utils.scan_body w directory spec git_only_signatures tracked
                          root dirnames filenames acc) =
  Ok (List.filter (fun d => negb (scan_excluded w directory spec (OsPath.join root d)))
                  dirnames,
      fold_left (admit_file w directory spec git_only_signatures tracked root)
                filenames acc).
Proof.
  unfold Utils.scan_body.
  rewrite result_bind, filter_dirs_result, result_bind, scan_files_result.
  reflexivity.
Qed.

End ScanResults.

Lemma Forall_trivial {A} (l : list A) : Forall (fun _ => True) l.
Proof. induction l; constructor; auto. Qed.

Section VisibleFiles.
Variable w : world.
Variable directory : string.
Variable spec : option PathSpec.
Variable git_only_signatures : bool.
Variable tracked : gset string.

Let body := Utils.scan_body w directory spec git_only_signatures tracked.
Let step := admit_file w directory spec git_only_signatures tracked.

(** Whatever property the files admitted in this directory have, and the
    files admitted before had, all admitted files have. *)
Lemma fold_left_admit_file_Forall (P : string -> Prop) (root : string)
      (filenames : list string) :
  (forall filename, admits w directory spec (OsPath.join root filename) = true ->
                    P (OsPath.join root filename)) ->
  forall acc, Forall P (fst acc) -> Forall P (fst (fold_left (step root) filenames acc)).
Proof.
  intros HP. induction filenames as [|f fs IH]; intros acc Hacc; [exact Hacc|].
  cbn [fold_left]. apply IH. unfold step, admit_file.
  destruct (admits w directory spec (OsPath.join root f)) eqn:Ha; [|exact Hacc].
  cbn [fst]. apply Forall_app. split; [exact Hacc|]. repeat constructor. now apply HP.
Qed.

Lemma fold_left_admit_file_mono (f root : string) (filenames : list string) :
  forall acc, In f (fst acc) -> In f (fst (fold_left (step root) filenames acc)).
Proof.
  induction filenames as [|x fs IH]; intros acc Hacc; [exact Hacc|].
  cbn [fold_left]. apply IH. unfold step, admit_file.
  destruct (admits w directory spec (OsPath.join root x)); [|exact Hacc].
  cbn [fst]. apply in_or_app. now left.
Qed.

Lemma fold_left_admit_file_adds (root filename : string) (filenames : list string) :
  In filename filenames ->
  admits w directory spec (OsPath.join root filename) = true ->
  forall acc, In (OsPath.join root filename) (fst (fold_left (step root) filenames acc)).
Proof.
  intros Hin Ha. induction filenames as [|x fs IH]; intros acc; [contradiction|].
  cbn [fold_left]. destruct Hin as [-> | Hin]; [|now apply IH].
  apply fold_left_admit_file_mono. unfold step, admit_file. rewrite Ha.
  cbn [fst]. apply in_or_app. right. now left.
Qed.

(** An invariant of the accumulator that every turn of the file loop keeps
    is kept by the whole walk. *)
Lemma os_walk_keeps (AccP : list string * list string -> Prop) :
  (forall root filenames acc, AccP acc -> AccP (fold_left (step root) filenames acc)) ->
  forall n top acc acc',
    AccP acc -> result (Utils.os_walk body top n acc) = Ok acc' -> AccP acc'.
Proof.
  intros Hstep n top acc acc' Hacc Hr.
  assert (Hsat : sat (fun _ => True) AccP (Utils.os_walk body top n acc)).
  { apply os_walk_invariant
      with (name_ok := fun _ => true) (Good := fun _ => True); auto using names_ok_any.
    intros top0 ds fs acc0 _ Hacc0 _ _. split; [apply Forall_trivial|].
    intros r Hres. unfold body in Hres. rewrite scan_body_result in Hres.
    injection Hres as <-. cbn [fst snd]. split; [now apply Hstep|].
    intros d Hd. apply filter_In in Hd as [Hd _]. now split. }
  exact (proj2 Hsat acc' Hr).
Qed.

Lemma admits_inv (file_path : string) :
  admits w directory spec file_path = true ->
  result (Utils.should_exclude w (PathLib.Path_of file_path)
                               (PathLib.Path_of directory) spec) = Ok false /\
  Utils.has_binary_extension file_path = false /\
  (exists content, w_open_rb w file_path = inr content /\
                   ~ In Byte.x00 (take 1024 content)) /\
  (exists size, w_stat_size w file_path = inr size /\ (size <= Utils.size_limit)%Z).
Proof.
  unfold admits. intros H.
  apply andb_prop in H as [H Hsize]. apply andb_prop in H as [Hex Hbin].
  apply negb_true_iff in Hex.
  split; [now rewrite should_exclude_scan_result, Hex|].
  unfold Utils.is_binary_file, open_read in Hbin.
  destruct (Utils.has_binary_extension file_path); [discriminate|].
  split; [reflexivity|]. split.
  - destruct (w_open_rb w file_path) as [e|content]; [destruct e; discriminate|].
    exists content. split; [reflexivity|].
    cbn in Hbin. apply negb_true_iff in Hbin.
    intros Hin. apply null_byte_in in Hin. congruence.
  - destruct (w_stat_size w file_path) as [e|size]; [discriminate|].
    exists size. split; [reflexivity|].
    apply negb_true_iff in Hsize.
    rewrite Z.gtb_ltb in Hsize. apply Z.ltb_ge in Hsize. exact Hsize.
Qed.

End VisibleFiles.

(** Every visible file passed every filter: [should_exclude] answered
    [False] for it, it has no binary extension, it opened and shows no null
    byte in its first 1024 bytes, and its size is known and at most
    10 MiB. *)
Theorem visible_files_passed_every_filter
        (w : world) (directory : string) (spec : option PathSpec)
        (git_only_signatures : bool) :
  exists r,
    result (Utils.scan_project_files w directory spec git_only_signatures) = Ok r /\
    forall f, In f (Utils.all_files r) ->
      result (Utils.should_exclude w (PathLib.Path_of f)
                                   (PathLib.Path_of directory) spec) = Ok false /\
      Utils.has_binary_extension f = false /\
      (exists content, w_open_rb w f = inr content /\
                       ~ In Byte.x00 (take 1024 content)) /\
      (exists size, w_stat_size w f = inr size /\ (size <= 10 * 1024 * 1024)%Z).
Proof.
  destruct (scan_project_files_run w directory spec git_only_signatures)
    as (tracked & acc & t_git & t_walk & _ & Hwalk & Hrun).
  rewrite Hrun. eexists. split; [reflexivity|]. cbn [Utils.all_files].
  assert (Hacc : Forall (fun f => admits w directory spec f = true) (fst acc)).
  { apply (os_walk_keeps w directory spec git_only_signatures tracked
             (fun a => Forall (fun f => admits w directory spec f = true) (fst a)))
      with (n := w_tree w) (top := directory) (acc := ([], [])).
    - intros root fs a Ha. apply fold_left_admit_file_Forall; auto.
    - constructor.
    - now rewrite Hwalk. }
  intros f Hf. apply (proj1 (sorted_In _ _)) in Hf.
  rewrite List.Forall_forall in Hacc.
  exact (admits_inv w directory spec f (Hacc f Hf)).
Qed.

Section Completeness.
Variable w : world.
Variable directory : string.
Variable spec : option PathSpec.
Variable git_only_signatures : bool.
Variable tracked : gset string.
Variable f : string.

Let body := Utils.scan_body w directory spec git_only_signatures tracked.

Lemma os_walk_mono (n : node) (top : string) (acc acc' : list string * list string) :
  In f (fst acc) -> result (Utils.os_walk body top n acc) = Ok acc' -> In f (fst acc').
Proof.
  intros Hin Hr.
  apply (os_walk_keeps w directory spec git_only_signatures tracked
           (fun a => In f (fst a))) with (n := n) (top := top) (acc := acc);
    [|exact Hin | exact Hr].
  intros root fs a Ha. now apply fold_left_admit_file_mono.
Qed.

Lemma walk_dirs_mono (top : string) (dirs : list string) (cs : list node) :
  forall acc acc',
    In f (fst acc) ->
    result (Utils.walk_dirs (Utils.os_walk body) top dirs cs acc) = Ok acc' ->
    In f (fst acc').
Proof.
  induction cs as [|c cs IH]; intros acc acc' Hin Hr.
  - simpl in Hr. now injection Hr as <-.
  - cbn [Utils.walk_dirs] in Hr.
    destruct (node_is_dir c && existsb (String.eqb (node_name c)) dirs);
      [|now apply (IH acc)].
    rewrite result_bind in Hr.
    destruct (result (Utils.os_walk body (OsPath.join top (node_name c)) c acc))
      as [acc1|e] eqn:H1; [|discriminate].
    apply (IH acc1); [|exact Hr]. exact (os_walk_mono c _ acc acc1 Hin H1).
Qed.

Lemma walk_dirs_enters (top : string) (dirs : list string) (cs : list node) (c : node) :
  In c cs -> node_is_dir c = true -> In (node_name c) dirs ->
  (forall acc1 acc2,
      result (Utils.os_walk body (OsPath.join top (node_name c)) c acc1) = Ok acc2 ->
      In f (fst acc2)) ->
  forall acc acc',
    result (Utils.walk_dirs (Utils.os_walk body) top dirs cs acc) = Ok acc' ->
    In f (fst acc').
Proof.
  intros Hc Hdir Hname Henter.
  induction cs as [|c0 cs IH]; intros acc acc' Hr; [contradiction|].
  cbn [Utils.walk_dirs] in Hr.
  destruct Hc as [-> | Hc].
  - assert (Hk : node_is_dir c && existsb (String.eqb (node_name c)) dirs = true).
    { rewrite Hdir. apply existsb_exists. exists (node_name c).
      split; [exact Hname | apply String.eqb_refl]. }
    rewrite Hk, result_bind in Hr.
    destruct (result (Utils.os_walk body (OsPath.join top (node_name c)) c acc))
      as [acc1|e] eqn:H1; [|discriminate].
    apply (walk_dirs_mono top dirs cs acc1); [|exact Hr].
    exact (Henter acc acc1 H1).
  - destruct (node_is_dir c0 && existsb (String.eqb (node_name c0)) dirs);
      [|now apply (IH Hc acc)].
    rewrite result_bind in Hr.
    destruct (result (Utils.os_walk body (OsPath.join top (node_name c0)) c0 acc))
      as [acc1|e] eqn:H1; [|discriminate].
    now apply (IH Hc acc1).
Qed.

Lemma os_walk_body_result (top name : string) (children : list node)
      (acc acc' : list string * list string) :
  result (Utils.os_walk body top (Dir name None children) acc) = Ok acc' ->
  result (Utils.walk_dirs (Utils.os_walk body) top
            (List.filter (fun d => negb (scan_excluded w directory spec (OsPath.join top d)))
                         (map node_name (List.filter node_is_dir children)))
            children
            (fold_left (admit_file w directory spec git_only_signatures tracked top)
                       (map node_name
                            (List.filter (fun c => negb (node_is_dir c)) children))
                       acc)) = Ok acc'.
Proof.
  rewrite os_walk_unfold, result_bind. cbn [result tell fst].
  rewrite result_bind. unfold body. rewrite scan_body_result. trivial.
Qed.

(** A walk that reaches the directory holding a passing file collects it. *)
Lemma os_walk_collects (top : string) (n : node) (top' : string) (n' : node) :
  walk_reaches w directory spec top n top' n' ->
  forall name' children' filename,
    n' = Dir name' None children' ->
    In (File filename) children' ->
    admits w directory spec (OsPath.join top' filename) = true ->
    f = OsPath.join top' filename ->
    forall acc acc',
      result (Utils.os_walk body top n acc) = Ok acc' -> In f (fst acc').
Proof.
  induction 1 as [top n | top name children c top' n' Hc Hdir Hkeep Hreach IH];
    intros name' children' filename Hn Hfile Hadmit Hf acc acc' Hr.
  - subst n. apply os_walk_body_result in Hr.
    eapply walk_dirs_mono; [|exact Hr]. subst f.
    apply fold_left_admit_file_adds; [|exact Hadmit].
    apply in_map_iff. exists (File filename). split; [reflexivity|].
    apply filter_In. now split.
  - apply os_walk_body_result in Hr.
    eapply (walk_dirs_enters _ _ _ c Hc Hdir); [| |exact Hr].
    + apply filter_In. split.
      * apply in_map_iff. exists c. split; [reflexivity|]. apply filter_In. now split.
      * now rewrite Hkeep.
    + intros acc1 acc2. now apply (IH name' children' filename).
Qed.

End Completeness.

(** Every file that passes the filters is visible: if the walk reaches a
    listable directory through directories that are not excluded, any file
    in it that is not excluded, is not binary and is within the size limit
    is in [all_files]; and it is a signature candidate as soon as it meets
    the candidate condition. *)
Theorem passing_files_are_visible
        (w : world) (directory : string) (spec : option PathSpec)
        (git_only_signatures : bool)
        (top name : string) (children : list node) (filename : string) :
  walk_reaches w directory spec directory (w_tree w) top (Dir name None children) ->
  In (File filename) children ->
  admits w directory spec (OsPath.join top filename) = true ->
  exists r,
    result (Utils.scan_project_files w directory spec git_only_signatures) = Ok r /\
    In (OsPath.join top filename) (Utils.all_files r) /\
    (candidate_condition w git_only_signatures (Utils.git_tracked r)
                         (OsPath.join top filename) = true ->
     In (OsPath.join top filename) (Utils.signature_candidates r)).
Proof.
  intros Hreach Hfile Hadmit.
  destruct (scan_project_files_run w directory spec git_only_signatures)
    as (tracked & acc & t_git & t_walk & _ & Hwalk & Hrun).
  rewrite Hrun. eexists. split; [reflexivity|].
  cbn [Utils.all_files Utils.signature_candidates Utils.git_tracked].
  assert (Hin : In (OsPath.join top filename) (fst acc)).
  { apply (os_walk_collects w directory spec git_only_signatures tracked _
             directory (w_tree w) top _ Hreach name children filename
             eq_refl Hfile Hadmit eq_refl ([], []) acc).
    now rewrite Hwalk. }
  split; [now apply sorted_In|].
  intros Hcond. apply sorted_In.
  assert (Hacc : scan_acc_ok w git_only_signatures tracked (fun _ => True) acc).
  { eapply (scan_walk_sat w directory spec git_only_signatures tracked
              (fun _ => true) (fun _ => True) (fun _ => True) (fun _ => True));
      try (intros; exact I); try apply names_ok_any.
    - intros. repeat split.
    - now rewrite Hwalk. }
  destruct Hacc as [_ Hsig]. rewrite Hsig. apply filter_In. now split.
Qed.

Lemma passing_files_are_visible_witness :
  walk_reaches sample_world "proj" None "proj" (w_tree sample_world)
               "proj/src" (Dir "src" None [ File "app.py"; Dir "build" None [ File "x.js" ] ]) /\
  admits sample_world "proj" None (OsPath.join "proj/src" "app.py") = true /\
  exists r,
    result (Utils.scan_project_files sample_world "proj" None true) = Ok r /\
    In (OsPath.join "proj/src" "app.py") (Utils.all_files r) /\
    (candidate_condition sample_world true (Utils.git_tracked r)
                         (OsPath.join "proj/src" "app.py") = true ->
     In (OsPath.join "proj/src" "app.py") (Utils.signature_candidates r)).
Proof.
  assert (Hreach : walk_reaches sample_world "proj" None "proj" (w_tree sample_world)
            "proj/src" (Dir "src" None [ File "app.py"; Dir "build" None [ File "x.js" ] ])).
  { apply (reaches_below sample_world "proj" None "proj" "proj" sample_children
             (Dir "src" None [ File "app.py"; Dir "build" None [ File "x.js" ] ]));
      [simpl; tauto | reflexivity | reflexivity | apply reaches_here]. }
  split; [exact Hreach|]. split; [reflexivity|].
  apply (passing_files_are_visible sample_world "proj" None true
           "proj/src" "src" _ "app.py" Hreach); [simpl; tauto | reflexivity].
Defined.

(* ===================================================================== *)
(** ** Git tracking in the scan *)
(* ===================================================================== *)

Lemma scan_candidates_filtered {F : Faults} (w : world) (directory : string)
      (spec : option PathSpec)
      (git_only_signatures : bool) (tracked : gset string)
      (acc : list string * list string) (t_walk : list event) :
  Utils.os_walk (Utils.scan_body w directory spec git_only_signatures tracked)
                directory (w_tree w) ([], []) = (Ok acc, t_walk) ->
  snd acc = List.filter (candidate_condition w git_only_signatures tracked) (fst acc) /\
  Forall (fun ev => is_git_event ev = false) t_walk.
Proof.
  intros Hwalk.
  assert (Hsat : sat (fun ev => is_git_event ev = false)
                     (scan_acc_ok w git_only_signatures tracked (fun _ => True))
                     (Utils.os_walk
                        (Utils.scan_body w directory spec git_only_signatures tracked)
                        directory (w_tree w) ([], []))).
  { apply (scan_walk_sat w directory spec git_only_signatures tracked
             (fun _ => true) (fun _ => True));
      try (intros; reflexivity); try (intros; exact I); try apply names_ok_any.
    intros. repeat split. }
  rewrite Hwalk in Hsat. destruct Hsat as [Ht Hr].
  split; [exact (proj2 (Hr acc eq_refl)) | exact Ht].
Qed.

(** When signatures are restricted to tracked files and there is nothing
    tracked, because the directory holds no [.git] directory, or because
    git is not installed or exits with a non-zero status, a scan that meets
    no [stat] failure returns with no signature candidate at all, however
    many source files are visible. *)
Theorem no_candidates_without_tracked_files
        {F : Faults} (w : world) (directory : string) (spec : option PathSpec) :
  stat_never_raises ->
  git_error directory = None ->
  w_is_dir w (PathLib.Path_of (OsPath.join directory ".git")) = false \/
  git_query_fails w directory ->
  exists r,
    result (Utils.scan_project_files w directory spec true) = Ok r /\
    Utils.git_tracked r = ∅ /\
    Utils.signature_candidates r = [].
Proof.
  intros Hstat Hrun Hno.
  assert (Hcaught : git_errors_are_caught directory)
    by (intros e He; rewrite Hrun in He; discriminate He).
  destruct (scan_project_files_returns w directory spec true Hstat Hcaught) as [r Hr].
  exists r. split; [exact Hr|].
  destruct (scan_project_files_stages w directory spec true r Hr)
    as (repo & tracked & acc & Hrepo & Hgit & Hwalk & ->).
  cbn [Utils.git_tracked Utils.signature_candidates].
  assert (Htracked : tracked = ∅).
  { destruct repo; [|now injection Hgit].
    destruct Hno as [Hno | Hfail].
    - unfold Utils.is_git_repo, os_path_isdir in Hrepo.
      destruct (stat_error _); cbn [result bind tell ret fst] in Hrepo; congruence.
    - unfold git_query_fails in Hfail.
      unfold Utils.get_git_tracked_files, run_git_ls_files in Hgit. rewrite Hrun in Hgit.
      destruct (w_git w directory) as [|rc out]; [cbn in Hgit; congruence|].
      destruct (Z.eqb_spec rc 0); [contradiction | cbn in Hgit; congruence]. }
  split; [exact Htracked|].
  destruct (Utils.os_walk _ directory (w_tree w) ([], [])) as [o t_walk] eqn:Ewalk.
  cbn [result fst] in Hwalk. subst o.
  destruct (scan_candidates_filtered _ _ _ _ _ _ _ Ewalk) as [Hsig _].
  assert (Hnil : forall l, List.filter (candidate_condition w true ∅) l = []).
  { induction l as [|x l IH]; [reflexivity|].
    simpl. rewrite IH. unfold candidate_condition.
    cbn [negb orb]. rewrite bool_decide_eq_false_2 by set_solver.
    now rewrite andb_false_r. }
  rewrite Hsig, Htracked, Hnil. reflexivity.
Qed.

Lemma no_candidates_without_tracked_files_witness :
  stat_never_raises (F := no_faults) /\
  git_error (Faults := no_faults) "proj" = None /\
  git_query_fails sample_world_without_git "proj" /\
  exists r,
    result (Utils.scan_project_files sample_world_without_git "proj" None true) = Ok r /\
    Utils.git_tracked r = ∅ /\
    Utils.signature_candidates r = [].
Proof.
  assert (Hstat : stat_never_raises (F := no_faults)) by (intros p e H; discriminate H).
  split; [exact Hstat|]. split; [reflexivity|]. split; [exact I|].
  apply (no_candidates_without_tracked_files sample_world_without_git "proj" None Hstat
           eq_refl).
  right. exact I.
Defined.

(** The scan runs git at most once: once, in the scanned directory, when
    that directory holds a [.git] directory, and never otherwise; walking
    the tree runs no git at all. *)
Theorem git_runs_at_most_once
        (w : world) (directory : string) (spec : option PathSpec)
        (git_only_signatures : bool) :
  List.filter is_git_event
              (trace (Utils.scan_project_files w directory spec git_only_signatures)) =
  if w_is_dir w (PathLib.Path_of (OsPath.join directory ".git"))
  then [EvGitLsFiles directory] else [].
Proof.
  destruct (scan_project_files_run w directory spec git_only_signatures)
    as (tracked & acc & t_git & t_walk & Hgit & Hwalk & Hrun).
  rewrite Hrun. cbn [trace snd List.filter is_git_event].
  rewrite List.filter_app.
  destruct (scan_candidates_filtered _ _ _ _ _ _ _ Hwalk) as [_ Hnone].
  assert (Hwalk_none : List.filter is_git_event t_walk = []).
  { clear -Hnone. induction Hnone as [|ev l Hev _ IH]; [reflexivity|].
    simpl. now rewrite Hev. }
  rewrite Hwalk_none, app_nil_r.
  destruct (w_is_dir w _).
  - unfold Utils.get_git_tracked_files, run_git_ls_files in Hgit.
    destruct (w_git w directory) as [|rc out];
      [|destruct (Z.eqb rc 0)]; cbn in Hgit; injection Hgit as _ <-; reflexivity.
  - unfold ret in Hgit. injection Hgit as _ <-. reflexivity.
Qed.

(* ===================================================================== *)
(** ** Pattern files and file lists *)
(* ===================================================================== *)

Section TextFacts.
Import Str StrFacts Text.

Lemma lstrip_idempotent (s : string) : lstrip (lstrip s) = lstrip s.
Proof.
  induction s as [|c s IH]; [reflexivity|].
  cbn [lstrip]. destruct (is_space c) eqn:Hc; [exact IH|]. cbn [lstrip]. now rewrite Hc.
Qed.

Lemma rstrip_idempotent (s : string) : rstrip (rstrip s) = rstrip s.
Proof.
  induction s as [|c s IH]; [reflexivity|].
  cbn [rstrip]. destruct (rstrip s) as [|d r] eqn:Hr.
  - destruct (is_space c) eqn:Hc; [reflexivity|]. cbn [rstrip]. now rewrite Hc.
  - cbn [rstrip] in IH |- *. now rewrite IH.
Qed.

Lemma lstrip_rstrip (s : string) : lstrip (rstrip s) = rstrip (lstrip s).
Proof.
  induction s as [|c s IH]; [reflexivity|].
  cbn [lstrip rstrip]. destruct (is_space c) eqn:Hc.
  - rewrite <- IH. destruct (rstrip s); [reflexivity|].
    cbn [lstrip]. now rewrite Hc.
  - cbn [rstrip]. destruct (rstrip s); cbn [lstrip]; now rewrite ?Hc.
Qed.

(** Stripping twice changes nothing more. *)
Lemma strip_idempotent (s : string) : strip (strip s) = strip s.
Proof.
  unfold strip.
  rewrite <- (lstrip_rstrip (rstrip s)), rstrip_idempotent.
  apply lstrip_idempotent.
Qed.

Lemma rstrip_snoc_space (s : string) (c : ascii) :
  is_space c = true -> rstrip (s +:+ String c "") = rstrip s.
Proof.
  intros Hc. induction s as [|d s IH].
  - rewrite append_nil_l. cbn [rstrip]. now rewrite Hc.
  - rewrite append_cons. cbn [rstrip]. now rewrite IH.
Qed.

Lemma lines_line (p rest : string) :
  contains LF p = false -> contains CR p = false ->
  lines (p +:+ String LF rest) = (p +:+ String LF "") :: lines rest.
Proof.
  induction p as [|c p IH]; intros Hlf Hcr.
  - rewrite !append_nil_l. cbn [lines]. now rewrite Ascii.eqb_refl.
  - cbn [contains] in Hlf, Hcr.
    apply orb_false_elim in Hlf as [Hc1 Hlf]. apply orb_false_elim in Hcr as [Hc2 Hcr].
    rewrite !append_cons. cbn [lines].
    rewrite Ascii.eqb_sym, Hc1, Ascii.eqb_sym, Hc2.
    now rewrite (IH Hlf Hcr).
Qed.

Lemma clean_pattern_inv (p : string) :
  clean_pattern p = true ->
  p <> "" /\ strip p = p /\ startswith p "#" = false /\
  contains LF p = false /\ contains CR p = false.
Proof.
  unfold clean_pattern. intros H.
  repeat (apply andb_prop in H as [H ?]).
  repeat match goal with
         | H : negb _ = true |- _ => apply negb_true_iff in H
         end.
  apply String.eqb_neq in H. rewrite String.eqb_eq in *. auto.
Qed.

Lemma lines_unlines (ps : list string) :
  Forall (fun p => clean_pattern p = true) ps ->
  lines (unlines ps) = map (fun p => p +:+ String LF "") ps.
Proof.
  induction 1 as [|p ps Hp _ IH]; [reflexivity|].
  apply clean_pattern_inv in Hp as (_ & _ & _ & Hlf & Hcr).
  cbn [unlines map]. now rewrite (lines_line _ _ Hlf Hcr), IH.
Qed.

Lemma strip_line (p : string) : strip p = p -> strip (p +:+ String LF "") = p.
Proof.
  intros Hp. unfold strip in *. now rewrite rstrip_snoc_space by reflexivity.
Qed.

End TextFacts.

(** Decoding, and ASCII text. *)
Section AsciiText.
Import Str StrFacts Text.

Lemma ascii_text_cons (c : ascii) (s : string) :
  ascii_text (String c s) = is_ascii_byte (byte_of_ascii c) && ascii_text s.
Proof. reflexivity. Qed.

Lemma ascii_text_app (a b : string) :
  ascii_text (a +:+ b) = ascii_text a && ascii_text b.
Proof.
  induction a as [|c a IH]; [now rewrite append_nil_l|].
  rewrite append_cons, !ascii_text_cons, IH. apply andb_assoc.
Qed.

Lemma ascii_text_unlines (ls : list string) :
  Forall (fun l => ascii_text l = true) ls -> ascii_text (unlines ls) = true.
Proof.
  induction 1 as [|l ls Hl _ IH]; [reflexivity|].
  cbn [unlines]. rewrite ascii_text_app, Hl, ascii_text_cons, IH. reflexivity.
Qed.

Context {F : Faults}.

Lemma decode_ascii (content : list Byte.byte) :
  forallb is_ascii_byte content = true ->
  decode content = (Ok (string_of_list_byte content), []).
Proof. intros H. unfold decode. rewrite H, orb_true_r. reflexivity. Qed.

Lemma decode_decodable (content : list Byte.byte) :
  decodable content = true ->
  decode content = (Ok (string_of_list_byte content), []).
Proof. unfold decodable, decode. now intros ->. Qed.

Lemma decode_undecodable (content : list Byte.byte) :
  decodable content = false ->
  decode content = (Raise UnicodeDecodeError, []).
Proof. unfold decodable, decode. now intros ->. Qed.

End AsciiText.

Section PatternFiles.
Import Str StrFacts Text.
Variable w : world.

Lemma parse_patterns_file_opened (path : string) (content : list Byte.byte) :
  w_exists w (PathLib.Path_of path) = true ->
  w_open_rb w path = inr content ->
  result (MainFiles.parse_patterns_file w path) =
  Ok (map strip
          (List.filter (fun line => negb (String.eqb (strip line) "")
                                    && negb (startswith (strip line) "#"))
                       (lines (string_of_list_byte content)))).
Proof.
  intros Hex Hopen. unfold MainFiles.parse_patterns_file, MainFiles.open_text_lines.
  rewrite result_bind.
  change (result (os_path_exists w (PathLib.Path_of path)))
    with (Ok (A := bool) (w_exists w (PathLib.Path_of path))).
  rewrite Hex. cbn [negb].
  rewrite result_bind, result_bind. cbn [result tell fst]. now rewrite Hopen.
Qed.

(** What [parse_patterns_file] returns is ready to use: no pattern is
    empty, none starts with ["#"], and none has white space around it. *)
Theorem parsed_patterns_are_clean (path : string) (patterns : list string) :
  result (MainFiles.parse_patterns_file w path) = Ok patterns ->
  forall p, In p patterns ->
    p <> "" /\ startswith p "#" = false /\ strip p = p.
Proof.
  intros Hr p Hp.
  unfold MainFiles.parse_patterns_file, MainFiles.open_text_lines in Hr.
  rewrite result_bind in Hr.
  change (result (os_path_exists w (PathLib.Path_of path)))
    with (Ok (A := bool) (w_exists w (PathLib.Path_of path))) in Hr.
  destruct (w_exists w (PathLib.Path_of path)); cbn [negb] in Hr.
  - rewrite result_bind, result_bind in Hr. cbn [result tell fst] in Hr.
    destruct (w_open_rb w path) as [e|content]; [discriminate|].
    change (result (ret (map strip
              (List.filter (fun line => negb (String.eqb (strip line) "")
                                        && negb (startswith (strip line) "#"))
                           (lines (string_of_list_byte content))))) = Ok patterns) in Hr.
    cbn [result ret fst] in Hr. injection Hr as <-.
    apply in_map_iff in Hp as (line & <- & Hline).
    apply filter_In in Hline as [_ Hkeep].
    apply andb_prop in Hkeep as [Hne Hc].
    apply negb_true_iff in Hne, Hc. apply String.eqb_neq in Hne.
    split; [exact Hne|]. split; [exact Hc | apply strip_idempotent].
  - injection Hr as <-. contradiction.
Qed.

(** The edges of [parse_patterns_file]: a file that does not exist gives no
    pattern and is not opened; a file that exists but cannot be opened
    makes the call raise the operating system's error. *)
Theorem parse_patterns_file_missing_or_unreadable (path : string) :
  (w_exists w (PathLib.Path_of path) = false ->
   MainFiles.parse_patterns_file w path = (Ok [], [EvExists (PathLib.Path_of path)])) /\
  (w_exists w (PathLib.Path_of path) = true ->
   forall e, w_open_rb w path = inl e ->
     result (MainFiles.parse_patterns_file w path) = Raise (exn_of_os_error e)).
Proof.
  unfold MainFiles.parse_patterns_file, MainFiles.open_text_lines, os_path_exists.
  split.
  - intros Hex. cbn [bind tell ret stat_error no_faults]. now rewrite Hex.
  - intros Hex e Hopen. rewrite !result_bind. cbn [result tell fst ret stat_error no_faults].
    rewrite Hex. cbn [negb]. rewrite !result_bind. cbn [result tell fst].
    now rewrite Hopen.
Qed.

End PatternFiles.

Section PatternRoundTrip.
Import Str StrFacts Text.
Context {F : Faults}.
Variable w : world.

(** Round trip: a file that holds clean patterns of ASCII text, one per
    line, parses back to exactly those patterns, in order. *)
Theorem parse_patterns_file_round_trip (path : string) (patterns : list string) :
  stat_error (PathLib.Path_of path) = None ->
  w_exists w (PathLib.Path_of path) = true ->
  w_open_rb w path = inr (list_byte_of_string (unlines patterns)) ->
  Forall (fun p => clean_pattern p = true) patterns ->
  Forall (fun p => ascii_text p = true) patterns ->
  result (MainFiles.parse_patterns_file w path) = Ok patterns.
Proof.
  intros Hst Hex Hopen Hclean Hascii.
  unfold MainFiles.parse_patterns_file, MainFiles.open_text_lines, os_path_exists.
  rewrite Hst, Hopen.
  rewrite (decode_ascii _ (ascii_text_unlines _ Hascii)).
  cbn [bind tell ret result fst]. rewrite Hex. cbn [negb result fst].
  rewrite string_of_list_byte_of_string, (lines_unlines _ Hclean). f_equal.
  clear Hopen Hascii. induction Hclean as [|p ps Hp _ IH]; [reflexivity|].
  apply clean_pattern_inv in Hp as (Hne & Hs & Hc & _ & _).
  cbn [map List.filter]. rewrite (strip_line p Hs).
  apply String.eqb_neq in Hne. rewrite Hne, Hc. cbn [negb andb map].
  now rewrite (strip_line p Hs), IH.
Qed.

End PatternRoundTrip.

Lemma parse_patterns_file_round_trip_witness :
  stat_error (Faults := strict_decoding) (PathLib.Path_of ".gitignore") = None /\
  w_exists two_patterns_world (PathLib.Path_of ".gitignore") = true /\
  w_open_rb two_patterns_world ".gitignore" =
    inr (list_byte_of_string (Text.unlines ["dist/"; "*.log"])) /\
  Forall (fun p => clean_pattern p = true) ["dist/"; "*.log"] /\
  Forall (fun p => ascii_text p = true) ["dist/"; "*.log"] /\
  result (MainFiles.parse_patterns_file (F := strict_decoding) two_patterns_world ".gitignore")
  = Ok ["dist/"; "*.log"].
Proof.
  assert (Hclean : Forall (fun p => clean_pattern p = true) ["dist/"; "*.log"])
    by (repeat constructor).
  assert (Hascii : Forall (fun p => ascii_text p = true) ["dist/"; "*.log"])
    by (repeat constructor).
  split; [reflexivity|]. split; [reflexivity|]. split; [reflexivity|].
  split; [exact Hclean|]. split; [exact Hascii|].
  exact (parse_patterns_file_round_trip (F := strict_decoding) two_patterns_world
           ".gitignore" ["dist/"; "*.log"] eq_refl eq_refl eq_refl Hclean Hascii).
Defined.

Lemma parsed_patterns_are_clean_witness :
  result (MainFiles.parse_patterns_file ignore_file_world ".gitignore") =
  Ok ["dist/"; "*.log"] /\
  forall p, In p ["dist/"; "*.log"] ->
    p <> "" /\ Str.startswith p "#" = false /\ Text.strip p = p.
Proof.
  assert (H : result (MainFiles.parse_patterns_file ignore_file_world ".gitignore") =
              Ok ["dist/"; "*.log"]) by (vm_compute; reflexivity).
  split; [exact H|].
  exact (parsed_patterns_are_clean ignore_file_world ".gitignore" ["dist/"; "*.log"] H).
Defined.

Lemma parse_patterns_file_missing_or_unreadable_witness :
  w_exists missing_root_world (PathLib.Path_of "proj/.gitignore") = false /\
  MainFiles.parse_patterns_file missing_root_world "proj/.gitignore" =
  (Ok [], [EvExists (PathLib.Path_of "proj/.gitignore")]).
Proof.
  split; [reflexivity|].
  exact (proj1 (parse_patterns_file_missing_or_unreadable missing_root_world
                  "proj/.gitignore") eq_refl).
Defined.

Section FileLists.
Import Str StrFacts Text.
Context {F : Faults}.
Variable w : world.
Variable str_of_exn : exn -> string.

(** [read_files_from_txt] never raises.  When the list cannot be opened,
    or opens but is not text, it prints one message and returns the empty
    list; when it holds ASCII text it returns the lines that are not
    blank, stripped (comment lines are kept: they are skipped later, when
    the files are merged). *)
Theorem read_files_from_txt_never_raises (file_path : string) :
  returns (MainFiles.read_files_from_txt w str_of_exn file_path) /\
  (forall e, w_open_rb w file_path = inl e ->
     MainFiles.read_files_from_txt w str_of_exn file_path =
     (Ok [], [EvOpen file_path;
              EvPrint ("Error reading file list: " +:+ str_of_exn (exn_of_os_error e))])) /\
  (forall content, w_open_rb w file_path = inr content ->
     decodable content = false ->
     MainFiles.read_files_from_txt w str_of_exn file_path =
     (Ok [], [EvOpen file_path;
              EvPrint ("Error reading file list: " +:+ str_of_exn UnicodeDecodeError)])) /\
  (forall content, w_open_rb w file_path = inr content ->
     forallb is_ascii_byte content = true ->
     exists files,
       result (MainFiles.read_files_from_txt w str_of_exn file_path) = Ok files /\
       (forall p, In p files -> p <> "" /\ strip p = p) /\
       (forall line, In line (lines (string_of_list_byte content)) ->
                     strip line <> "" -> In (strip line) files)).
Proof.
  unfold MainFiles.read_files_from_txt, MainFiles.open_text_lines, print.
  destruct (w_open_rb w file_path) as [e0|content0] eqn:Hopen.
  - split; [now eexists|]. split; [|split; discriminate].
    intros e [= <-]. reflexivity.
  - assert (Hret : returns
              (try_except_Exception
                 (do lines <- (do_ tell (EvOpen file_path);
                               do text <- decode content0; ret (Text.lines text));
                  ret (map strip
                         (List.filter (fun line => negb (String.eqb (strip line) "")) lines)))
                 (fun e => do_ tell (EvPrint ("Error reading file list: " +:+ str_of_exn e));
                           ret []))).
    { destruct (decodable content0) eqn:Hdec.
      - rewrite (decode_decodable _ Hdec). now eexists.
      - rewrite (decode_undecodable _ Hdec). now eexists. }
    split; [exact Hret|]. split; [discriminate|]. split.
    + intros content [= <-] Hdec. rewrite (decode_undecodable _ Hdec). reflexivity.
    + intros content [= <-] Hascii. rewrite (decode_ascii _ Hascii).
      eexists. split; [reflexivity|]. split.
      * intros p Hp. apply in_map_iff in Hp as (line & <- & Hline).
        apply filter_In in Hline as [_ Hne]. apply negb_true_iff in Hne.
        apply String.eqb_neq in Hne. split; [exact Hne | apply strip_idempotent].
      * intros line Hin Hne. apply in_map. apply filter_In. split; [exact Hin|].
        apply negb_true_iff. now apply String.eqb_neq.
Qed.

End FileLists.

Lemma read_files_from_txt_never_raises_witness :
  let content := list_byte_of_string ignore_file_text in
  w_open_rb ignore_file_world "files.txt" = inr content /\
  forallb is_ascii_byte content = true /\
  exists files,
    result (MainFiles.read_files_from_txt (F := strict_decoding) ignore_file_world
              (fun _ => "error") "files.txt") = Ok files /\
    (forall p, In p files -> p <> "" /\ Text.strip p = p) /\
    (forall line, In line (Text.lines (string_of_list_byte content)) ->
                  Text.strip line <> "" -> In (Text.strip line) files).
Proof.
  intros content. split; [reflexivity|]. split; [reflexivity|].
  exact (proj2 (proj2 (proj2 (read_files_from_txt_never_raises (F := strict_decoding)
                                ignore_file_world (fun _ => "error") "files.txt")))
           content eq_refl eq_refl).
Defined.

(* ===================================================================== *)
(** ** The tree renderer without patterns *)
(* ===================================================================== *)



(* ===================================================================== *)
(** ** Where the tree renderer goes *)
(* ===================================================================== *)

Lemma sat_event_impl {A} (EvP EvP' : event -> Prop) (Q : A -> Prop) (m : M A) :
  (forall ev, EvP ev -> EvP' ev) -> sat EvP Q m -> sat EvP' Q m.
Proof.
  intros Himp [Ht Hr]. split; [|exact Hr].
  eapply Forall_impl; [exact Ht | exact Himp].
Qed.

Lemma sat_trace {A} (EvP : event -> Prop) (Q : A -> Prop) (m : M A) :
  Forall EvP (trace m) -> (forall a, result m = Ok a -> Q a) -> sat EvP Q m.
Proof. now split. Qed.

Section RendererCalls.
Import PathLib.
Variable w : world.
Variable spec : option PathSpec.
Variable EvP : event -> Prop.
Hypothesis match_ok : forall rel, EvP (EvMatchFile rel).

(** An entry whose own path may be asked for, and whose rendering, under
    any prefix, only makes calls that satisfy [EvP]. *)
Let entry_ok (e : Main.entry) : Prop :=
  EvP (EvIsDir (fst e)) /\ forall prefix, sat EvP (fun _ => True) (snd e prefix).

Lemma is_dir_sat (p : Path) : EvP (EvIsDir p) -> sat EvP (fun _ => True) (is_dir w p).
Proof.
  intros Hp. unfold is_dir.
  eapply sat_bind; [apply sat_tell, Hp | intros; now apply sat_ret].
Qed.

Lemma main_should_exclude_sat (item path : Path) :
  EvP (EvIsDir item) -> sat EvP (fun _ => True) (Main.should_exclude w item path spec).
Proof.
  intros Hp. unfold Main.should_exclude. destruct spec as [sp|]; [|now apply sat_ret].
  apply sat_try_except; [|intros; now apply sat_ret].
  eapply sat_bind with (QA := fun _ => True).
  { destruct (relative_to_cases item path) as [[r ->] | ->];
      [now apply sat_ret | apply sat_raise]. }
  intros rel _.
  eapply sat_bind; [apply is_dir_sat, Hp | intros d _].
  unfold match_file.
  eapply sat_bind; [apply sat_tell, match_ok | intros; now apply sat_ret].
Qed.

Lemma sort_items_sat (items : list Main.entry) :
  Forall entry_ok items ->
  sat EvP (fun sorted_items => Permutation sorted_items items) (Main.sort_items w items).
Proof.
  intros Hl. apply sat_trace.
  - unfold Main.sort_items.
    assert (Hk : sat EvP (fun _ => True) (Main.with_keys w items)).
    { induction Hl as [|x l [Hx _] _ IH]; [now apply sat_ret|].
      cbn [Main.with_keys].
      eapply sat_bind; [apply is_dir_sat, Hx | intros d _].
      eapply sat_bind; [exact IH | intros; now apply sat_ret]. }
    exact (proj1 (sat_bind EvP (fun _ => True) (fun _ => True) _ _ Hk
                    (fun a _ => sat_ret EvP (fun _ => True) _ I))).
  - intros sorted_items Hr. rewrite sort_items_result in Hr. injection Hr as <-.
    apply sort_by_Permutation.
Qed.

Lemma render_items_sat (prefix : string) (n_items : nat) (items : list Main.entry) :
  Forall entry_ok items ->
  forall index entries,
    sat EvP (fun _ => True) (Main.render_items w prefix n_items index items entries).
Proof.
  induction 1 as [|x l [Hx Hsub] _ IH]; intros index entries.
  - now apply sat_ret.
  - cbn [Main.render_items].
    eapply sat_bind with (QA := fun _ => True).
    { unfold Main.format_name.
      eapply sat_bind; [apply is_dir_sat, Hx | intros; now apply sat_ret]. }
    intros line _.
    eapply sat_bind; [apply is_dir_sat, Hx | intros d _].
    eapply sat_bind with (QA := fun _ => True); [|intros; apply IH].
    destruct d; [|now apply sat_ret].
    eapply sat_bind; [apply Hsub | intros; now apply sat_ret].
Qed.

(** The calls of rendering a listable directory: the existence test and
    the listing of the directory itself, the [is_dir] questions about its
    entries, and the calls of rendering the entries that are kept. *)
Lemma generate_tree_dir_sat (name : string) (children : list node) (path : Path)
      (prefix : string) :
  EvP (EvExists path) -> EvP (EvScandir (str path)) ->
  (forall c, In c children -> EvP (EvIsDir (child path (node_name c)))) ->
  (forall c, In c children ->
     tree_excluded w path spec (child path (node_name c)) = false ->
     forall prefix', sat EvP (fun _ => True)
                         (Main.generate_tree w c (child path (node_name c)) spec prefix')) ->
  sat EvP (fun _ => True) (Main.generate_tree w (Dir name None children) path spec prefix).
Proof.
  intros Hex Hls Hdir Hsub. rewrite generate_tree_dir.
  eapply sat_bind with (QA := fun _ => True).
  { unfold path_exists. eapply sat_bind; [apply sat_tell, Hex | intros; now apply sat_ret]. }
  intros e _. destruct (negb e); [now apply sat_ret|].
  set (listed := map (fun c => (child path (node_name c),
                                Main.generate_tree w c (child path (node_name c)) spec))
                     children).
  assert (Hkept : Forall entry_ok
            (List.filter (fun it : Main.entry =>
                            negb (tree_excluded w path spec (fst it))) listed)).
  { apply List.Forall_forall. intros it Hit.
    apply filter_In in Hit as [Hit Hk]. apply negb_true_iff in Hk.
    apply in_map_iff in Hit as (c & <- & Hc). cbn [fst snd] in *.
    split; [now apply Hdir | now apply Hsub]. }
  eapply sat_bind with
    (QA := fun items => Forall entry_ok items).
  - apply sat_try_except; [|intros; apply sat_ret; constructor].
    eapply sat_bind; [apply sat_tell, Hls | intros _ _].
    apply sat_trace.
    + unfold Main.keep_items.
      apply (sat_foldM EvP (fun _ => True)
               (fun it : Main.entry => EvP (EvIsDir (fst it)))); [| |exact I].
      * intros x s Hx _.
        eapply sat_bind; [apply main_should_exclude_sat, Hx | intros; now apply sat_ret].
      * apply List.Forall_forall. intros it Hit.
        apply in_map_iff in Hit as (c & <- & Hc). now apply Hdir.
    + intros items Hr. rewrite keep_items_result in Hr. now injection Hr as <-.
  - intros items Hitems.
    eapply sat_bind; [apply sort_items_sat, Hitems | intros sorted_items Hperm].
    apply render_items_sat.
    eapply Permutation_Forall; [symmetry; exact Hperm | exact Hitems].
Qed.

End RendererCalls.

Section PathRoundTrip.
Import Str StrFacts PathLib.

Lemma valid_names_components (l : list string) :
  forallb valid_name l = true -> List.filter is_component l = l.
Proof.
  induction l as [|x l IH]; [reflexivity|].
  cbn [forallb List.filter]. intros H. apply andb_prop in H as [Hx Hl].
  apply valid_name_inv in Hx as (Hc & _). now rewrite Hc, (IH Hl).
Qed.

Lemma split_join_names (l : list string) :
  forallb valid_name l = true -> l <> [] -> split slash (join "/" l) = l.
Proof.
  induction l as [|x l IH]; [congruence|].
  cbn [forallb]. intros H _. apply andb_prop in H as [Hx Hl].
  apply valid_name_inv in Hx as (_ & Hs & _).
  destruct l as [|y l]; [now apply split_no_sep|].
  rewrite join_cons by discriminate.
  change ("/" +:+ join "/" (y :: l)) with (String slash (join "/" (y :: l))).
  rewrite split_app_sep, (split_no_sep _ _ Hs), IH by (assumption || discriminate).
  reflexivity.
Qed.

Lemma join_names_not_rooted (l : list string) :
  forallb valid_name l = true -> startswith (join "/" l) "/" = false.
Proof.
  destruct l as [|x l]; [reflexivity|].
  cbn [forallb]. intros H. apply andb_prop in H as [Hx _].
  pose proof (valid_name_inv x Hx) as (Hc & _ & Hst).
  destruct x as [|c x]; [discriminate|].
  destruct l as [|y l]; [exact Hst|].
  rewrite join_cons by discriminate. rewrite append_cons.
  cbn [startswith] in Hst |- *. exact Hst.
Qed.

(** Printing a well-formed path and reading it back gives the path. *)
Lemma Path_of_str (p : Path) : well_formed_path p = true -> Path_of (str p) = p.
Proof.
  destruct p as [a ps]. unfold well_formed_path, str, Path_of. cbn [anchored parts].
  intros Hwf. destruct a.
  - change ("/" +:+ join "/" ps) with (String slash (join "/" ps)).
    f_equal.
    change (String slash (join "/" ps)) with ("" +:+ String slash (join "/" ps)).
    rewrite split_app_sep. cbn [split app List.filter is_component String.eqb negb andb].
    destruct ps as [|x l]; [reflexivity|].
    rewrite split_join_names by (assumption || discriminate).
    now apply valid_names_components.
  - destruct ps as [|x l]; [reflexivity|].
    rewrite (join_names_not_rooted _ Hwf).
    rewrite split_join_names by (assumption || discriminate).
    now rewrite valid_names_components.
Qed.

Lemma is_relative_to_refl (p : Path) : is_relative_to p p = true.
Proof.
  apply is_relative_to_iff. split; [reflexivity|]. exists []. now rewrite app_nil_r.
Qed.

Lemma is_relative_to_parent (q p : Path) (x : string) :
  is_relative_to q (child p x) = true -> is_relative_to q p = true.
Proof.
  rewrite !is_relative_to_iff. cbn [child anchored parts].
  intros [Ha (r & Hr)]. split; [exact Ha|]. exists ([x] ++ r).
  now rewrite Hr, <- app_assoc.
Qed.

(** Two entries of one directory that both lead to [q] are the same entry. *)
Lemma siblings_apart (q p : Path) (a b : string) :
  is_relative_to q (child p a) = true ->
  is_relative_to q (child p b) = true ->
  child p a = child p b.
Proof.
  rewrite !is_relative_to_iff. cbn [child anchored parts].
  intros [_ (r1 & H1)] [_ (r2 & H2)].
  rewrite H1, <- !app_assoc in H2. apply app_inv_head in H2.
  injection H2 as -> _. reflexivity.
Qed.

Lemma well_formed_child (p : Path) (x : string) :
  well_formed_path p = true -> valid_name x = true ->
  well_formed_path (child p x) = true.
Proof.
  unfold well_formed_path. cbn [child parts]. intros Hp Hx.
  rewrite forallb_app, Hp. cbn. now rewrite Hx.
Qed.

End PathRoundTrip.

Section RendererStaysInside.
Import PathLib.
Variable w : world.
Variable spec : option PathSpec.

Lemma child_strictly_below (p : Path) (x : string) : strictly_below (child p x) p = true.
Proof.
  apply strictly_below_iff. split; [reflexivity|]. exists [x]. split; [discriminate | reflexivity].
Qed.

Lemma within_self (p : Path) :
  well_formed_path p = true ->
  within p (EvExists p) /\ within p (EvScandir (str p)).
Proof.
  intros Hwf. split; intros q [= <-]; [|rewrite (Path_of_str p Hwf)];
    apply is_relative_to_refl.
Qed.

Lemma within_child (p : Path) (x : string) : within p (EvIsDir (child p x)).
Proof.
  intros q [= <-]. apply (is_relative_to_parent _ p x), is_relative_to_refl.
Qed.

(** Rendering a path only makes calls at that path or below it. *)
Lemma generate_tree_within (n : node) :
  forall path prefix,
    well_formed_path path = true -> well_named n = true ->
    sat (within path) (fun _ => True) (Main.generate_tree w n path spec prefix).
Proof.
  induction n as [name | name err cs IH] using node_nested_ind;
    intros path prefix Hwf Hn; destruct (within_self path Hwf) as [Hex Hls].
  - cbn [Main.generate_tree].
    eapply sat_bind with (QA := fun _ => True).
    { unfold path_exists. eapply sat_bind; [apply sat_tell, Hex | intros; now apply sat_ret]. }
    intros e _. destruct (negb e); [now apply sat_ret|].
    apply sat_try_except; [|intros; now apply sat_ret].
    eapply sat_bind; [apply sat_tell, Hls | intros; apply sat_raise].
  - destruct err as [err|].
    + cbn [Main.generate_tree].
      eapply sat_bind with (QA := fun _ => True).
      { unfold path_exists.
        eapply sat_bind; [apply sat_tell, Hex | intros; now apply sat_ret]. }
      intros e _. destruct (negb e); [now apply sat_ret|].
      apply sat_try_except; [|intros; now apply sat_ret].
      eapply sat_bind; [apply sat_tell, Hls | intros; apply sat_raise].
    + unfold well_named in Hn. cbn [names_ok] in Hn. rewrite forallb_forall in Hn.
      apply generate_tree_dir_sat; try assumption.
      * intros rel q [=].
      * intros c _. apply within_child.
      * intros c Hc _ prefix'.
        rewrite List.Forall_forall in IH.
        specialize (Hn c Hc). apply andb_prop in Hn as [Hname Hsub].
        eapply sat_event_impl; [|apply (IH c Hc)].
        -- intros ev Hev q Hq. apply (is_relative_to_parent q path (node_name c)).
           now apply Hev.
        -- now apply well_formed_child.
        -- exact Hsub.
Qed.

(** The renderer never enters an excluded directory: while a directory is
    rendered, an entry that [should_exclude] excludes is never listed, and
    no call reaches a path below it. *)
Theorem generate_tree_never_enters_excluded
        (name : string) (children : list node) (path : Path) (prefix : string)
        (c : node) :
  well_formed_path path = true ->
  well_named (Dir name None children) = true ->
  In c children ->
  tree_excluded w path spec (child path (node_name c)) = true ->
  forall ev,
    In ev (trace (Main.generate_tree w (Dir name None children) path spec prefix)) ->
    (forall q, touches ev = Some q ->
               strictly_below q (child path (node_name c)) = false) /\
    (forall top, ev = EvScandir top -> Path_of top <> child path (node_name c)).
Proof.
  intros Hwf Hn Hc Hex.
  set (D := child path (node_name c)) in *.
  set (EvP := fun ev : event =>
         (forall q, touches ev = Some q -> strictly_below q D = false) /\
         (forall top, ev = EvScandir top -> Path_of top <> D)).
  assert (Happart : is_relative_to path D = false)
    by (apply not_relative_to_descendant, child_strictly_below).
  assert (Hpath : forall q, q = path -> strictly_below q D = false /\ q <> D).
  { intros q ->. split.
    - destruct (strictly_below path D) eqn:Hb; [|reflexivity].
      apply strictly_below_relative in Hb. congruence.
    - intros Heq. rewrite Heq, is_relative_to_refl in Happart. discriminate. }
  assert (Hsat : sat EvP (fun _ => True)
                     (Main.generate_tree w (Dir name None children) path spec prefix)).
  { apply generate_tree_dir_sat.
    - intros rel. split; [intros q [=] | intros top [=]].
    - split; [intros q [= <-]; now apply Hpath | intros top [=]].
    - split.
      + intros q [= <-]. rewrite (Path_of_str path Hwf). now apply Hpath.
      + intros top [= <-]. rewrite (Path_of_str path Hwf). now apply Hpath.
    - intros c' _. split; [|intros top [=]].
      intros q [= <-]. destruct (strictly_below (child path (node_name c')) D) eqn:Hb;
        [|reflexivity].
      apply strictly_below_child in Hb. congruence.
    - intros c' Hc' Hkeep prefix'.
      unfold well_named in Hn. cbn [names_ok] in Hn. rewrite forallb_forall in Hn.
      pose proof (Hn c' Hc') as Hn'. apply andb_prop in Hn' as [Hname Hsub].
      eapply sat_event_impl;
        [|apply (generate_tree_within c' (child path (node_name c')) prefix');
          [now apply well_formed_child | exact Hsub]].
      assert (Hne : forall q, is_relative_to q (child path (node_name c')) = true ->
                              is_relative_to q D = false).
      { intros q Hq. destruct (is_relative_to q D) eqn:HqD; [|reflexivity].
        pose proof (siblings_apart q path _ _ Hq HqD) as Heq.
        fold D in Heq. rewrite Heq in Hkeep. congruence. }
      intros ev Hev. split.
      + intros q Hq. destruct (strictly_below q D) eqn:Hb; [|reflexivity].
        apply strictly_below_relative in Hb. rewrite (Hne q (Hev q Hq)) in Hb.
        discriminate.
      + intros top -> Heq.
        assert (Hq : is_relative_to (Path_of top) (child path (node_name c')) = true)
          by (apply Hev; reflexivity).
        apply Hne in Hq. rewrite Heq, is_relative_to_refl in Hq. discriminate. }
  intros ev Hin. destruct Hsat as [Ht _].
  rewrite List.Forall_forall in Ht. exact (Ht ev Hin).
Qed.

End RendererStaysInside.

Lemma generate_tree_never_enters_excluded_witness :
  let path := PathLib.Path_of "/home/dev/proj" in
  let no_build : option PathSpec := Some (fun rel => Str.startswith rel "build") in
  let c := Dir "build" None [ Dir "dist" None [ File "output.js" ] ] in
  well_formed_path path = true /\
  well_named sample_tree = true /\
  In c sample_children /\
  tree_excluded sample_world path no_build (PathLib.child path (node_name c)) = true /\
  forall ev,
    In ev (trace (Main.generate_tree sample_world sample_tree path no_build "")) ->
    (forall q, touches ev = Some q ->
               PathLib.strictly_below q (PathLib.child path (node_name c)) = false) /\
    (forall top, ev = EvScandir top ->
                 PathLib.Path_of top <> PathLib.child path (node_name c)).
Proof.
  intros path no_build c.
  assert (Hc : In c sample_children) by (simpl; tauto).
  split; [reflexivity|]. split; [reflexivity|]. split; [exact Hc|].
  split; [reflexivity|].
  exact (generate_tree_never_enters_excluded sample_world no_build "proj" sample_children
           path "" c eq_refl eq_refl Hc eq_refl).
Defined.

(* ===================================================================== *)
(** ** Merging into the context file *)
(* ===================================================================== *)

Section OutputMonadFacts.
Context {A B : Type}.

Lemma bindO_retO (a : A) (k : A -> MO B) : bindO (retO a) k = k a.
Proof. unfold bindO, retO. now destruct (k a). Qed.

Lemma bindO_Ok_inv (m : MO A) (k : A -> MO B) (b : B) (t : list io_event) :
  bindO m k = (Ok b, t) ->
  exists a t1 t2, m = (Ok a, t1) /\ k a = (Ok b, t2) /\ t = t1 ++ t2.
Proof.
  destruct m as [[a|e] t1]; cbn [bindO]; [|discriminate].
  destruct (k a) as [r t2] eqn:Hk. intros [= -> <-]. now exists a, t1, t2.
Qed.

(** What follows a step decides how a sequence ends, when it returns. *)
Lemma bindO_ends (ev : io_event) (m : MO A) (k : A -> MO B) :
  (forall a b, resultO (k a) = Ok b -> exists t, traceO (k a) = t ++ [ev]) ->
  forall b, resultO (bindO m k) = Ok b -> exists t, traceO (bindO m k) = t ++ [ev].
Proof.
  intros Hk b. destruct m as [[a|e] t1]; cbn [bindO]; [|discriminate].
  specialize (Hk a). destruct (k a) as [r t2]. cbn [resultO traceO fst snd] in *.
  intros Hr. destruct (Hk b Hr) as (t & ->). exists (t1 ++ t). now rewrite app_assoc.
Qed.

(** A sequence raises when what follows its first step always does. *)
Lemma bindO_raises (m : MO A) (k : A -> MO B) :
  (forall a, exists e, resultO (k a) = Raise e) -> exists e, resultO (bindO m k) = Raise e.
Proof.
  intros Hk. destruct m as [[a|e] t1]; cbn [bindO]; [|now exists e].
  destruct (Hk a) as (e & He). destruct (k a) as [r t2]. now exists e.
Qed.

Lemma allO_retO (P : io_event -> Prop) (a : A) : allO P (retO a).
Proof. constructor. Qed.

Lemma allO_raiseO (P : io_event -> Prop) (e : exn) : allO P (raiseO (A := A) e).
Proof. constructor. Qed.

Lemma allO_bindO (P : io_event -> Prop) (m : MO A) (k : A -> MO B) :
  allO P m -> (forall a, resultO m = Ok a -> allO P (k a)) -> allO P (bindO m k).
Proof.
  unfold allO. intros Hm Hk. destruct m as [[a|e] t1]; cbn [bindO]; [|exact Hm].
  specialize (Hk a eq_refl). destruct (k a) as [r t2]. cbn [traceO snd] in *.
  apply Forall_app. now split.
Qed.

Lemma allO_try (P : io_event -> Prop) (m : MO A) (handler : exn -> MO A) :
  allO P m -> (forall e, allO P (handler e)) -> allO P (try_except_ExceptionO m handler).
Proof.
  unfold allO. intros Hm Hh. destruct m as [[a|e] t1]; cbn [try_except_ExceptionO]; [exact Hm|].
  specialize (Hh e). destruct (handler e) as [r t2]. cbn [traceO snd] in *.
  apply Forall_app. now split.
Qed.

Lemma allO_liftO (P : io_event -> Prop) (m : M A) :
  Forall (fun ev => P (Sys ev)) (trace m) -> allO P (liftO m).
Proof.
  unfold allO, liftO, trace. cbn [traceO snd]. intros H.
  induction H; constructor; assumption.
Qed.

End OutputMonadFacts.

Lemma allO_tellO (P : io_event -> Prop) (ev : io_event) : P ev -> allO P (tellO ev).
Proof. intros H. constructor; [exact H | constructor]. Qed.

Lemma allO_forO {A} (P : io_event -> Prop) (body : A -> MO unit) (l : list A) :
  (forall x, In x l -> allO P (body x)) -> allO P (forO body l).
Proof.
  induction l as [|x l IH]; intros H; cbn [forO]; [apply allO_retO|].
  apply allO_bindO; [apply H; now left | intros _ _; apply IH].
  intros y Hy. apply H. now right.
Qed.


Lemma written_app (t1 t2 : list io_event) :
  written (t1 ++ t2) = written t1 +:+ written t2.
Proof.
  induction t1 as [|ev t1 IH]; [reflexivity|].
  destruct ev; cbn [written app]; rewrite IH; [reflexivity.. | now rewrite StrFacts.append_assoc].
Qed.

(** Calls of code that does not hold the output file write nothing. *)
Lemma written_liftO {A} (m : M A) : written (traceO (liftO m)) = "".
Proof.
  unfold liftO, traceO. cbn [snd]. induction (snd m) as [|ev t IH]; [reflexivity | exact IH].
Qed.

Section Merge.
Import MainMerge.
Variable h : host.
Let w := h_world h.

(** Commented entries take no part in the loop over the file list. *)
Lemma forO_merge_one_comments (file_paths : list string) :
  forO (merge_one h) (List.filter (fun f => negb (is_comment_entry f)) file_paths) =
  forO (merge_one h) file_paths.
Proof.
  induction file_paths as [|f l IH]; [reflexivity|].
  cbn [List.filter forO]. destruct (is_comment_entry f) eqn:Hc; cbn [negb].
  - unfold merge_one at 2. unfold is_comment_entry in Hc. rewrite Hc.
    now rewrite bindO_retO.
  - cbn [forO]. now rewrite IH.
Qed.


(** The renderer asks for names and kinds only. *)
Lemma generate_tree_only_looks (spec : option PathSpec) (n : node) :
  forall path prefix,
    sat (fun ev => is_lookup ev = true) (fun _ => True)
        (Main.generate_tree w n path spec prefix).
Proof.
  induction n as [name | name err cs IH] using node_nested_ind; intros path prefix.
  - cbn [Main.generate_tree].
    eapply sat_bind with (QA := fun _ => True).
    { unfold path_exists. eapply sat_bind; [now apply sat_tell | intros; now apply sat_ret]. }
    intros e _. destruct (negb e); [now apply sat_ret|].
    apply sat_try_except; [|intros; now apply sat_ret].
    eapply sat_bind; [now apply sat_tell | intros; apply sat_raise].
  - destruct err as [err|].
    + cbn [Main.generate_tree].
      eapply sat_bind with (QA := fun _ => True).
      { unfold path_exists. eapply sat_bind; [now apply sat_tell | intros; now apply sat_ret]. }
      intros e _. destruct (negb e); [now apply sat_ret|].
      apply sat_try_except; [|intros; now apply sat_ret].
      eapply sat_bind; [now apply sat_tell | intros; apply sat_raise].
    + apply generate_tree_dir_sat; try reflexivity.
      intros c Hc _ prefix'. rewrite List.Forall_forall in IH. now apply IH.
Qed.

(** Reading a patterns file asks whether it exists and opens it; nothing
    else. *)
Lemma parse_patterns_file_calls (path : string) :
  Forall (fun ev => ev = EvExists (PathLib.Path_of path) \/ ev = EvOpen path)
         (trace (MainFiles.parse_patterns_file w path)).
Proof.
  unfold MainFiles.parse_patterns_file, MainFiles.open_text_lines, os_path_exists.
  destruct (w_exists w (PathLib.Path_of path)), (w_open_rb w path);
    cbn; repeat first [apply List.Forall_nil | apply List.Forall_cons; [now auto|]].
Qed.

Section Arguments.
Variable file_paths : list string.
Variable output_file : string.
Variable directory : option string.
Variable use_gitignore : bool.
Variable exclude_file : option string.

Let P := merge_may_open h file_paths output_file directory use_gitignore exclude_file.

Lemma merge_one_may_open (f : string) : In f file_paths -> allO P (merge_one h f).
Proof.
  intros Hf. unfold merge_one.
  destruct (Str.startswith (Text.strip f) "#") eqn:Hc; [apply allO_retO|].
  apply allO_bindO.
  { apply allO_liftO. repeat constructor. }
  intros e He. cbn in He. injection He as <-.
  destruct (w_exists (h_world h) (PathLib.Path_of f)) eqn:Hex; cbn [negb];
    [|apply allO_liftO; repeat constructor].
  apply allO_bindO.
  { unfold add_file_header.
    apply allO_bindO; [now apply allO_tellO | intros _ _].
    destruct (h_getsize h f); [apply allO_raiseO|].
    apply allO_bindO; [now apply allO_tellO | intros _ _].
    destruct (h_mtime h f); [apply allO_raiseO | apply allO_retO]. }
  intros header _.
  apply allO_bindO; [now apply allO_tellO | intros _ _].
  apply allO_try.
  - apply allO_bindO.
    + unfold read_text.
      apply allO_bindO.
      * apply allO_tellO. right. right. now repeat split.
      * intros _ _. destruct (w_open_rb _ f); [apply allO_raiseO | apply allO_retO].
    + intros text _. apply allO_bindO; [now apply allO_tellO | intros _ _].
      now apply allO_tellO.
  - intros e. apply allO_liftO. repeat constructor.
Qed.


(** [merge_files] never raises, and the last thing it does is to report:
    either that the context file was created, or the error that stopped
    it. *)
Theorem merge_files_always_reports :
  exists t msg,
    merge_files h file_paths output_file directory use_gitignore exclude_file
      = (Ok tt, t ++ [Sys (EvPrint msg)]) /\
    (msg = success_message output_file \/ exists e, msg = failure_message h e).
Proof.
  unfold merge_files.
  match goal with |- context [try_except_ExceptionO ?m _] => set (body := m) end.
  assert (Hends : forall b, resultO body = Ok b ->
            exists t, traceO body = t ++ [Sys (EvPrint (success_message output_file))]).
  { subst body. cbv zeta. repeat (apply bindO_ends; intros ?; cbv beta).
    intros [] _. now exists []. }
  destruct body as [[[]|e] tb]; cbn [try_except_ExceptionO].
  - destruct (Hends tt eq_refl) as (t & Ht). cbn [traceO snd] in Ht. subst tb.
    exists t, (success_message output_file). split; [reflexivity | now left].
  - exists tb, (failure_message h e). split; [reflexivity | right; now exists e].
Qed.

(** Entries of the file list that are commented out change nothing: the
    run is the same, call for call, as without them. *)
Theorem commented_entries_are_ignored :
  merge_files h (List.filter (fun f => negb (is_comment_entry f)) file_paths)
              output_file directory use_gitignore exclude_file =
  merge_files h file_paths output_file directory use_gitignore exclude_file.
Proof. unfold merge_files. now rewrite forO_merge_one_comments. Qed.

(** [merge_files] opens no file for writing but the output file, and reads
    no file but the pattern files and the listed files that exist and are
    not commented out; it runs no other program. *)
Theorem merge_files_opens_only_its_inputs :
  Forall (merge_may_open h file_paths output_file directory use_gitignore exclude_file)
         (traceO (merge_files h file_paths output_file directory use_gitignore exclude_file)).
Proof.
  change (allO P (merge_files h file_paths output_file directory use_gitignore exclude_file)).
  unfold merge_files.
  apply allO_try; [|intros e; apply allO_liftO; repeat constructor].
  cbv zeta. fold (effective_directory h directory).
  apply allO_bindO.
  { destruct use_gitignore eqn:Hg; [|apply allO_retO].
    apply allO_liftO. eapply Forall_impl; [apply parse_patterns_file_calls|].
    intros ev [-> | ->]; [exact I|]. left. now split. }
  intros gitignore_patterns _.
  apply allO_bindO.
  { destruct exclude_file as [f|] eqn:He; [|apply allO_retO].
    destruct (String.eqb f "") eqn:Hf; [apply allO_retO|].
    apply String.eqb_neq in Hf.
    apply allO_liftO. eapply Forall_impl; [apply parse_patterns_file_calls|].
    intros ev [-> | ->]; [exact I|]. right. left. now split. }
  intros exclude_patterns _.
  apply allO_bindO.
  { destruct (gitignore_patterns ++ exclude_patterns); [apply allO_retO|].
    destruct (h_compile h _); [apply allO_raiseO | apply allO_retO]. }
  intros spec _.
  apply allO_bindO; [now apply allO_tellO | intros _ _].
  apply allO_bindO.
  { destruct (h_open_w h output_file); [apply allO_raiseO | apply allO_retO]. }
  intros _ _.
  apply allO_bindO; [now apply allO_tellO | intros _ _].
  apply allO_bindO.
  { apply allO_liftO.
    eapply Forall_impl; [apply (generate_tree_only_looks spec)|].
    intros [] Hev; (exact I || discriminate Hev). }
  intros tree _.
  apply allO_bindO; [now apply allO_tellO | intros _ _].
  apply allO_bindO; [now apply allO_tellO | intros _ _].
  apply allO_bindO; [|intros _ _; apply allO_liftO; repeat constructor].
  apply allO_forO. intros f Hf. now apply merge_one_may_open.
Qed.

(** When the output file cannot be opened, nothing is written, the project
    tree is never listed and no listed file is looked at; the run ends by
    reporting an error. *)
Theorem unwritable_output_stops_the_merge (err : os_error) :
  h_open_w h output_file = Some err ->
  exists t e,
    traceO (merge_files h file_paths output_file directory use_gitignore exclude_file)
      = t ++ [Sys (EvPrint (failure_message h e))] /\
    written t = "" /\
    (forall top, ~ In (Sys (EvScandir top)) t) /\
    (forall f, In f file_paths -> ~ In (Sys (EvStat f)) t).
Proof.
  intros Hopen. unfold merge_files.
  match goal with |- context [try_except_ExceptionO ?m _] => set (body := m) end.
  set (Q := fun ev : io_event =>
              match ev with
              | Sys (EvExists _) | Sys (EvOpen _) | OpenForWriting _ => True
              | _ => False
              end).
  assert (Hq : allO Q body).
  { subst body. cbv zeta.
    assert (Hp : forall p, allO Q (liftO (MainFiles.parse_patterns_file (h_world h) p))).
    { intros p. apply allO_liftO. eapply Forall_impl; [apply parse_patterns_file_calls|].
      now intros ev [-> | ->]. }
    apply allO_bindO; [destruct use_gitignore; [apply Hp | apply allO_retO] | intros ? _].
    apply allO_bindO; [|intros ? _].
    { destruct exclude_file as [f|]; [|apply allO_retO].
      destruct (String.eqb f ""); [apply allO_retO | apply Hp]. }
    apply allO_bindO; [|intros ? _].
    { destruct (_ ++ _); [apply allO_retO|].
      destruct (h_compile h _); [apply allO_raiseO | apply allO_retO]. }
    apply allO_bindO; [now apply allO_tellO | intros _ _].
    rewrite Hopen. constructor. }
  assert (Hr : exists e, resultO body = Raise e).
  { subst body. cbv zeta. do 4 (apply bindO_raises; intros ?).
    rewrite Hopen. now eexists. }
  destruct Hr as (e & Hr). destruct body as [r tb]. cbn [resultO fst] in Hr. subst r.
  cbn [try_except_ExceptionO liftO print tell fst snd map traceO].
  exists tb, e. split; [reflexivity|].
  unfold allO in Hq. cbn [traceO snd] in Hq. rewrite List.Forall_forall in Hq.
  split; [|split].
  - clear -Hq. induction tb as [|ev tb IH]; [reflexivity|].
    pose proof (Hq ev (or_introl eq_refl)) as Hev.
    destruct ev as [[]| |]; try destruct Hev; cbn [written]; apply IH;
      intros x Hx; apply Hq; now right.
  - intros top Hin. exact (Hq _ Hin).
  - intros f _ Hin. exact (Hq _ Hin).
Qed.



(** When the run ends with the success message, the output file holds, in
    this order: the conversation header, an empty line, the lines of the
    rendered tree, two line ends, the separator, and what the loop over the
    listed files wrote. *)
Theorem output_layout (t : list io_event) :
  traceO (merge_files h file_paths output_file directory use_gitignore exclude_file)
    = t ++ [Sys (EvPrint (success_message output_file))] ->
  exists header spec tree,
    traceO (write_conversation_header h (effective_directory h directory)) = [Write header] /\
    result (Main.generate_tree w (w_tree w)
              (PathLib.Path_of (OsPath.abspath (w_cwd w) (effective_directory h directory)))
              spec "") = Ok tree /\
    written t =
      header +:+ (nl +:+ Str.join nl tree +:+ nl +:+ nl) +:+ separator +:+
      written (traceO (forO (merge_one h) file_paths)).
Proof.
  unfold merge_files.
  match goal with |- context [try_except_ExceptionO ?m _] =>
    destruct m as [[[]|e] tb] eqn:Hb end;
    cbn [try_except_ExceptionO liftO print tell fst snd map traceO]; intros Ht.
  2:{ apply app_inj_tail in Ht as [_ Ht]. vm_compute in Ht. discriminate Ht. }
  cbv zeta in Hb. fold (effective_directory h directory) in Hb.
  apply bindO_Ok_inv in Hb as (gitignore_patterns & t1 & r1 & H1 & Hb & ->).
  apply bindO_Ok_inv in Hb as (exclude_patterns & t2 & r2 & H2 & Hb & ->).
  apply bindO_Ok_inv in Hb as (spec & t3 & r3 & H3 & Hb & ->).
  apply bindO_Ok_inv in Hb as ([] & t4 & r4 & H4 & Hb & ->).
  apply bindO_Ok_inv in Hb as ([] & t5 & r5 & H5 & Hb & ->).
  apply bindO_Ok_inv in Hb as ([] & t6 & r6 & H6 & Hb & ->).
  apply bindO_Ok_inv in Hb as (tree & t7 & r7 & H7 & Hb & ->).
  apply bindO_Ok_inv in Hb as ([] & t8 & r8 & H8 & Hb & ->).
  apply bindO_Ok_inv in Hb as ([] & t9 & r9 & H9 & Hb & ->).
  apply bindO_Ok_inv in Hb as ([] & t10 & r10 & Hloop & Hb & ->).
  cbn [liftO print tell fst snd map] in Hb. injection Hb as <-.
  rewrite !app_assoc in Ht. apply app_inj_tail in Ht as [<- _].
  assert (W1 : written t1 = "").
  { destruct use_gitignore; [|now injection H1 as _ <-].
    rewrite <- (written_liftO (MainFiles.parse_patterns_file (h_world h)
                  (OsPath.join (effective_directory h directory) ".gitignore"))).
    now rewrite H1. }
  assert (W2 : written t2 = "").
  { destruct exclude_file as [f|]; [|now injection H2 as _ <-].
    destruct (String.eqb f ""); [now injection H2 as _ <-|].
    rewrite <- (written_liftO (MainFiles.parse_patterns_file (h_world h) f)).
    now rewrite H2. }
  assert (W3 : written t3 = "").
  { destruct (gitignore_patterns ++ exclude_patterns); [now injection H3 as _ <-|].
    destruct (h_compile h _); [discriminate H3 | now injection H3 as _ <-]. }
  assert (W5 : written t5 = "").
  { destruct (h_open_w h output_file); [discriminate H5 | now injection H5 as <-]. }
  assert (W7 : written t7 = "").
  { rewrite <- (written_liftO (Main.generate_tree (h_world h) (w_tree (h_world h))
        (PathLib.Path_of (OsPath.abspath (w_cwd (h_world h)) (effective_directory h directory)))
        spec "")).
    now rewrite H7. }
  injection H4 as <-. injection H8 as <-. injection H9 as <-.
  eexists _, spec, tree. split; [reflexivity|]. split.
  { apply (f_equal fst) in H7. exact H7. }
  unfold write_conversation_header in H6. injection H6 as <-.
  rewrite !written_app, W1, W2, W3, W5, W7, Hloop.
  cbn [written traceO snd].
  rewrite !StrFacts.append_nil_l, !StrFacts.append_nil_r, !StrFacts.append_assoc.
  reflexivity.
Qed.

End Arguments.

End Merge.

Section MergeIncludes.
Import MainMerge.
Context {F : Faults}.
Variable h : host.



End MergeIncludes.


Lemma unwritable_output_stops_the_merge_witness :
  let file_paths := ["/home/dev/proj/README.md"] in
  let output_file := "/readonly/context.txt" in
  h_open_w sample_host output_file = Some EACCES /\
  exists t e,
    traceO (MainMerge.merge_files sample_host file_paths output_file
              (Some "/home/dev/proj") true None)
      = t ++ [Sys (EvPrint (failure_message sample_host e))] /\
    written t = "" /\
    (forall top, ~ In (Sys (EvScandir top)) t) /\
    (forall f, In f file_paths -> ~ In (Sys (EvStat f)) t).
Proof.
  intros file_paths output_file. split; [reflexivity|].
  exact (unwritable_output_stops_the_merge sample_host file_paths output_file
           (Some "/home/dev/proj") true None EACCES eq_refl).
Defined.

Lemma output_layout_witness :
  let run := traceO (MainMerge.merge_files sample_host ["/home/dev/proj/README.md"]
                       "context.txt" None false None) in
  run = removelast run ++ [Sys (EvPrint (success_message "context.txt"))] /\
  exists header spec tree,
    traceO (MainMerge.write_conversation_header sample_host "/home/dev") = [Write header] /\
    result (Main.generate_tree sample_world sample_tree (PathLib.Path_of "/home/dev") spec "")
      = Ok tree /\
    written (removelast run) =
      header +:+ (MainMerge.nl +:+ Str.join MainMerge.nl tree +:+ MainMerge.nl +:+ MainMerge.nl)
        +:+ MainMerge.separator +:+
      written (traceO (forO (MainMerge.merge_one sample_host) ["/home/dev/proj/README.md"])).
Proof.
  intros run.
  assert (Hrun : run = removelast run ++ [Sys (EvPrint (success_message "context.txt"))])
    by (vm_compute; reflexivity).
  split; [exact Hrun|].
  exact (output_layout sample_host ["/home/dev/proj/README.md"] "context.txt" None false None
           (removelast run) Hrun).
Defined.

(* ===================================================================== *)
(** ** The class bodies of the JavaScript extractor *)
(* ===================================================================== *)

Section ClassBodies.
Import JavaScript.
Open Scope Z_scope.

(** What a character adds to the brace depth. *)
Let delta (c : ascii) : Z :=
  if Ascii.eqb c "{" then 1 else if Ascii.eqb c "}" then -1 else 0.

Let depthl (l : list ascii) : Z := brace_depth (string_of_list_ascii l).

Lemma depthl_cons (c : ascii) (l : list ascii) : depthl (c :: l) = delta c + depthl l.
Proof.
  unfold depthl, brace_depth, delta. cbn [string_of_list_ascii count_char].
  destruct (Ascii.eqb c "{") eqn:Ho; destruct (Ascii.eqb c "}") eqn:Hc; try lia.
  apply Ascii.eqb_eq in Ho, Hc. congruence.
Qed.

Lemma depthl_nil : depthl [] = 0.
Proof. reflexivity. Qed.

Lemma length_string_of_list_ascii (l : list ascii) :
  String.length (string_of_list_ascii l) = length l.
Proof. induction l as [|c l IH]; [reflexivity | cbn; now rewrite IH]. Qed.

(** The search stops at the first brace that brings the count to zero. *)
Lemma find_closing_brace_Some (window : list ascii) :
  forall i brace_count j,
    1 <= brace_count ->
    find_closing_brace window i brace_count = Some j ->
    exists k : nat,
      j = i + Z.of_nat k /\ window !! k = Some "}"%char /\
      brace_count + depthl (take k window) = 1 /\
      forall k' : nat, (k' <= k)%nat -> 1 <= brace_count + depthl (take k' window).
Proof.
  induction window as [|c window IH]; intros i bc j Hbc; cbn [find_closing_brace];
    [discriminate|].
  assert (Hstep : forall bc', 1 <= bc' -> bc' = bc + delta c ->
            find_closing_brace window (i + 1) bc' = Some j ->
            exists k : nat,
              j = i + Z.of_nat k /\ (c :: window) !! k = Some "}"%char /\
              bc + depthl (take k (c :: window)) = 1 /\
              forall k' : nat, (k' <= k)%nat -> 1 <= bc + depthl (take k' (c :: window))).
  { intros bc' Hbc' Hd Hf. destruct (IH _ _ _ Hbc' Hf) as (k & -> & Hk & Hdepth & Hpre).
    exists (S k). split; [lia|]. split; [exact Hk|]. split.
    - cbn [firstn]. rewrite depthl_cons. lia.
    - intros [|k'] Hk'; [cbn [firstn]; rewrite depthl_nil; lia|].
      cbn [firstn]. rewrite depthl_cons. specialize (Hpre k'). lia. }
  destruct (Ascii.eqb c "{") eqn:Ho.
  - apply Hstep; [lia | unfold delta; rewrite Ho; lia].
  - destruct (Ascii.eqb c "}") eqn:Hc.
    + cbv zeta. destruct (bc - 1 =? 0) eqn:Hz.
      * intros [= <-]. apply Z.eqb_eq in Hz. apply Ascii.eqb_eq in Hc. subst c.
        exists 0%nat. split; [lia|]. split; [reflexivity|].
        split; [cbn [firstn]; rewrite depthl_nil; lia|].
        intros k' Hk'. assert (k' = 0%nat) as -> by lia.
        cbn [firstn]. rewrite depthl_nil. lia.
      * apply Z.eqb_neq in Hz. apply Hstep; [lia | unfold delta; rewrite Ho, Hc; lia].
    + apply Hstep; [lia | unfold delta; rewrite Ho, Hc; lia].
Qed.

(** The search finds nothing when the count never comes to zero. *)
Lemma find_closing_brace_None (window : list ascii) :
  forall i brace_count,
    (forall k : nat, (k <= length window)%nat -> 1 <= brace_count + depthl (take k window)) ->
    find_closing_brace window i brace_count = None.
Proof.
  induction window as [|c window IH]; intros i bc H; cbn [find_closing_brace]; [reflexivity|].
  assert (H1 : 1 <= bc + delta c).
  { specialize (H 1%nat). cbn [firstn length] in H.
    rewrite depthl_cons, take_0, depthl_nil in H. lia. }
  assert (Hrest : forall k : nat, (k <= length window)%nat ->
                    1 <= (bc + delta c) + depthl (take k window)).
  { intros k Hk. specialize (H (S k)). cbn [firstn length] in H. rewrite depthl_cons in H. lia. }
  unfold delta in H1, Hrest.
  destruct (Ascii.eqb c "{").
  - apply IH. intros k Hk. specialize (Hrest k Hk). lia.
  - destruct (Ascii.eqb c "}").
    + cbv zeta. destruct (bc - 1 =? 0) eqn:Hz; [apply Z.eqb_eq in Hz; lia|].
      apply IH. intros k Hk. specialize (Hrest k Hk). lia.
    + apply IH. intros k Hk. specialize (Hrest k Hk). lia.
Qed.


Lemma slice_take (content : string) (a : Z) (k : nat) :
  slice content a (a + Z.of_nat k) =
  string_of_list_ascii (take k (drop (Z.to_nat a) (list_ascii_of_string content))).
Proof. unfold slice. now replace (Z.to_nat (a + Z.of_nat k - a)) with k by lia. Qed.

(** What the search returns, in terms of the characters after
    [start_pos]: nothing, or the offset of a closing brace before which the
    braces balance and never close. *)
Lemma class_end_pos_cases (content : string) (start_pos : Z) :
  let chars := drop (Z.to_nat start_pos) (list_ascii_of_string content) in
  (class_end_pos content start_pos = start_pos) \/
  exists k : nat,
    class_end_pos content start_pos = start_pos + Z.of_nat k /\
    Z.of_nat k < search_limit /\
    chars !! k = Some "}"%char /\
    depthl (take k chars) = 0 /\
    forall k' : nat, (k' <= k)%nat -> 0 <= depthl (take k' chars).
Proof.
  intros chars. unfold class_end_pos. fold chars.
  destruct (find_closing_brace _ _ _) as [j|] eqn:Hfind; [right | now left].
  apply find_closing_brace_Some in Hfind as (k & -> & Hk & Hdepth & Hpre); [|lia].
  apply lookup_take_Some in Hk as [Hk Hlt].
  exists k. split; [reflexivity|]. split; [unfold search_limit in *; lia|].
  split; [exact Hk|].
  assert (Htake : forall k' : nat, (k' <= k)%nat ->
            take k' (take (Z.to_nat search_limit) chars) = take k' chars).
  { intros k' Hk'. rewrite take_take. f_equal. lia. }
  split.
  - rewrite Htake in Hdepth by lia. lia.
  - intros k' Hk'. specialize (Hpre k' Hk'). rewrite Htake in Hpre by lia. lia.
Qed.

(** The body cut out for a class is shorter than the search window of
    10000 characters, so that the test that skips a class whose body
    exceeds 50000 characters never succeeds. *)
Theorem class_body_is_bounded (content : string) (start_pos : Z) :
  len (class_body content start_pos) < search_limit /\
  class_is_skipped content start_pos = false.
Proof.
  assert (Hlen : len (class_body content start_pos) < search_limit).
  { unfold class_body, len.
    destruct (class_end_pos_cases content start_pos) as [-> | (k & -> & Hk & _)].
    - unfold slice. replace (Z.to_nat (start_pos - start_pos)) with 0%nat by lia.
      rewrite take_0. unfold search_limit. cbn. lia.
    - rewrite slice_take, length_string_of_list_ascii, length_take. lia. }
  split; [exact Hlen|].
  unfold class_is_skipped. fold (len (class_body content start_pos)).
  rewrite Z.gtb_ltb. apply Z.ltb_ge. unfold search_limit in Hlen. lia.
Qed.

(** The body cut out for a class never closes more braces than it has
    opened, at any point; and when a closing brace was found, the body
    closes every brace it opens and is followed by that closing brace. *)
Theorem class_body_is_balanced (content : string) (start_pos : Z) :
  0 <= start_pos ->
  let end_pos := class_end_pos content start_pos in
  (forall k, start_pos <= k <= end_pos -> 0 <= brace_depth (slice content start_pos k)) /\
  (end_pos <> start_pos ->
   brace_depth (class_body content start_pos) = 0 /\
   slice content end_pos (end_pos + 1) = "}").
Proof.
  intros Hstart end_pos. subst end_pos. unfold class_body.
  destruct (class_end_pos_cases content start_pos)
    as [-> | (k & -> & _ & Hk & Hdepth & Hpre)].
  - split; [|congruence].
    intros j Hj. assert (j = start_pos + Z.of_nat 0) as -> by lia.
    rewrite slice_take, take_0. change (0 <= depthl []). rewrite depthl_nil. lia.
  - split.
    + intros j Hj. assert (j = start_pos + Z.of_nat (Z.to_nat (j - start_pos))) as -> by lia.
      rewrite slice_take. apply Hpre. lia.
    + intros _. split; [rewrite slice_take; exact Hdepth|].
      rewrite lookup_drop in Hk.
      unfold slice.
      replace (Z.to_nat (start_pos + Z.of_nat k + 1 - (start_pos + Z.of_nat k)))
        with 1%nat by lia.
      replace (Z.to_nat (start_pos + Z.of_nat k)) with (Z.to_nat start_pos + k)%nat by lia.
      rewrite (drop_S _ _ _ Hk). reflexivity.
Qed.

(** When the braces after [start_pos] do not close within the search
    window (the class is not closed, or it is longer than 10000
    characters), the body cut out for the class is empty. *)
Theorem unclosed_class_has_empty_body (content : string) (start_pos : Z) :
  (forall k, start_pos <= k <= start_pos + search_limit ->
             0 <= brace_depth (slice content start_pos k)) ->
  class_body content start_pos = "".
Proof.
  intros Hopen. unfold class_body.
  assert (Hend : class_end_pos content start_pos = start_pos).
  { unfold class_end_pos. rewrite find_closing_brace_None; [reflexivity|].
    intros k Hk. rewrite length_take in Hk.
    rewrite take_take. replace (k `min` Z.to_nat search_limit)%nat with k by lia.
    specialize (Hopen (start_pos + Z.of_nat k)). rewrite slice_take in Hopen.
    assert (0 <= search_limit) by (unfold search_limit; lia).
    unfold depthl. lia. }
  rewrite Hend. unfold slice. replace (Z.to_nat (start_pos - start_pos)) with 0%nat by lia.
  now rewrite take_0.
Qed.

End ClassBodies.

Lemma class_body_is_balanced_witness :
  let content := "class A { m() { } } export" in
  (0 <= 9)%Z /\
  let end_pos := JavaScript.class_end_pos content 9 in
  (forall k, (9 <= k <= end_pos)%Z ->
             (0 <= brace_depth (JavaScript.slice content 9 k))%Z) /\
  (end_pos <> 9%Z ->
   brace_depth (JavaScript.class_body content 9) = 0%Z /\
   JavaScript.slice content end_pos (end_pos + 1) = "}").
Proof.
  intros content. split; [lia|].
  apply (class_body_is_balanced content 9). lia.
Defined.

Lemma unclosed_class_has_empty_body_witness :
  let content := "class A { m() { x" in
  (forall k, (9 <= k <= 9 + JavaScript.search_limit)%Z ->
             (0 <= brace_depth (JavaScript.slice content 9 k))%Z) /\
  JavaScript.class_body content 9 = "".
Proof.
  intros content.
  assert (Hopen : forall k, (9 <= k <= 9 + JavaScript.search_limit)%Z ->
                            (0 <= brace_depth (JavaScript.slice content 9 k))%Z).
  { intros k _. unfold JavaScript.slice. generalize (Z.to_nat (k - 9)). intros n.
    do 9 (destruct n as [|n]; [vm_compute; discriminate|]).
    vm_compute. discriminate. }
  split; [exact Hopen|].
  exact (unclosed_class_has_empty_body content 9 Hopen).
Defined.

(* ===================================================================== *)
(** ** The answer of the JavaScript extractor for a file *)
(* ===================================================================== *)

Section JavaScriptFiles.
Import JavaScript.
Context {F : Faults}.
Variable w : world.
Variable rx : regex_matches.

(** Two dictionaries that differ at most in their ["error"] key. *)
Let same_but_error (r1 r2 : signatures) : Prop :=
  sg_imports r1 = sg_imports r2 /\ sg_exports r1 = sg_exports r2 /\
  sg_functions r1 = sg_functions r2 /\ sg_classes r1 = sg_classes r2 /\
  sg_react_components r1 = sg_react_components r2 /\
  sg_file_type r1 = sg_file_type r2 /\ sg_has_jsx r1 = sg_has_jsx r2 /\
  sg_interfaces r1 = sg_interfaces r2 /\ sg_note r1 = sg_note r2.

(** The keys that formatting needs are present, and the file type is [ft]. *)
Let complete (ft : string) (r : signatures) : Prop :=
  sg_file_type r = Some ft /\ sg_has_jsx r <> None /\ sg_imports r <> None /\
  sg_exports r <> None /\ sg_functions r <> None /\ sg_classes r <> None.

(** The ["error"] key is not formatted. *)
Lemma format_same_but_error (r1 r2 : signatures) :
  same_but_error r1 r2 -> format_js_signatures r1 = format_js_signatures r2.
Proof.
  intros (H1 & H2 & H3 & H4 & H5 & H6 & H7 & H8 & _).
  unfold format_js_signatures. now rewrite H1, H2, H3, H4, H5, H6, H7, H8.
Qed.

Lemma format_complete (ft : string) (r : signatures) :
  complete ft r -> exists rest, format_js_signatures r = inr ("# " +:+ ft +:+ rest).
Proof.
  intros (Hft & Hj & Hi & He & Hf & Hc). unfold format_js_signatures. rewrite Hft.
  destruct (sg_has_jsx r) as [jsx|]; [|congruence].
  destruct (sg_imports r) as [imports|]; [|congruence].
  destruct (sg_exports r) as [exports|]; [|congruence].
  destruct (sg_functions r) as [functions|]; [|congruence].
  destruct (sg_classes r) as [classes|]; [|congruence].
  cbn [app]. rewrite join_cons by discriminate.
  eexists. f_equal. rewrite !StrFacts.append_assoc. reflexivity.
Qed.

(** Each statement of the [try] block treats two dictionaries that differ
    in the error alike, and keeps the keys that formatting needs. *)
Lemma extraction_steps_alike (content : string) (is_typescript has_jsx : bool) :
  Forall (fun step : signatures -> M signatures =>
            forall r1 r2, same_but_error r1 r2 ->
              match step r1, step r2 with
              | (Ok r1', t1), (Ok r2', t2) => t1 = t2 /\ same_but_error r1' r2'
              | (Raise e1, t1), (Raise e2, t2) => t1 = t2
              | _, _ => False
              end)
         (extraction_steps rx content is_typescript has_jsx).
Proof.
  unfold extraction_steps.
  repeat first [apply List.Forall_nil | apply List.Forall_cons]; intros r1 r2 Hr.
  - destruct (extract_imports_exports rx content) as [[x|e] t]; cbn [bind ret];
      [|reflexivity].
    split; [reflexivity|]. unfold same_but_error in *. cbn. tauto.
  - destruct (extract_functions rx content) as [[x|e] t]; cbn [bind ret]; [|reflexivity].
    split; [reflexivity|]. unfold same_but_error in *. cbn. tauto.
  - destruct (extract_classes rx content) as [[x|e] t]; cbn [bind ret]; [|reflexivity].
    split; [reflexivity|]. unfold same_but_error in *. cbn. tauto.
  - destruct has_jsx; [|now split].
    destruct (extract_react_functional_components rx content) as [[x|e] t]; cbn [bind ret];
      [|reflexivity].
    split; [reflexivity|]. unfold same_but_error in *. cbn. tauto.
  - destruct is_typescript; [|now split].
    destruct (extract_typescript_interfaces rx content) as [[x|e] t]; cbn [bind ret];
      [|reflexivity].
    split; [reflexivity|]. unfold same_but_error in *. cbn. tauto.
Qed.

Lemma extraction_steps_complete (ft content : string) (is_typescript has_jsx : bool) :
  Forall (fun step : signatures -> M signatures =>
            forall r r' t, complete ft r -> step r = (Ok r', t) -> complete ft r')
         (extraction_steps rx content is_typescript has_jsx).
Proof.
  unfold extraction_steps.
  repeat first [apply List.Forall_nil | apply List.Forall_cons]; intros r r' t Hr.
  - destruct (extract_imports_exports rx content) as [[x|e] t0]; cbn [bind ret];
      [|discriminate].
    intros [= <- _]. unfold complete in *. cbn. intuition congruence.
  - destruct (extract_functions rx content) as [[x|e] t0]; cbn [bind ret]; [|discriminate].
    intros [= <- _]. unfold complete in *. cbn. intuition congruence.
  - destruct (extract_classes rx content) as [[x|e] t0]; cbn [bind ret]; [|discriminate].
    intros [= <- _]. unfold complete in *. cbn. intuition congruence.
  - destruct has_jsx; [|now intros [= <- _]].
    destruct (extract_react_functional_components rx content) as [[x|e] t0]; cbn [bind ret];
      [|discriminate].
    intros [= <- _]. unfold complete in *. cbn. intuition congruence.
  - destruct is_typescript; [|now intros [= <- _]].
    destruct (extract_typescript_interfaces rx content) as [[x|e] t0]; cbn [bind ret];
      [|discriminate].
    intros [= <- _]. unfold complete in *. cbn. intuition congruence.
Qed.


Lemma run_steps_alike (steps : list (signatures -> M signatures))
      (h1 h2 : exn -> signatures -> M signatures) :
  Forall (fun step : signatures -> M signatures =>
            forall r1 r2, same_but_error r1 r2 ->
              match step r1, step r2 with
              | (Ok r1', t1), (Ok r2', t2) => t1 = t2 /\ same_but_error r1' r2'
              | (Raise e1, t1), (Raise e2, t2) => t1 = t2
              | _, _ => False
              end) steps ->
  (forall e1 e2 r1 r2, same_but_error r1 r2 ->
     exists r1' r2', result (h1 e1 r1) = Ok r1' /\ result (h2 e2 r2) = Ok r2' /\
                     same_but_error r1' r2') ->
  forall r1 r2, same_but_error r1 r2 ->
    exists r1' r2', result (run_steps steps r1 h1) = Ok r1' /\
                    result (run_steps steps r2 h2) = Ok r2' /\
                    same_but_error r1' r2'.
Proof.
  intros Hsteps Hh. induction Hsteps as [|step steps Hstep _ IH]; intros r1 r2 Hr.
  - now exists r1, r2.
  - cbn [run_steps]. specialize (Hstep r1 r2 Hr).
    destruct (step r1) as [[a1|e1] t1], (step r2) as [[a2|e2] t2]; try contradiction.
    + destruct Hstep as [_ Ha]. destruct (IH a1 a2 Ha) as (r1' & r2' & H1 & H2 & H').
      exists r1', r2'. unfold result in *.
      destruct (run_steps steps a1 h1), (run_steps steps a2 h2). now cbn in *.
    + destruct (Hh e1 e2 r1 r2 Hr) as (r1' & r2' & H1 & H2 & H').
      exists r1', r2'. unfold result in *.
      destruct (h1 e1 r1), (h2 e2 r2). now cbn in *.
Qed.

Lemma run_steps_complete (ft : string) (steps : list (signatures -> M signatures))
      (handler : exn -> signatures -> M signatures) :
  Forall (fun step : signatures -> M signatures =>
            forall r r' t, complete ft r -> step r = (Ok r', t) -> complete ft r') steps ->
  (forall e r, complete ft r -> exists r', result (handler e r) = Ok r' /\ complete ft r') ->
  forall r, complete ft r ->
    exists r', result (run_steps steps r handler) = Ok r' /\ complete ft r'.
Proof.
  intros Hsteps Hh. induction Hsteps as [|step steps Hstep _ IH]; intros r Hr.
  - now exists r.
  - cbn [run_steps]. destruct (step r) as [[a|e] t] eqn:Hs.
    + destruct (IH a (Hstep r a t Hr Hs)) as (r' & H1 & H').
      exists r'. unfold result in *. destruct (run_steps steps a handler). now cbn in *.
    + destruct (Hh e r Hr) as (r' & H1 & H').
      exists r'. unfold result in *. destruct (handler e r). now cbn in *.
Qed.

(** What [get_js_signatures] does with a file, by what opening and
    decoding it gives. *)
Lemma get_js_signatures_unreadable (str_of_exn : exn -> string) (file_path : string)
      (err : os_error) :
  w_open_rb w file_path = inl err ->
  get_js_signatures w rx str_of_exn file_path =
  (Ok (only_error ("Could not read file: " +:+ str_of_exn (exn_of_os_error err))),
   [EvOpen file_path]).
Proof. intros Hopen. unfold get_js_signatures, read_text. rewrite Hopen. reflexivity. Qed.

Lemma get_js_signatures_undecodable (str_of_exn : exn -> string) (file_path : string)
      (bytes : list Byte.byte) :
  w_open_rb w file_path = inr bytes ->
  decodable bytes = false ->
  get_js_signatures w rx str_of_exn file_path =
  (Ok (only_error ("Could not read file: " +:+ str_of_exn UnicodeDecodeError)),
   [EvOpen file_path]).
Proof.
  intros Hopen Hdec. unfold get_js_signatures, read_text, decode. rewrite Hopen.
  unfold decodable in Hdec. rewrite Hdec. reflexivity.
Qed.

Lemma get_js_signatures_large (str_of_exn : exn -> string) (file_path : string)
      (bytes : list Byte.byte) :
  w_open_rb w file_path = inr bytes ->
  decodable bytes = true ->
  (len (text_of bytes) >? 200000)%Z = true ->
  get_js_signatures w rx str_of_exn file_path = (Ok large_file_result, [EvOpen file_path]).
Proof.
  intros Hopen Hdec Hlen. unfold get_js_signatures, read_text, decode. rewrite Hopen.
  unfold decodable in Hdec. rewrite Hdec.
  cbn [bind tell ret try_except_Exception app]. fold (text_of bytes). now rewrite Hlen.
Qed.

Lemma get_js_signatures_readable (str_of_exn : exn -> string) (file_path : string)
      (bytes : list Byte.byte) :
  w_open_rb w file_path = inr bytes ->
  decodable bytes = true ->
  (len (text_of bytes) >? 200000)%Z = false ->
  let content := text_of bytes in
  let is_typescript := Str.endswith_any (Str.lower file_path) [".ts"; ".tsx"] in
  let has_jsx := Str.endswith_any (Str.lower file_path) [".jsx"; ".tsx"]
                 || (Str.contains "<"%char content && Str.contains ">"%char content) in
  result (get_js_signatures w rx str_of_exn file_path) =
  result (run_steps (extraction_steps rx content is_typescript has_jsx)
            (initial_result (if is_typescript then "TypeScript" else "JavaScript") has_jsx)
            (fun e r =>
               do_ print ("Warning: Error extracting signatures from " +:+ file_path +:+
                          ": " +:+ str_of_exn e);
               ret (set_error r (str_of_exn e)))).
Proof.
  intros Hopen Hdec Hlen content is_typescript has_jsx.
  unfold get_js_signatures, read_text, decode. rewrite Hopen.
  unfold decodable in Hdec. rewrite Hdec.
  cbn [bind tell ret try_except_Exception app]. fold (text_of bytes). rewrite Hlen.
  subst content is_typescript has_jsx. unfold result.
  now destruct (run_steps _ _ _).
Qed.

(** The answer, from the dictionary that [get_js_signatures] returns. *)
Lemma process_js_file_result (str_of_exn : exn -> string) (file_path : string)
      (r : signatures) :
  result (get_js_signatures w rx str_of_exn file_path) = Ok r ->
  result (process_js_file w rx str_of_exn file_path) =
  Ok match format_js_signatures r with
     | inr text => text
     | inl (KeyError key) =>
         "Error processing JavaScript/TypeScript file: " +:+ "'" +:+ key +:+ "'"
     end.
Proof.
  unfold process_js_file, result. destruct (get_js_signatures _ _ _ _) as [o t].
  cbn [fst]. intros ->. cbn [bind]. now destruct (format_js_signatures r) as [[key]|text].
Qed.

(** For a file that cannot be opened, the answer is the message of the
    [KeyError] that formatting raises on a dictionary without
    ["file_type"]; why the file could not be read is not part of it. *)
Theorem unreadable_js_file_answer (str_of_exn : exn -> string) (file_path : string)
        (err : os_error) :
  w_open_rb w file_path = inl err ->
  process_js_file w rx str_of_exn file_path =
  (Ok "Error processing JavaScript/TypeScript file: 'file_type'", [EvOpen file_path]).
Proof.
  intros Hopen. unfold process_js_file.
  rewrite (get_js_signatures_unreadable _ _ _ Hopen). reflexivity.
Qed.

(** A file that opens but is not text is answered like one that does not
    open. *)
Lemma undecodable_js_file_answer (str_of_exn : exn -> string) (file_path : string)
      (bytes : list Byte.byte) :
  w_open_rb w file_path = inr bytes ->
  decodable bytes = false ->
  process_js_file w rx str_of_exn file_path =
  (Ok "Error processing JavaScript/TypeScript file: 'file_type'", [EvOpen file_path]).
Proof.
  intros Hopen Hdec. unfold process_js_file.
  rewrite (get_js_signatures_undecodable _ _ _ Hopen Hdec). reflexivity.
Qed.

Lemma ascii_is_decodable (bytes : list Byte.byte) :
  forallb is_ascii_byte bytes = true -> decodable bytes = true.
Proof. intros H. unfold decodable. rewrite H. apply orb_true_r. Qed.

(** For a file of ASCII text that has more than 200000 characters once
    its line ends are read as ["\n"], the answer is the one line
    ["# Large File File"] and a line end: nothing is searched for, and the
    note that the file is too large is not shown. *)
Theorem large_js_file_answer (str_of_exn : exn -> string) (file_path : string)
        (bytes : list Byte.byte) :
  w_open_rb w file_path = inr bytes ->
  forallb is_ascii_byte bytes = true ->
  (len (text_of bytes) >? 200000)%Z = true ->
  process_js_file w rx str_of_exn file_path =
  (Ok ("# Large File File" +:+ nl), [EvOpen file_path]).
Proof.
  intros Hopen Hascii Hlen. unfold process_js_file.
  rewrite (get_js_signatures_large _ _ _ Hopen (ascii_is_decodable _ Hascii) Hlen).
  reflexivity.
Qed.

(** For a file of ASCII text, [process_js_file] returns, whatever the
    searches do, and its answer begins with the header of the file type. *)
Theorem readable_js_file_gets_its_header (str_of_exn : exn -> string) (file_path : string)
        (bytes : list Byte.byte) :
  w_open_rb w file_path = inr bytes ->
  forallb is_ascii_byte bytes = true ->
  exists rest,
    result (process_js_file w rx str_of_exn file_path) =
    Ok (js_header file_path (text_of bytes) +:+ rest).
Proof.
  intros Hopen Hascii. pose proof (ascii_is_decodable _ Hascii) as Hdec. unfold js_header.
  destruct (len (text_of bytes) >? 200000)%Z eqn:Hlen.
  - exists (" File" +:+ nl). unfold process_js_file.
    rewrite (get_js_signatures_large _ _ _ Hopen Hdec Hlen). reflexivity.
  - set (ft := if Str.endswith_any (Str.lower file_path) [".ts"; ".tsx"]
               then "TypeScript" else "JavaScript").
    pose proof (get_js_signatures_readable str_of_exn _ _ Hopen Hdec Hlen) as Hget.
    cbv zeta in Hget. fold ft in Hget.
    edestruct (run_steps_complete ft) as (r & Hr & Hc);
      [apply extraction_steps_complete | | | rewrite Hr in Hget].
    + intros e r Hr. eexists. split; [reflexivity|].
      unfold complete in *. cbn. exact Hr.
    + unfold complete. cbn. repeat split; congruence.
    + rewrite (process_js_file_result _ _ _ Hget).
      destruct (format_complete ft r Hc) as (rest & ->). now exists rest.
Qed.

(** The answer never shows the text of an exception: it is the same
    whatever [str(e)] gives for the exceptions raised while the file is
    read and searched. *)
Theorem js_answer_shows_no_exception_text (str1 str2 : exn -> string) (file_path : string) :
  result (process_js_file w rx str1 file_path) =
  result (process_js_file w rx str2 file_path).
Proof.
  destruct (w_open_rb w file_path) as [err|bytes] eqn:Hopen.
  - unfold process_js_file. now rewrite !(get_js_signatures_unreadable _ _ _ Hopen).
  - destruct (decodable bytes) eqn:Hdec;
      [|now rewrite !(undecodable_js_file_answer _ _ _ Hopen Hdec)].
    destruct (len (text_of bytes) >? 200000)%Z eqn:Hlen.
    + unfold process_js_file.
      now rewrite !(get_js_signatures_large _ _ _ Hopen Hdec Hlen).
    + pose proof (get_js_signatures_readable str1 _ _ Hopen Hdec Hlen) as H1.
      pose proof (get_js_signatures_readable str2 _ _ Hopen Hdec Hlen) as H2.
      cbv zeta in H1, H2.
      edestruct run_steps_alike as (r1 & r2 & Hr1 & Hr2 & Hsame);
        [apply extraction_steps_alike | | | rewrite Hr1 in H1; rewrite Hr2 in H2].
      * intros e1 e2 r1 r2 Hr. do 2 eexists. split; [reflexivity|]. split; [reflexivity|].
        unfold same_but_error in *. cbn. exact Hr.
      * unfold same_but_error. repeat split; reflexivity.
      * rewrite (process_js_file_result _ _ _ H1), (process_js_file_result _ _ _ H2).
        now rewrite (format_same_but_error _ _ Hsame).
Qed.

End JavaScriptFiles.

Lemma unreadable_js_file_answer_witness :
  w_open_rb missing_root_world "src/app.js" = inl ENOENT /\
  JavaScript.process_js_file missing_root_world no_matches
    (fun _ => "[Errno 2] No such file or directory: 'src/app.js'") "src/app.js" =
  (Ok "Error processing JavaScript/TypeScript file: 'file_type'", [EvOpen "src/app.js"]).
Proof.
  split; [reflexivity|].
  exact (unreadable_js_file_answer missing_root_world no_matches _ "src/app.js" ENOENT eq_refl).
Defined.

Lemma large_js_file_answer_witness :
  let bytes := repeat Byte.x61 (Z.to_nat 200001) in
  w_open_rb large_file_world "dist/bundle.js" = inr bytes /\
  forallb is_ascii_byte bytes = true /\
  (JavaScript.len (text_of bytes) >? 200000)%Z = true /\
  JavaScript.process_js_file (F := strict_decoding) large_file_world failing_matches
    (fun _ => "error") "dist/bundle.js" =
  (Ok ("# Large File File" +:+ JavaScript.nl), [EvOpen "dist/bundle.js"]).
Proof.
  intros bytes.
  assert (Hascii : forallb is_ascii_byte bytes = true) by (vm_compute; reflexivity).
  assert (Hlen : (JavaScript.len (text_of bytes) >? 200000)%Z = true)
    by (vm_compute; reflexivity).
  split; [reflexivity|]. split; [exact Hascii|]. split; [exact Hlen|].
  exact (large_js_file_answer (F := strict_decoding) large_file_world failing_matches
           (fun _ => "error") "dist/bundle.js" bytes eq_refl Hascii Hlen).
Defined.

Lemma readable_js_file_gets_its_header_witness :
  let bytes := [Byte.x23; Byte.x20; Byte.x68; Byte.x69] in
  w_open_rb sample_world "src/app.ts" = inr bytes /\
  forallb is_ascii_byte bytes = true /\
  exists rest,
    result (JavaScript.process_js_file (F := strict_decoding) sample_world failing_matches
              (fun _ => "error") "src/app.ts") =
    Ok (js_header "src/app.ts" (text_of bytes) +:+ rest).
Proof.
  intros bytes. split; [reflexivity|]. split; [reflexivity|].
  exact (readable_js_file_gets_its_header (F := strict_decoding) sample_world failing_matches
           (fun _ => "error") "src/app.ts" bytes eq_refl eq_refl).
Defined.
